(** * Honeypot.py: a shallow embedding and its verification

    The development follows the layout of [Honeypot.py]:

    - [Text]: Python [str] values as sequences of code points, with the
      parts of the standard library the program calls on them
      ([bytes.decode(errors=...)], [str.strip]);
    - [Re]: the fragment of the [re] module the program uses
      ([re.search] with [re.IGNORECASE] on its four patterns);
    - the classifier [is_suspicious];
    - the world the server acts on (the JSON log file, the SQLite file, the
      console, the client socket) and a small monad for Python statements
      that may return, raise or block;
    - [setup_db], [get_geo], [send_fake_response], [log_event] and the
      accept loop of [start_honeypot]. *)

From Stdlib Require Import List NArith ZArith String Ascii Bool Lia Arith.
From Stdlib Require Import DecimalString.
From Stdlib.Strings Require Byte.
Import ListNotations.

Set Warnings "-register-all".

Local Open Scope N_scope.
Local Open Scope list_scope.

(* ================================================================== *)
(** * Text: Python strings and bytes *)
(* ================================================================== *)

Module Text.

(** A Python [str] is a sequence of Unicode code points. *)
Definition codepoint := N.
Definition text := list codepoint.

(** A Python [bytes] object. *)
Definition bytes := list Byte.byte.

(** Code points of an ASCII literal of the source. *)
Definition of_string (s : string) : text :=
  map N_of_ascii (list_ascii_of_string s).

(** The bytes of an ASCII literal ([str.encode()] on ASCII text). *)
Definition encode_ascii (s : string) : bytes :=
  map byte_of_ascii (list_ascii_of_string s).

(** ** [bytes.decode(encoding='utf-8', errors=...)]

    CPython's UTF-8 decoder reads one sequence at a time.  A malformed
    sequence is reported to the error handler together with the span of
    bytes it covers: one byte for an invalid start byte, the bytes read so
    far when a continuation byte is wrong, and everything up to the end of
    the input when the data stops in the middle of a sequence.  The handler
    [strict] raises [UnicodeDecodeError], [ignore] resumes after the span,
    [replace] emits U+FFFD for the span and resumes after it. *)
Inductive error_handler := Strict | Ignore | Replace.

Definition REPLACEMENT_CHARACTER : codepoint := 0xFFFD.

Definition on_error (errors : error_handler) (k : option text) : option text :=
  match errors with
  | Strict => None
  | Ignore => k
  | Replace => option_map (cons REPLACEMENT_CHARACTER) k
  end.

Definition emit (cp : codepoint) (k : option text) : option text :=
  option_map (cons cp) k.

Definition is_continuation (b : N) : bool := (0x80 <=? b) && (b <? 0xC0).

(** Second byte of a three-byte sequence: [E0] needs [A0..BF] (no
    overlong form), [ED] needs [80..9F] (no surrogate). *)
Definition second_of_three_ok (ch ch2 : N) : bool :=
  is_continuation ch2 &&
  negb (if ch2 <? 0xA0 then ch =? 0xE0 else ch =? 0xED).

(** Second byte of a four-byte sequence: [F0] needs [90..BF], [F4] needs
    [80..8F] (nothing above U+10FFFF). *)
Definition second_of_four_ok (ch ch2 : N) : bool :=
  is_continuation ch2 &&
  negb (if ch2 <? 0x90 then ch =? 0xF0 else ch =? 0xF4).

Definition cp2 (ch ch2 : N) : codepoint :=
  (N.shiftl ch 6 + ch2) - (N.shiftl 0xC0 6 + 0x80).
Definition cp3 (ch ch2 ch3 : N) : codepoint :=
  (N.shiftl ch 12 + N.shiftl ch2 6 + ch3)
  - (N.shiftl 0xE0 12 + N.shiftl 0x80 6 + 0x80).
Definition cp4 (ch ch2 ch3 ch4 : N) : codepoint :=
  (N.shiftl ch 18 + N.shiftl ch2 12 + N.shiftl ch3 6 + ch4)
  - (N.shiftl 0xF0 18 + N.shiftl 0x80 12 + N.shiftl 0x80 6 + 0x80).

Fixpoint utf8_decode (errors : error_handler) (s : bytes) {struct s}
  : option text :=
  match s with
  | [] => Some []
  | b0 :: s1 =>
    let ch := Byte.to_N b0 in
    if ch <? 0x80 then emit ch (utf8_decode errors s1)
    else if ch <? 0xC2 then
      (* invalid start byte: continuation byte or overlong C0, C1 *)
      on_error errors (utf8_decode errors s1)
    else if ch <? 0xE0 then
      match s1 with
      | [] => on_error errors (Some [])          (* unexpected end of data *)
      | b1 :: s2 =>
        let ch2 := Byte.to_N b1 in
        if is_continuation ch2
        then emit (cp2 ch ch2) (utf8_decode errors s2)
        else on_error errors (utf8_decode errors s1)
      end
    else if ch <? 0xF0 then
      match s1 with
      | [] => on_error errors (Some [])
      | b1 :: s2 =>
        let ch2 := Byte.to_N b1 in
        if second_of_three_ok ch ch2 then
          match s2 with
          | [] => on_error errors (Some [])
          | b2 :: s3 =>
            let ch3 := Byte.to_N b2 in
            if is_continuation ch3
            then emit (cp3 ch ch2 ch3) (utf8_decode errors s3)
            else on_error errors (utf8_decode errors s2)
          end
        else on_error errors (utf8_decode errors s1)
      end
    else if ch <? 0xF5 then
      match s1 with
      | [] => on_error errors (Some [])
      | b1 :: s2 =>
        let ch2 := Byte.to_N b1 in
        if second_of_four_ok ch ch2 then
          match s2 with
          | [] => on_error errors (Some [])
          | b2 :: s3 =>
            let ch3 := Byte.to_N b2 in
            if is_continuation ch3 then
              match s3 with
              | [] => on_error errors (Some [])
              | b3 :: s4 =>
                let ch4 := Byte.to_N b3 in
                if is_continuation ch4
                then emit (cp4 ch ch2 ch3 ch4) (utf8_decode errors s4)
                else on_error errors (utf8_decode errors s3)
              end
            else on_error errors (utf8_decode errors s2)
          end
        else on_error errors (utf8_decode errors s1)
      end
    else
      (* F5..FF never start a sequence *)
      on_error errors (utf8_decode errors s1)
  end.

(** The bytes of [s] that [errors='ignore'] keeps, in order: the input
    with every error span removed. *)
Fixpoint utf8_kept (s : bytes) {struct s} : bytes :=
  match s with
  | [] => []
  | b0 :: s1 =>
    let ch := Byte.to_N b0 in
    if ch <? 0x80 then b0 :: utf8_kept s1
    else if ch <? 0xC2 then utf8_kept s1
    else if ch <? 0xE0 then
      match s1 with
      | [] => []
      | b1 :: s2 =>
        if is_continuation (Byte.to_N b1)
        then b0 :: b1 :: utf8_kept s2
        else utf8_kept s1
      end
    else if ch <? 0xF0 then
      match s1 with
      | [] => []
      | b1 :: s2 =>
        if second_of_three_ok ch (Byte.to_N b1) then
          match s2 with
          | [] => []
          | b2 :: s3 =>
            if is_continuation (Byte.to_N b2)
            then b0 :: b1 :: b2 :: utf8_kept s3
            else utf8_kept s2
          end
        else utf8_kept s1
      end
    else if ch <? 0xF5 then
      match s1 with
      | [] => []
      | b1 :: s2 =>
        if second_of_four_ok ch (Byte.to_N b1) then
          match s2 with
          | [] => []
          | b2 :: s3 =>
            if is_continuation (Byte.to_N b2) then
              match s3 with
              | [] => []
              | b3 :: s4 =>
                if is_continuation (Byte.to_N b3)
                then b0 :: b1 :: b2 :: b3 :: utf8_kept s4
                else utf8_kept s3
              end
            else utf8_kept s2
          end
        else utf8_kept s1
      end
    else utf8_kept s1
  end.

(** [raw.decode(errors='ignore')] as a function: the handler never
    raises (see [utf8_decode_ignore_total]). *)
Definition decode_ignore (s : bytes) : text :=
  match utf8_decode Ignore s with
  | Some t => t
  | None => []
  end.

(** [k] is [s] with some of its elements left out. *)
Inductive Subseq {A : Type} : list A -> list A -> Prop :=
| SubseqNil : Subseq [] []
| SubseqKeep x k s : Subseq k s -> Subseq (x :: k) (x :: s)
| SubseqDrop x k s : Subseq k s -> Subseq k (x :: s).

(** ** [str.strip()]

    Without argument, [strip] removes the leading and trailing code points
    for which [str.isspace] holds. *)
Definition isspace (c : codepoint) : bool :=
  ((0x09 <=? c) && (c <=? 0x0D)) ||
  ((0x1C <=? c) && (c <=? 0x20)) ||
  (c =? 0x85) || (c =? 0xA0) || (c =? 0x1680) ||
  ((0x2000 <=? c) && (c <=? 0x200A)) ||
  (c =? 0x2028) || (c =? 0x2029) || (c =? 0x202F) ||
  (c =? 0x205F) || (c =? 0x3000).

Fixpoint lstrip (s : text) : text :=
  match s with
  | [] => []
  | c :: s' => if isspace c then lstrip s' else s
  end.

Definition rstrip (s : text) : text := rev (lstrip (rev s)).

Definition strip (s : text) : text := rstrip (lstrip s).

(** No whitespace at the start, at the end. *)
Definition starts_clean (s : text) : Prop :=
  match s with
  | [] => True
  | c :: _ => isspace c = false
  end.

Definition ends_clean (s : text) : Prop := starts_clean (rev s).

End Text.

(* ================================================================== *)
(** * Re: the fragment of Python's [re] module used by the classifier *)
(* ================================================================== *)

Module Re.
Import Text.

(** Parsed patterns.  [Fail] matches nothing; no pattern parses to it, it
    only appears while matching. *)
Inductive regex : Type :=
| Fail
| Eps
| Lit (c : codepoint)
| AnyChar
| Cat (r1 r2 : regex)
| Alt (r1 r2 : regex)
| Star (r : regex).

(** ** Parsing ([sre_parse], restricted to the syntax the patterns use)

    Alternation [|], concatenation, the postfix [*], groups [( )], the
    escape of a punctuation character and [.]; every other ASCII character
    that is not special stands for itself.  Groups only matter for what a
    match object reports, and [re.search] is used for its truth value, so
    a group parses to its body.  A pattern outside this fragment (or one
    on which [re.compile] raises) parses to [None]. *)
Definition is_ascii_alnum (c : N) : bool :=
  ((0x30 <=? c) && (c <=? 0x39)) ||
  ((0x41 <=? c) && (c <=? 0x5A)) ||
  ((0x61 <=? c) && (c <=? 0x7A)).

Definition is_special (a : ascii) : bool :=
  match a with
  | "*" | "+" | "?" | "{" | "}" | "[" | "]" | "^" | "$" => true
  | _ => false
  end%char.

Definition parse_repeat (r : regex) (s : list ascii) : regex * list ascii :=
  match s with
  | "*"%char :: s' => (Star r, s')
  | _ => (r, s)
  end.

Fixpoint parse_alt (fuel : nat) (s : list ascii) {struct fuel}
  : option (regex * list ascii) :=
  match fuel with
  | O => None
  | S fuel =>
    match parse_seq fuel s with
    | Some (r1, "|"%char :: s') =>
      match parse_alt fuel s' with
      | Some (r2, s'') => Some (Alt r1 r2, s'')
      | None => None
      end
    | other => other
    end
  end
with parse_seq (fuel : nat) (s : list ascii) {struct fuel}
  : option (regex * list ascii) :=
  match fuel with
  | O => None
  | S fuel =>
    match s with
    | [] => Some (Eps, s)
    | "|"%char :: _ => Some (Eps, s)
    | ")"%char :: _ => Some (Eps, s)
    | _ =>
      match parse_atom fuel s with
      | Some (a, s') =>
        let (item, s'') := parse_repeat a s' in
        match parse_seq fuel s'' with
        | Some (Eps, s''') => Some (item, s''')
        | Some (r, s''') => Some (Cat item r, s''')
        | None => None
        end
      | None => None
      end
    end
  end
with parse_atom (fuel : nat) (s : list ascii) {struct fuel}
  : option (regex * list ascii) :=
  match fuel with
  | O => None
  | S fuel =>
    match s with
    | [] => None
    | "("%char :: s' =>
      match parse_alt fuel s' with
      | Some (r, ")"%char :: s'') => Some (r, s'')
      | _ => None
      end
    | "\"%char :: c :: s' =>
      let n := N_of_ascii c in
      if is_ascii_alnum n || (0x80 <=? n) then None else Some (Lit n, s')
    | "\"%char :: [] => None
    | "."%char :: s' => Some (AnyChar, s')
    | c :: s' =>
      let n := N_of_ascii c in
      if is_special c || (0x80 <=? n) then None else Some (Lit n, s')
    end
  end.

(** [re.compile(pattern)] *)
Definition compile (pattern : string) : option regex :=
  let s := list_ascii_of_string pattern in
  match parse_alt (3 * List.length s + 3) s with
  | Some (r, []) => Some r
  | _ => None
  end.

(** ** Matching a literal, with and without [re.IGNORECASE]

    For a [str] pattern the flag applies Unicode case folding.  The
    literals of the parsed fragment are ASCII; an ASCII letter then matches
    its two ASCII cases and, for [i], [s] and [k], the code points whose
    case mapping lands on them: U+0130 and U+0131 (dotted capital and
    dotless small i), U+017F (long s) and U+212A (Kelvin sign). *)
Definition is_ascii_upper (c : N) : bool := (0x41 <=? c) && (c <=? 0x5A).
Definition is_ascii_lower (c : N) : bool := (0x61 <=? c) && (c <=? 0x7A).
Definition ascii_tolower (c : N) : N := if is_ascii_upper c then c + 32 else c.

Definition ignorecase_extra (lo x : codepoint) : bool :=
  ((lo =? 0x69) && ((x =? 0x130) || (x =? 0x131))) ||
  ((lo =? 0x73) && (x =? 0x17F)) ||
  ((lo =? 0x6B) && (x =? 0x212A)).

Definition lit_matches (ignorecase : bool) (c x : codepoint) : bool :=
  if ignorecase && (is_ascii_upper c || is_ascii_lower c) then
    let lo := ascii_tolower c in
    (x =? lo) || (x =? lo - 32) || ignorecase_extra lo x
  else x =? c.

(** [.] without [re.DOTALL]: any code point except the newline. *)
Definition any_matches (x : codepoint) : bool := negb (x =? 0x0A).

(** ** Matching

    The engine decides whether some way of reading the pattern consumes
    the text; the truth value of [re.search] depends on nothing else, so
    the matcher below follows the pattern's derivatives: [nullable r] says
    that [r] matches the empty text and [deriv x r] is what is left of [r]
    after reading [x]. *)
Fixpoint nullable (r : regex) : bool :=
  match r with
  | Fail => false
  | Eps => true
  | Lit _ => false
  | AnyChar => false
  | Cat r1 r2 => nullable r1 && nullable r2
  | Alt r1 r2 => nullable r1 || nullable r2
  | Star _ => true
  end.

Fixpoint deriv (ignorecase : bool) (x : codepoint) (r : regex) : regex :=
  match r with
  | Fail => Fail
  | Eps => Fail
  | Lit c => if lit_matches ignorecase c x then Eps else Fail
  | AnyChar => if any_matches x then Eps else Fail
  | Cat r1 r2 =>
    if nullable r1
    then Alt (Cat (deriv ignorecase x r1) r2) (deriv ignorecase x r2)
    else Cat (deriv ignorecase x r1) r2
  | Alt r1 r2 => Alt (deriv ignorecase x r1) (deriv ignorecase x r2)
  | Star r1 => Cat (deriv ignorecase x r1) (Star r1)
  end.

(** [pattern.fullmatch(s)]: the whole of [s] is matched. *)
Fixpoint fullmatch (ignorecase : bool) (r : regex) (s : text) : bool :=
  match s with
  | [] => nullable r
  | x :: s' => fullmatch ignorecase (deriv ignorecase x r) s'
  end.

(** [pattern.match(s)]: a prefix of [s] is matched. *)
Fixpoint match_ (ignorecase : bool) (r : regex) (s : text) : bool :=
  nullable r ||
  match s with
  | [] => false
  | x :: s' => match_ ignorecase (deriv ignorecase x r) s'
  end.

(** [pattern.search(s)]: a match is tried at every position, from the
    left. *)
Fixpoint search_compiled (ignorecase : bool) (r : regex) (s : text) : bool :=
  match_ ignorecase r s ||
  match s with
  | [] => false
  | _ :: s' => search_compiled ignorecase r s'
  end.

(** [re.search(pattern, string, flags)], as a truth value.  [None] when
    the pattern is outside the parsed fragment. *)
Definition search (pattern : string) (s : text) (ignorecase : bool)
  : option bool :=
  match compile pattern with
  | Some r => Some (search_compiled ignorecase r s)
  | None => None
  end.

(** ** What a pattern denotes

    The texts a pattern matches, independently of any matching strategy. *)
Inductive Matches (ignorecase : bool) : regex -> text -> Prop :=
| MEps : Matches ignorecase Eps []
| MLit c x :
    lit_matches ignorecase c x = true -> Matches ignorecase (Lit c) [x]
| MAny x : any_matches x = true -> Matches ignorecase AnyChar [x]
| MCat r1 r2 w1 w2 :
    Matches ignorecase r1 w1 -> Matches ignorecase r2 w2 ->
    Matches ignorecase (Cat r1 r2) (w1 ++ w2)
| MAltL r1 r2 w : Matches ignorecase r1 w -> Matches ignorecase (Alt r1 r2) w
| MAltR r1 r2 w : Matches ignorecase r2 w -> Matches ignorecase (Alt r1 r2) w
| MStarNil r : Matches ignorecase (Star r) []
| MStarApp r w1 w2 :
    Matches ignorecase r w1 -> Matches ignorecase (Star r) w2 ->
    Matches ignorecase (Star r) (w1 ++ w2).

(** [s] has a piece that [r] matches. *)
Definition Found (ignorecase : bool) (r : regex) (s : text) : Prop :=
  exists pre w post, s = pre ++ w ++ post /\ Matches ignorecase r w.

(** A text read as a sequence of literals. *)
Fixpoint lits (w : text) : regex :=
  match w with
  | [] => Eps
  | [c] => Lit c
  | c :: w' => Cat (Lit c) (lits w')
  end.

(** A keyword, read as a pattern. *)
Definition keyword_regex (kw : string) : regex := lits (of_string kw).

(** A choice between patterns, nested to the right as [compile] builds
    it. *)
Fixpoint alts (rs : list regex) : regex :=
  match rs with
  | [] => Fail
  | [r] => r
  | r :: rs' => Alt r (alts rs')
  end.

End Re.

(* ================================================================== *)
(** * Honeypot.py *)
(* ================================================================== *)

Import Text.

Local Open Scope string_scope.
Local Open Scope N_scope.
Local Open Scope list_scope.

(** ** Config *)

Definition HOST : string := "0.0.0.0".
Definition PORT : N := 9999.
Definition JSON_LOG_FILE : string := "honeypot_logs.json".
Definition DB_FILE : string := "honeypot_logs.db".

(** The two address lists are module-level settings, both empty as
    shipped.  Every function below that reads them takes them from a
    [config], so that its behaviour is stated for whatever lists a
    deployment writes there. *)
Record config := {
  WHITELIST_IPS : list string;
  BLACKLIST_IPS : list string
}.

Definition shipped_config : config :=
  {| WHITELIST_IPS := []; BLACKLIST_IPS := [] |}.

Definition SUSPICIOUS_PATTERNS : list string :=
  [ "(select|union|insert|drop|delete|update).*";
    "(cmd|powershell|bash|sh).*";
    "(\.\./|\%2e\%2e/)";
    "(wget|curl|nc|ncat|telnet).*" ].

(** ** Check for suspicious data *)

(** The loop of [is_suspicious] over a list of patterns.  Besides the
    verdict it returns the patterns handed to [re.search], in the order of
    the calls; the verdict is [None] if a pattern is outside the fragment
    of [Re.compile]. *)
Fixpoint is_suspicious_loop (patterns : list string) (data : text)
  : list string * option bool :=
  match patterns with
  | [] => ([], Some false)
  | pattern :: rest =>
    match Re.search pattern data true with
    | None => ([pattern], None)
    | Some true => ([pattern], Some true)
    | Some false =>
      let (searched, verdict) := is_suspicious_loop rest data in
      (pattern :: searched, verdict)
    end
  end.

Definition is_suspicious_searches (data : text) : list string :=
  fst (is_suspicious_loop SUSPICIOUS_PATTERNS data).

Definition is_suspicious (data : text) : option bool :=
  snd (is_suspicious_loop SUSPICIOUS_PATTERNS data).

(** The words and tokens the four patterns are built from. *)
Definition pattern_keywords : list (list string) :=
  [ ["select"; "union"; "insert"; "drop"; "delete"; "update"];
    ["cmd"; "powershell"; "bash"; "sh"];
    ["../"; "%2e%2e/"];
    ["wget"; "curl"; "nc"; "ncat"; "telnet"] ].

Definition keywords : list string := List.concat pattern_keywords.

(** A rule applies to a text when its pattern, compiled, is found in the
    text with [re.IGNORECASE]. *)
Definition Applies (pattern : string) (data : text) : Prop :=
  exists r, Re.compile pattern = Some r /\ Re.Found true r data.

Definition Compiles (pattern : string) : Prop :=
  exists r, Re.compile pattern = Some r.

(** [w] spells [kw] up to the case folding of [re.IGNORECASE]. *)
Definition Spells (kw w : text) : Prop :=
  Forall2 (fun c x => Re.lit_matches true c x = true) kw w.

(** [w] occurs in [data]. *)
Definition Occurs (w data : text) : Prop :=
  exists pre post, data = pre ++ w ++ post.

(** ** Python values

    What [response.json()] can return and what the program stores in the
    log entry. *)
Inductive pyval : Type :=
| PyNone
| PyBool (b : bool)
| PyInt (z : Z)
| PyFloat (repr : string)
| PyStr (s : text)
| PyList (items : list pyval)
| PyDict (items : list (text * pyval)).

Fixpoint text_eqb (s t : text) : bool :=
  match s, t with
  | [], [] => true
  | x :: s', y :: t' => N.eqb x y && text_eqb s' t'
  | _, _ => false
  end.

(** [d.get(key, default)] *)
Fixpoint dict_get (d : list (text * pyval)) (key : text) (default : pyval)
  : pyval :=
  match d with
  | [] => default
  | (k, v) :: d' => if text_eqb k key then v else dict_get d' key default
  end.

(** A Unicode scalar value: at most U+10FFFF and not a surrogate.  These
    are the code points that UTF-8 encodes. *)
Definition is_scalar (c : codepoint) : bool :=
  (c <? 0xD800) || ((0xDFFF <? c) && (c <? 0x110000)).

(** ** Exceptions *)
Inductive exn : Type :=
| OSError (what : string)            (* socket and file errors *)
| RequestException                   (* requests.exceptions.* *)
| JSONDecodeError
| AttributeError
| UnicodeDecodeError
| ReError
| OperationalError (what : string)   (* sqlite3 *)
| ProgrammingError (what : string)   (* sqlite3 *)
| DataError (what : string)          (* sqlite3 *)
| OverflowError (what : string)
| UnicodeEncodeError.

(** ** The records of the program *)

Definition address : Type := string * N.             (* (ip, port) *)

(** The dictionary returned by [get_geo]: always the three keys. *)
Record geo := {
  country : pyval;
  city : pyval;
  org : pyval
}.

(** The dictionary [log_entry] of [log_event]; one line of the JSON log is
    [json.dumps] of it. *)
Record log_entry := {
  entry_timestamp : N;
  entry_ip : string;
  entry_port : N;
  entry_data : text;
  entry_geo : geo;
  entry_suspicious : bool
}.

(** A value as SQLite stores it.  [SqlRealText repr] is a TEXT value: the
    text that SQLite itself makes of the float whose Python [repr] is
    [repr] when the float goes to a TEXT column (not that [repr]: SQLite
    writes fifteen significant digits, [1.0e+22] for [1e+22]). *)
Inductive sqlval : Type :=
| SqlNull
| SqlInteger (z : Z)
| SqlReal (repr : string)
| SqlText (s : text)
| SqlRealText (repr : string).

(** A row of the table [logs], column by column.  The three location
    columns are declared TEXT and hold what SQLite stored there, which is
    text or NULL whatever the Python value was. *)
Record row := {
  row_id : N;
  row_timestamp : N;
  row_ip : string;
  row_port : N;
  row_data : text;
  row_country : sqlval;
  row_city : sqlval;
  row_org : sqlval;
  row_suspicious : Z
}.

Record table := {
  table_name : string;
  table_rows : list row;
  table_seq : N                       (* the AUTOINCREMENT counter *)
}.

(** The contents of a SQLite file. *)
Definition database := list table.

(** ** The outside world *)

(** What the socket has for the program when it calls [recv].
    [PeerSends arrived]: [arrived] is what is waiting in the receive
    buffer at that moment, the part of what the peer sends that has
    reached the socket by then (empty: the peer has closed without
    sending).  Whatever the peer sends later is no part of it: the program
    calls [recv] once and closes. *)
Inductive peer_behaviour : Type :=
| PeerSends (arrived : bytes)     (* bytes are waiting (none: the peer closed) *)
| PeerResets                      (* the connection is reset *)
| PeerSilent.                     (* connected, nothing arrives, stays open *)

Inductive server_behaviour : Type :=
| ServerReplies (status : N) (body : option pyval)
                                  (* [body]: the response parsed as JSON,
                                     [None] if it is not JSON *)
| ServerUnreachable
| ServerSilent.                   (* accepts the request, never answers *)

(** An incoming connection, as the listening socket sees it. *)
Record connection := {
  conn_addr : address;
  conn_peer : peer_behaviour;
  conn_writable : bool               (* a [send] to this peer succeeds *)
}.

(** A client socket returned by [accept]. *)
Record socket := {
  sock_addr : address;
  sock_peer : peer_behaviour;        (* what is still to come from the peer *)
  sock_writable : bool;
  sock_timeout : option N;           (* [None]: blocking, no deadline *)
  sock_sent : list bytes;            (* what was sent to the peer *)
  sock_closed : bool
}.

Inductive notice : Type :=
| Started (host : string) (port : N)
| BlockedNotice (ip : string)
| IgnoredNotice (ip : string)
| NewNotice (a : address)
| LocationNotice (g : geo)
| DataNotice (data : text)
| SuspiciousNotice
| ErrorNotice (e : exn).

Record world := {
  json_file : list log_entry;        (* lines of honeypot_logs.json *)
  db_file : option database;         (* honeypot_logs.db, if it exists *)
  console : list notice;             (* what was printed, oldest first *)
  sockets : list socket;             (* accepted sockets, by descriptor *)
  clock : N;
  geo_service : string -> server_behaviour;   (* by request URL *)
  json_writable : bool;              (* the JSON log can be opened and written *)
  db_writable : bool;                (* the SQLite file can be opened and written *)
  port_free : bool;                  (* HOST:PORT can be bound *)
  stdout_encodes : codepoint -> bool;
                                     (* the code points above ASCII that the
                                        encoding of [sys.stdout] has *)
  insert_fault : row -> option exn;  (* what SQLite answers when it runs the
                                        INSERT of this row, its parameters
                                        bound: [None], the row is stored;
                                        [Some e], [e] is raised and nothing is
                                        stored (a record over its length limit,
                                        a full disk, a locked file) *)
  accept_fault : option exn          (* what [accept] does once the queued
                                        connections have been accepted: wait
                                        ([None]) or raise *)
}.

Definition set_json_file (w : world) (v : list log_entry) : world :=
  {| json_file := v; db_file := db_file w; console := console w;
     sockets := sockets w; clock := clock w; geo_service := geo_service w;
     json_writable := json_writable w; db_writable := db_writable w;
     port_free := port_free w; stdout_encodes := stdout_encodes w;
     insert_fault := insert_fault w; accept_fault := accept_fault w |}.

Definition set_db_file (w : world) (v : option database) : world :=
  {| json_file := json_file w; db_file := v; console := console w;
     sockets := sockets w; clock := clock w; geo_service := geo_service w;
     json_writable := json_writable w; db_writable := db_writable w;
     port_free := port_free w; stdout_encodes := stdout_encodes w;
     insert_fault := insert_fault w; accept_fault := accept_fault w |}.

Definition set_console (w : world) (v : list notice) : world :=
  {| json_file := json_file w; db_file := db_file w; console := v;
     sockets := sockets w; clock := clock w; geo_service := geo_service w;
     json_writable := json_writable w; db_writable := db_writable w;
     port_free := port_free w; stdout_encodes := stdout_encodes w;
     insert_fault := insert_fault w; accept_fault := accept_fault w |}.

Definition set_sockets (w : world) (v : list socket) : world :=
  {| json_file := json_file w; db_file := db_file w; console := console w;
     sockets := v; clock := clock w; geo_service := geo_service w;
     json_writable := json_writable w; db_writable := db_writable w;
     port_free := port_free w; stdout_encodes := stdout_encodes w;
     insert_fault := insert_fault w; accept_fault := accept_fault w |}.

Definition set_clock (w : world) (v : N) : world :=
  {| json_file := json_file w; db_file := db_file w; console := console w;
     sockets := sockets w; clock := v; geo_service := geo_service w;
     json_writable := json_writable w; db_writable := db_writable w;
     port_free := port_free w; stdout_encodes := stdout_encodes w;
     insert_fault := insert_fault w; accept_fault := accept_fault w |}.

(** ** Statements

    A Python statement run in a world returns a value, raises, or never
    returns because a call blocks; in each case it leaves a world behind
    (what was written before an exception stays written). *)
Inductive blocking_call := InAccept | InRecv | InRequest.

Inductive outcome (A : Type) : Type :=
| Returned (a : A)
| Raised (e : exn)
| Blocked (c : blocking_call).
Arguments Returned {A} a.
Arguments Raised {A} e.
Arguments Blocked {A} c.

Definition M (A : Type) : Type := world -> outcome A * world.

Definition ret {A} (a : A) : M A := fun w => (Returned a, w).

Definition bind {A B} (m : M A) (k : A -> M B) : M B :=
  fun w =>
    match m w with
    | (Returned a, w') => k a w'
    | (Raised e, w') => (Raised e, w')
    | (Blocked c, w') => (Blocked c, w')
    end.

Definition raise {A} (e : exn) : M A := fun w => (Raised e, w).

Definition block {A} (c : blocking_call) : M A := fun w => (Blocked c, w).

(** [try: body  except Exception as e: handler(e)] and the bare
    [except:]; every exception of [exn] derives from [Exception]. *)
Definition try_except {A} (body : M A) (handler : exn -> M A) : M A :=
  fun w =>
    match body w with
    | (Raised e, w') => handler e w'
    | other => other
    end.

(** [try: body  finally: cleanup] *)
Definition try_finally {A} (body : M A) (cleanup : M unit) : M A :=
  fun w =>
    match body w with
    | (Returned a, w') =>
      match cleanup w' with
      | (Returned _, w'') => (Returned a, w'')
      | (Raised e, w'') => (Raised e, w'')
      | (Blocked c, w'') => (Blocked c, w'')
      end
    | (Raised e, w') =>
      match cleanup w' with
      | (Returned _, w'') => (Raised e, w'')
      | (Raised e', w'') => (Raised e', w'')
      | (Blocked c, w'') => (Blocked c, w'')
      end
    | (Blocked c, w') => (Blocked c, w')
    end.

Declare Scope py_scope.
Delimit Scope py_scope with py.
Notation "x <- m ;; k" := (bind m (fun x => k))
  (at level 61, m at next level, right associativity) : py_scope.
Notation "m ;; k" := (bind m (fun _ => k))
  (at level 61, right associativity) : py_scope.
Local Open Scope py_scope.

(** What [str()] puts in a printed line for a value of the lookup, as far
    as the encoding of the terminal is concerned: a string as it is;
    [None], a bool, an int and a float are ASCII text.  Lists and
    dictionaries (whose [str()] shows the [repr] of what they hold) are
    not rendered here: line 120 is reached only after the INSERT, which
    raises on them. *)
Definition shown (v : pyval) : text :=
  match v with
  | PyStr s => s
  | _ => []
  end.

(** The code points of the printed line besides its fixed ASCII text:
    U+21B3 in the location and data lines, U+26A0 in the warning, and the
    values formatted into the line.  Addresses and the messages of the
    exceptions are ASCII. *)
Definition notice_codepoints (n : notice) : text :=
  match n with
  | LocationNotice g =>
    0x21B3 :: shown (city g) ++ shown (country g) ++ shown (org g)
  | DataNotice data => 0x21B3 :: data
  | SuspiciousNotice => [0x26A0]
  | _ => []
  end.

(** [sys.stdout] can encode the text: ASCII always, the rest as its
    encoding has it. *)
Definition encodable (w : world) (t : text) : bool :=
  forallb (fun c => (c <? 0x80) || stdout_encodes w c) t.

(** [print(colored(...))]: the line is encoded as a whole, and nothing is
    written when that fails. *)
Definition print (n : notice) : M unit :=
  fun w =>
    if encodable w (notice_codepoints n)
    then (Returned tt, set_console w (console w ++ [n]))
    else (Raised UnicodeEncodeError, w).

(** [datetime.datetime.now()]: the instant read from the clock, which then
    moves on.  The text that [isoformat()] makes of it is not modelled; an
    entry and a row carry the instant itself. *)
Definition datetime_now : M N :=
  fun w => (Returned (clock w), set_clock w (clock w + 1)).

(** ** The library calls of the program *)

(** [x in xs] for a list of strings *)
Definition py_in (x : string) (xs : list string) : bool :=
  existsb (String.eqb x) xs.

(** [os.path.exists(DB_FILE)] *)
Definition os_path_exists_db : M bool :=
  fun w => (Returned (match db_file w with Some _ => true | None => false end), w).

(** [sqlite3.connect(DB_FILE)]: opens the file and creates it, empty, if
    it does not exist. *)
Definition sqlite3_connect : M unit :=
  fun w =>
    if db_writable w then
      match db_file w with
      | Some _ => (Returned tt, w)
      | None => (Returned tt, set_db_file w (Some []))
      end
    else (Raised (OperationalError "unable to open database file"), w).

Definition has_table (name : string) (db : database) : bool :=
  existsb (fun t => String.eqb (table_name t) name) db.

(** [c.execute('CREATE TABLE name (...)')]: without [IF NOT EXISTS] the
    statement fails on an existing table. *)
Definition execute_create_table (name : string) : M unit :=
  fun w =>
    match db_file w with
    | None => (Raised (ProgrammingError "Cannot operate on a closed database."), w)
    | Some db =>
      if has_table name db
      then (Raised (OperationalError "table already exists"), w)
      else (Returned tt,
            set_db_file w
              (Some (db ++ [{| table_name := name; table_rows := []; table_seq := 0 |}])))
    end.

(** The row goes to the first table called [name]; its [id] is the next
    value of the table's AUTOINCREMENT counter. *)
Fixpoint insert_row (name : string) (mk : N -> row) (db : database)
  : option database :=
  match db with
  | [] => None
  | t :: db' =>
    if String.eqb (table_name t) name then
      Some ({| table_name := table_name t;
               table_rows := table_rows t ++ [mk (table_seq t + 1)];
               table_seq := table_seq t + 1 |} :: db')
    else option_map (cons t) (insert_row name mk db')
  end.

(** The value of the AUTOINCREMENT [id] that the next row of the first
    table called [name] gets. *)
Definition next_id (name : string) (db : database) : N :=
  match find (fun t => String.eqb (table_name t) name) db with
  | Some t => table_seq t + 1
  | None => 0
  end.

(** How [sqlite3] binds a Python value to the [?] at [position]: [None]
    as NULL, an [int] (and a [bool]) as a 64-bit INTEGER, a [float] as a
    REAL (NULL for a NaN), a [str] as TEXT, encoded in UTF-8.  An [int]
    outside 64 bits, a [str] with a surrogate and any other type raise. *)
Definition bind_param (position : string) (v : pyval) : exn + sqlval :=
  match v with
  | PyNone => inr SqlNull
  | PyBool b => inr (SqlInteger (if b then 1 else 0))
  | PyInt z =>
    if ((- 2 ^ 63 <=? z) && (z <? 2 ^ 63))%Z then inr (SqlInteger z)
    else inl (OverflowError "Python int too large to convert to SQLite INTEGER")
  | PyFloat repr =>
    if String.eqb repr "nan" then inr SqlNull else inr (SqlReal repr)
  | PyStr s =>
    if forallb is_scalar s then inr (SqlText s) else inl UnicodeEncodeError
  | PyList _ =>
    inl (ProgrammingError
           ("Error binding parameter " ++ position
            ++ ": type 'list' is not supported"))
  | PyDict _ =>
    inl (ProgrammingError
           ("Error binding parameter " ++ position
            ++ ": type 'dict' is not supported"))
  end.

(** The decimal text of an integer. *)
Definition decimal (z : Z) : text :=
  of_string (NilZero.string_of_int (Z.to_int z)).

(** What a column declared TEXT makes of a bound value: numbers are
    stored as their text, NULL and text as they are. *)
Definition text_affinity (v : sqlval) : sqlval :=
  match v with
  | SqlInteger z => SqlText (decimal z)
  | SqlReal repr => SqlRealText repr
  | other => other
  end.

(** The value can be bound. *)
Definition bindable (v : pyval) : bool :=
  match bind_param "" v with
  | inr _ => true
  | inl _ => false
  end.

(** What a TEXT column holds once the value has been inserted. *)
Definition column_text (v : pyval) : option sqlval :=
  match bind_param "" v with
  | inr bound => Some (text_affinity bound)
  | inl _ => None
  end.

(** [c.execute("INSERT INTO logs (timestamp, ip, port, data, country,
    city, org, suspicious) VALUES (?, ?, ?, ?, ?, ?, ?, ?)", params)]: the
    statement is prepared (which needs the table), its parameters are
    bound in order (the timestamp, the address and the flag always can
    be), and it is run. *)
Definition execute_insert_logs (ts : N) (ip : string) (port : N) (data : text)
    (co ci og : pyval) (suspicious : Z) : M unit :=
  fun w =>
    match db_file w with
    | None => (Raised (ProgrammingError "Cannot operate on a closed database."), w)
    | Some db =>
      if negb (has_table "logs" db)
      then (Raised (OperationalError "no such table: logs"), w)
      else if negb (forallb is_scalar data)
      then (Raised UnicodeEncodeError, w)
      else
        match bind_param "5" co with
        | inl e => (Raised e, w)
        | inr co' =>
          match bind_param "6" ci with
          | inl e => (Raised e, w)
          | inr ci' =>
            match bind_param "7" og with
            | inl e => (Raised e, w)
            | inr og' =>
              let mk id :=
                {| row_id := id; row_timestamp := ts; row_ip := ip;
                   row_port := port; row_data := data;
                   row_country := text_affinity co';
                   row_city := text_affinity ci';
                   row_org := text_affinity og';
                   row_suspicious := suspicious |} in
              match insert_fault w (mk (next_id "logs" db)) with
              | Some e => (Raised e, w)
              | None =>
                match insert_row "logs" mk db with
                | Some db' => (Returned tt, set_db_file w (Some db'))
                | None => (Raised (OperationalError "no such table: logs"), w)
                end
              end
            end
          end
        end
    end.

(** [conn.commit()] and [conn.close()].  Nothing can raise between an
    [execute] and the [commit] that follows it in this program, so the
    change is applied where it is executed. *)
Definition sqlite3_commit : M unit := ret tt.
Definition sqlite3_close : M unit := ret tt.

(** [requests.get(url, timeout=timeout)]: status and parsed body.  Without
    a timeout the call waits for the answer as long as it takes. *)
Definition requests_get (url : string) (timeout : option N)
  : M (N * option pyval) :=
  fun w =>
    match geo_service w url with
    | ServerReplies status body => (Returned (status, body), w)
    | ServerUnreachable => (Raised RequestException, w)
    | ServerSilent =>
      match timeout with
      | None => (Blocked InRequest, w)
      | Some _ => (Raised RequestException, w)
      end
    end.

(** [response.json()] *)
Definition response_json (response : N * option pyval) : M pyval :=
  match snd response with
  | Some v => ret v
  | None => raise JSONDecodeError
  end.

(** [obj.get(key, default)]: only a dictionary has the method. *)
Definition py_get (obj : pyval) (key : string) (default : pyval) : M pyval :=
  match obj with
  | PyDict d => ret (dict_get d (of_string key) default)
  | _ => raise AttributeError
  end.

(** [with open(JSON_LOG_FILE, 'a') as f: f.write(line + '\n')] *)
Definition append_json_line (e : log_entry) : M unit :=
  fun w =>
    if json_writable w
    then (Returned tt, set_json_file w (json_file w ++ [e]))
    else (Raised (OSError "honeypot_logs.json"), w).

(** Sockets.  A descriptor is the position of the socket in [sockets]. *)
Fixpoint update_nth {A} (n : nat) (x : A) (l : list A) : list A :=
  match l, n with
  | [], _ => []
  | _ :: l', O => x :: l'
  | y :: l', S n' => y :: update_nth n' x l'
  end.

(** [server.bind((HOST, PORT))] and [server.listen(10)] *)
Definition server_bind_listen : M unit :=
  fun w =>
    if port_free w then (Returned tt, w)
    else (Raised (OSError "Address already in use"), w).

(** [server.accept()] when it returns the connection [c]: the new socket
    is blocking and has no timeout.  The connections of a run are those
    that [accept] returns, in order, before it waits for ever or fails
    (see [server_accept_idle]). *)
Definition new_socket (c : connection) : socket :=
  {| sock_addr := conn_addr c; sock_peer := conn_peer c;
     sock_writable := conn_writable c;
     sock_timeout := None;
     sock_sent := []; sock_closed := false |}.

Definition server_accept (c : connection) : M (nat * address) :=
  fun w =>
    (Returned (List.length (sockets w), conn_addr c),
     set_sockets w (sockets w ++ [new_socket c])).

(** [server.accept()] when no connection is queued any more: it waits, or
    it raises ([EMFILE], [ECONNABORTED], ...).  A failure of [accept] ends
    the loop, so a run is the connections accepted before it and then
    this. *)
Definition server_accept_idle : M (nat * address) :=
  fun w =>
    match accept_fault w with
    | Some e => (Raised e, w)
    | None => (Blocked InAccept, w)
    end.

(** [client.recv(bufsize)]: at most [bufsize] of the bytes that are
    waiting in the receive buffer, which stay there past that number;
    none waiting and the peer connected, it waits. *)
Definition sock_recv (fd : nat) (bufsize : nat) : M bytes :=
  fun w =>
    match nth_error (sockets w) fd with
    | None => (Raised (OSError "Bad file descriptor"), w)
    | Some s =>
      if sock_closed s then (Raised (OSError "Bad file descriptor"), w)
      else
        match sock_peer s with
        | PeerSends payload =>
          (Returned (firstn bufsize payload),
           set_sockets w
             (update_nth fd
                {| sock_addr := sock_addr s;
                   sock_peer := PeerSends (skipn bufsize payload);
                   sock_writable := sock_writable s;
                   sock_timeout := sock_timeout s;
                   sock_sent := sock_sent s; sock_closed := false |}
                (sockets w)))
        | PeerResets => (Raised (OSError "Connection reset by peer"), w)
        | PeerSilent =>
          match sock_timeout s with
          | None => (Blocked InRecv, w)
          | Some _ => (Raised (OSError "timed out"), w)
          end
        end
    end.

(** [client.send(data)] *)
Definition sock_send (fd : nat) (data : bytes) : M unit :=
  fun w =>
    match nth_error (sockets w) fd with
    | None => (Raised (OSError "Bad file descriptor"), w)
    | Some s =>
      if sock_closed s || negb (sock_writable s)
      then (Raised (OSError "Broken pipe"), w)
      else
        (Returned tt,
         set_sockets w
           (update_nth fd
              {| sock_addr := sock_addr s; sock_peer := sock_peer s;
                 sock_writable := sock_writable s;
                 sock_timeout := sock_timeout s;
                 sock_sent := sock_sent s ++ [data]; sock_closed := false |}
              (sockets w)))
    end.

(** [client.close()]; closing twice is not an error. *)
Definition sock_close (fd : nat) : M unit :=
  fun w =>
    match nth_error (sockets w) fd with
    | None => (Returned tt, w)
    | Some s =>
      (Returned tt,
       set_sockets w
         (update_nth fd
            {| sock_addr := sock_addr s; sock_peer := sock_peer s;
               sock_writable := sock_writable s;
               sock_timeout := sock_timeout s;
               sock_sent := sock_sent s; sock_closed := true |}
            (sockets w)))
    end.

(** ** Ensure DB *)

Definition setup_db : M unit :=
  db_exists <- os_path_exists_db ;;
  if negb db_exists then
    sqlite3_connect ;;
    execute_create_table "logs" ;;
    sqlite3_commit ;;
    sqlite3_close
  else ret tt.

(** ** Get IP Geolocation *)

Definition N_A : pyval := PyStr (of_string "N/A").

Definition sentinel_geo : geo :=
  {| country := N_A; city := N_A; org := N_A |}.

Definition geo_url (ip : string) : string :=
  ("http://ip-api.com/json/" ++ ip)%string.

Definition get_geo (ip : string) : M geo :=
  try_except
    (response <- requests_get (geo_url ip) None ;;
     res <- response_json response ;;
     co <- py_get res "country" N_A ;;
     ci <- py_get res "city" N_A ;;
     og <- py_get res "org" N_A ;;
     ret {| country := co; city := ci; org := og |})
    (fun _ => ret sentinel_geo).

(** ** Fake response for attackers *)

Definition fake : string := "[root@honeypot /]$ command not found" ++ String "010" "".

Definition send_fake_response (client_socket : nat) : M unit :=
  try_except
    (sock_send client_socket (encode_ascii fake))
    (fun _ => ret tt).

(** ** Log to JSON and SQLite *)

(** [int(suspicious)] *)
Definition int_of_bool (b : bool) : Z := if b then 1%Z else 0%Z.

Definition log_event (addr : address) (data : text) (g : geo)
    (suspicious : bool) : M unit :=
  timestamp <- datetime_now ;;
  let log_entry :=
    {| entry_timestamp := timestamp;
       entry_ip := fst addr;
       entry_port := snd addr;
       entry_data := data;
       entry_geo := g;
       entry_suspicious := suspicious |} in
  append_json_line log_entry ;;
  sqlite3_connect ;;
  execute_insert_logs (entry_timestamp log_entry) (fst addr) (snd addr) data
    (country g) (city g) (org g) (int_of_bool suspicious) ;;
  sqlite3_commit ;;
  sqlite3_close.

(** ** Honeypot Server *)

(** [client.recv(2048).decode(errors='ignore').strip()] *)
Definition read_data (client : nat) : M text :=
  raw <- sock_recv client 2048 ;;
  match utf8_decode Ignore raw with
  | Some decoded => ret (strip decoded)
  | None => raise UnicodeDecodeError
  end.

(** The text the handler works on when [payload] is what [recv] finds
    waiting in the socket. *)
Definition payload_text (payload : bytes) : text :=
  strip (decode_ignore (firstn 2048 payload)).

(** [is_suspicious(data)] as a statement: a pattern that does not compile
    makes [re.search] raise. *)
Definition call_is_suspicious (data : text) : M bool :=
  match is_suspicious data with
  | Some verdict => ret verdict
  | None => raise ReError
  end.

(** The body of the [while True] loop after [server.accept()]. *)
Definition handle_connection (cfg : config) (client : nat) (addr : address)
  : M unit :=
  if py_in (fst addr) (BLACKLIST_IPS cfg) then
    print (BlockedNotice (fst addr)) ;;
    sock_close client
  else if py_in (fst addr) (WHITELIST_IPS cfg) then
    print (IgnoredNotice (fst addr)) ;;
    sock_close client
  else
    try_finally
      (try_except
         (data <- read_data client ;;
          g <- get_geo (fst addr) ;;
          suspicious <- call_is_suspicious data ;;
          log_event addr data g suspicious ;;
          print (NewNotice addr) ;;
          print (LocationNotice g) ;;
          print (DataNotice data) ;;
          if suspicious then
            print SuspiciousNotice ;;
            send_fake_response client
          else ret tt)
         (fun e => print (ErrorNotice e)))
      (sock_close client).

(** The [while True] loop, run against the connections that arrive, in
    order of arrival: [serve_one] is one turn of the loop, from
    [server.accept()] to the end of the body.  When no connection is left
    [accept] waits or fails, and its failure, which nothing catches, ends
    the loop. *)
Definition serve_one (cfg : config) (c : connection) : M unit :=
  accepted <- server_accept c ;;
  handle_connection cfg (fst accepted) (snd accepted).

Fixpoint accept_loop (cfg : config) (incoming : list connection) : M unit :=
  match incoming with
  | [] => server_accept_idle ;; ret tt
  | c :: rest =>
    serve_one cfg c ;;
    accept_loop cfg rest
  end.

Definition start_honeypot (cfg : config) (incoming : list connection)
  : M unit :=
  setup_db ;;
  print (Started HOST PORT) ;;
  server_bind_listen ;;
  accept_loop cfg incoming.

(** What is left of the body of the loop once the text has been read,
    looked up and classified. *)
Definition rest_of_turn (fd : nat) (addr : address) (data : text) (g : geo)
    (suspicious : bool) : M unit :=
  try_finally
    (try_except
       (log_event addr data g suspicious ;;
        print (NewNotice addr) ;;
        print (LocationNotice g) ;;
        print (DataNotice data) ;;
        if suspicious then print SuspiciousNotice ;; send_fake_response fd
        else ret tt)
       (fun e => print (ErrorNotice e)))
    (sock_close fd).

(** ** Reading a world *)

(** The rows of the first table called [name]. *)
Definition rows_of (name : string) (db : database) : list row :=
  match find (fun t => String.eqb (table_name t) name) db with
  | Some t => table_rows t
  | None => []
  end.

(** The rows of the table [logs]. *)
Definition logs_rows (w : world) : list row :=
  match db_file w with
  | None => []
  | Some db => rows_of "logs" db
  end.

(** How many tables of the store are called [logs]. *)
Definition logs_tables (w : world) : nat :=
  match db_file w with
  | None => O
  | Some db =>
    List.length (filter (fun t => String.eqb (table_name t) "logs") db)
  end.

(** The entry that [log_event] builds at time [ts]. *)
Definition entry_of (ts : N) (addr : address) (data : text) (g : geo)
    (suspicious : bool) : log_entry :=
  {| entry_timestamp := ts; entry_ip := fst addr; entry_port := snd addr;
     entry_data := data; entry_geo := g; entry_suspicious := suspicious |}.

(** A row and a log entry that describe the same event: the same
    address, flag, instant and text, and in the three location columns
    what a TEXT column makes of the values of the entry. *)
Definition row_matches (r : row) (e : log_entry) : Prop :=
  row_ip r = entry_ip e /\
  row_port r = entry_port e /\
  row_suspicious r = int_of_bool (entry_suspicious e) /\
  row_timestamp r = entry_timestamp e /\
  row_data r = entry_data e /\
  Some (row_country r) = column_text (country (entry_geo e)) /\
  Some (row_city r) = column_text (city (entry_geo e)) /\
  Some (row_org r) = column_text (org (entry_geo e)).

(** The socket that the turn of the loop started in [w] accepted, as it
    is in [w']. *)
Definition client_socket (w w' : world) : option socket :=
  nth_error (sockets w') (List.length (sockets w)).

(** The address is on neither list. *)
Definition processed (cfg : config) (ip : string) : Prop :=
  ~ In ip (BLACKLIST_IPS cfg) /\ ~ In ip (WHITELIST_IPS cfg).

(** The SQLite file can be written and has its table [logs]. *)
Definition store_ready (w : world) : Prop :=
  db_writable w = true /\
  exists db, db_file w = Some db /\ has_table "logs" db = true.

(** The three values of a [geo] can be bound to the INSERT. *)
Definition storable (g : geo) : bool :=
  bindable (country g) && bindable (city g) && bindable (org g).

(** SQLite takes the row of this event, whenever it is inserted. *)
Definition accepted (w : world) (addr : address) (data : text) (g : geo)
    (suspicious : bool) : Prop :=
  forall ts r,
    row_matches r (entry_of ts addr data g suspicious) ->
    insert_fault w r = None.

(** [sys.stdout] encodes every scalar value, as a UTF-8 terminal does. *)
Definition unicode_stdout (w : world) : Prop :=
  forall c, is_scalar c = true -> stdout_encodes w c = true.

(** [sys.stdout] can show the notice. *)
Definition shows (w : world) (n : notice) : Prop :=
  encodable w (notice_codepoints n) = true.

(** [sys.stdout] can show the notices of an event: its location, its
    text and, when it is suspicious, the warning. *)
Definition displayable (w : world) (g : geo) (data : text) (suspicious : bool)
  : bool :=
  encodable w (notice_codepoints (LocationNotice g)) &&
  encodable w (notice_codepoints (DataNotice data)) &&
  (negb suspicious || encodable w (notice_codepoints SuspiciousNotice)).

(** The client socket once the program has read from it. *)
Definition read_socket (c : connection) (arrived : bytes) : socket :=
  {| sock_addr := conn_addr c; sock_peer := PeerSends (skipn 2048 arrived);
     sock_writable := conn_writable c; sock_timeout := None;
     sock_sent := []; sock_closed := false |}.

(** A value that is a non-empty string. *)
Definition populated (v : pyval) : Prop :=
  exists s, v = PyStr s /\ s <> [].

(** A world in which nothing has happened yet: no files, an empty console,
    no socket; the lookup service is [service], the disks and the port
    are in working order, the terminal shows every character, SQLite
    takes every row, and [accept] waits once the queue is empty. *)
Definition fresh_world (service : string -> server_behaviour) : world :=
  {| json_file := []; db_file := None; console := []; sockets := [];
     clock := 0; geo_service := service;
     json_writable := true; db_writable := true; port_free := true;
     stdout_encodes := fun _ => true; insert_fault := fun _ => None;
     accept_fault := None |}.

(** ** Sample configurations, connections and worlds *)

Definition sample_config : config :=
  {| WHITELIST_IPS := ["192.0.2.10"; "198.51.100.7"];
     BLACKLIST_IPS := ["203.0.113.66"; "198.51.100.7"] |}.

Definition sample_body (co ci og : string) : pyval :=
  PyDict [ (of_string "status", PyStr (of_string "success"));
           (of_string "country", PyStr (of_string co));
           (of_string "city", PyStr (of_string ci));
           (of_string "org", PyStr (of_string og)) ].

Definition sample_service (url : string) : server_behaviour :=
  ServerReplies 200 (Some (sample_body "France" "Paris" "Example SAS")).

Definition logs_table : table :=
  {| table_name := "logs"; table_rows := []; table_seq := 0 |}.

(** The world right after a first [setup_db]. *)
Definition sample_world (service : string -> server_behaviour) : world :=
  {| json_file := []; db_file := Some [logs_table]; console := [];
     sockets := []; clock := 0; geo_service := service;
     json_writable := true; db_writable := true; port_free := true;
     stdout_encodes := fun _ => true; insert_fault := fun _ => None;
     accept_fault := None |}.

(** The same world with a JSON log that cannot be written. *)
Definition broken_json_world (service : string -> server_behaviour) : world :=
  {| json_file := []; db_file := Some [logs_table]; console := [];
     sockets := []; clock := 0; geo_service := service;
     json_writable := false; db_writable := true; port_free := true;
     stdout_encodes := fun _ => true; insert_fault := fun _ => None;
     accept_fault := None |}.

(** The same world where [accept] fails once the queue is empty. *)
Definition accept_failing_world (service : string -> server_behaviour)
  : world :=
  {| json_file := []; db_file := Some [logs_table]; console := [];
     sockets := []; clock := 0; geo_service := service;
     json_writable := true; db_writable := true; port_free := true;
     stdout_encodes := fun _ => true; insert_fault := fun _ => None;
     accept_fault := Some (OSError "[Errno 24] Too many open files") |}.

(** The same world with a terminal that shows ASCII only. *)
Definition ascii_terminal_world (service : string -> server_behaviour)
  : world :=
  {| json_file := []; db_file := Some [logs_table]; console := [];
     sockets := []; clock := 0; geo_service := service;
     json_writable := true; db_writable := true; port_free := true;
     stdout_encodes := fun _ => false; insert_fault := fun _ => None;
     accept_fault := None |}.

(** The same world with a SQLite file that has no table. *)
Definition missing_table_world (service : string -> server_behaviour)
  : world :=
  {| json_file := []; db_file := Some []; console := [];
     sockets := []; clock := 0; geo_service := service;
     json_writable := true; db_writable := true; port_free := true;
     stdout_encodes := fun _ => true; insert_fault := fun _ => None;
     accept_fault := None |}.

Definition sample_connection (ip : string) (peer : peer_behaviour)
  : connection :=
  {| conn_addr := (ip, 51234); conn_peer := peer; conn_writable := true |}.

Definition garbled_hi : bytes :=
  [Byte.xff; Byte.x20; Byte.x68; Byte.x69; Byte.xc3; Byte.x0a].

Definition select_users : bytes := encode_ascii "SELECT * FROM users".

Definition france : geo :=
  {| country := PyStr (of_string "France");
     city := PyStr (of_string "Paris");
     org := PyStr (of_string "Example SAS") |}.

Definition blank_country_service (url : string) : server_behaviour :=
  ServerReplies 200 (Some (sample_body "" "Paris" "Example SAS")).

Definition error_page_service (url : string) : server_behaviour :=
  ServerReplies 503 (Some (sample_body "France" "Paris" "Example SAS")).

(** A lookup whose [country] is an integer of 65 bits. *)
Definition wide_country_service (url : string) : server_behaviour :=
  ServerReplies 200
    (Some (PyDict [ (of_string "country", PyInt (2 ^ 63));
                    (of_string "city", PyStr (of_string "Paris"));
                    (of_string "org", PyStr (of_string "Example SAS")) ])).

Definition wide_country : geo :=
  {| country := PyInt (2 ^ 63);
     city := PyStr (of_string "Paris");
     org := PyStr (of_string "Example SAS") |}.

Definition stalled_then_hello : list connection :=
  [ sample_connection "203.0.113.5" PeerSilent;
    sample_connection "203.0.113.9" (PeerSends (encode_ascii "hello")) ].

(** ** More vocabulary for statements *)

(** A keyword occurs in the text, in some mix of cases. *)
Definition KeywordOccurs (data : text) : Prop :=
  exists kw w, In kw keywords /\ Spells (of_string kw) w /\ Occurs w data.

(** [str.upper] and [str.lower] on the ASCII letters, other code points
    left alone. *)
Definition ascii_upper (x : codepoint) : codepoint :=
  if Re.is_ascii_lower x then x - 32 else x.

Definition ascii_lower (x : codepoint) : codepoint :=
  if Re.is_ascii_upper x then x + 32 else x.

(** The (ip, port) pairs of the lines and of the rows. *)
Definition entry_addr (e : log_entry) : address := (entry_ip e, entry_port e).
Definition row_addr (r : row) : address := (row_ip r, row_port r).

(** A connection that the server can log in world [w]: not filtered, the
    peer sends something, the lookup returns values that can be bound,
    and SQLite takes the row. *)
Definition loggable (cfg : config) (w : world) (c : connection) : Prop :=
  processed cfg (fst (conn_addr c)) /\
  exists payload g,
    conn_peer c = PeerSends payload /\
    fst (get_geo (fst (conn_addr c)) w) = Returned g /\
    storable g = true /\
    forall suspicious,
      accepted w (conn_addr c) (payload_text payload) g suspicious.

(** ** How a world may change *)

(** The services, the disks, the port and the terminal are the same. *)
Definition same_environment (w w' : world) : Prop :=
  geo_service w' = geo_service w /\
  json_writable w' = json_writable w /\
  db_writable w' = db_writable w /\
  port_free w' = port_free w /\
  stdout_encodes w' = stdout_encodes w /\
  insert_fault w' = insert_fault w /\
  accept_fault w' = accept_fault w.

(** Both sinks and the console have only been appended to, the clock has
    not gone back, and a SQLite file that was there is still there, with
    its table [logs] if it had one. *)
Definition appended (w w' : world) : Prop :=
  (exists es, json_file w' = json_file w ++ es) /\
  (exists rs, logs_rows w' = logs_rows w ++ rs) /\
  (exists ns, console w' = console w ++ ns) /\
  clock w <= clock w' /\
  (forall db, db_file w = Some db ->
              exists db', db_file w' = Some db' /\
                          (has_table "logs" db = true ->
                           has_table "logs" db' = true)).

(** What a statement that works on the socket [fd] may do to a world. *)
Definition evolves (fd : nat) (w w' : world) : Prop :=
  same_environment w w' /\ appended w w' /\
  List.length (sockets w') = List.length (sockets w) /\
  (forall i, i <> fd -> nth_error (sockets w') i = nth_error (sockets w) i).

(** What the server may do to a world: as above, with new sockets after
    the ones that were there. *)
Definition advances (w w' : world) : Prop :=
  same_environment w w' /\ appended w w' /\
  exists ss, sockets w' = sockets w ++ ss.

(** The loop has come to [accept] with nothing left in the queue: it
    waits there, or [accept] has failed. *)
Definition at_accept (o : outcome unit) : Prop :=
  o = Blocked InAccept \/ exists e, o = Raised e.

(** Every run of the statement changes the world within [R]. *)
Definition keeps {A : Type} (R : world -> world -> Prop) (m : M A) : Prop :=
  forall w, R w (snd (m w)).

(** No white space, and not empty. *)
Definition solid (w : text) : Prop :=
  w <> [] /\ Forall (fun x => isspace x = false) w.

(** ** More samples *)


(** A peer that cannot be written to. *)
Definition deaf_connection (ip : string) (payload : bytes) : connection :=
  {| conn_addr := (ip, 51234); conn_peer := PeerSends payload;
     conn_writable := false |}.

(** A world in which nothing can be bound or stored. *)
Definition port_taken_world (service : string -> server_behaviour) : world :=
  {| json_file := []; db_file := None; console := []; sockets := [];
     clock := 0; geo_service := service;
     json_writable := true; db_writable := true; port_free := false;
     stdout_encodes := fun _ => true; insert_fault := fun _ => None;
     accept_fault := None |}.

Definition no_disk_world (service : string -> server_behaviour) : world :=
  {| json_file := []; db_file := None; console := []; sockets := [];
     clock := 0; geo_service := service;
     json_writable := true; db_writable := false; port_free := true;
     stdout_encodes := fun _ => true; insert_fault := fun _ => None;
     accept_fault := None |}.

(** What every entry written by the server looks like: a text of at most
    2048 scalar values with no white space at either end, and the verdict
    of [is_suspicious] on that text. *)
Definition shaped (e : log_entry) : Prop :=
  (List.length (entry_data e) <= 2048)%nat /\
  Forall (fun c => is_scalar c = true) (entry_data e) /\
  starts_clean (entry_data e) /\ ends_clean (entry_data e) /\
  is_suspicious (entry_data e) = Some (entry_suspicious e).

(* ================================================================== *)
(** * Facts about the matcher *)
(* ================================================================== *)

Module ReFacts.
Import Re.

Section Matcher.
Variable ic : bool.

Lemma nullable_Matches r : nullable r = true <-> Matches ic r [].
Proof.
  split.
  - induction r; simpl; intros H; try discriminate.
    + constructor.
    + apply andb_true_iff in H as [H1 H2].
      apply (MCat ic r1 r2 [] []); auto.
    + apply orb_true_iff in H as [H | H].
      * apply MAltL; auto.
      * apply MAltR; auto.
    + constructor.
  - intros H. remember (@nil codepoint) as w eqn:Hw.
    induction H; simpl; try discriminate; auto.
    + apply app_eq_nil in Hw as [-> ->].
      rewrite IHMatches1, IHMatches2; auto.
    + rewrite IHMatches; auto.
    + rewrite IHMatches, orb_true_r; auto.
Qed.

Lemma deriv_sound x r w :
  Matches ic (deriv ic x r) w -> Matches ic r (x :: w).
Proof.
  revert w. induction r; simpl; intros w H.
  - inversion H.
  - inversion H.
  - destruct (lit_matches ic c x) eqn:E; inversion H; subst.
    constructor; assumption.
  - destruct (any_matches x) eqn:E; inversion H; subst.
    constructor; assumption.
  - destruct (nullable r1) eqn:E.
    + inversion H; subst.
      * match goal with
        | HC : Matches _ (Cat _ _) _ |- _ => inversion HC; subst
        end.
        change (x :: w1 ++ w2) with ((x :: w1) ++ w2).
        constructor; auto.
      * apply (MCat ic r1 r2 [] (x :: w)); auto.
        apply nullable_Matches; assumption.
    + inversion H; subst.
      change (x :: w1 ++ w2) with ((x :: w1) ++ w2).
      constructor; auto.
  - inversion H; subst.
    + apply MAltL; auto.
    + apply MAltR; auto.
  - inversion H; subst.
    change (x :: w1 ++ w2) with ((x :: w1) ++ w2).
    constructor; auto.
Qed.

Lemma deriv_complete x r w :
  Matches ic r (x :: w) -> Matches ic (deriv ic x r) w.
Proof.
  intros H. remember (x :: w) as xw eqn:Hxw. revert w Hxw.
  induction H; intros w0 Hxw; simpl; try discriminate.
  - injection Hxw as -> <-. rewrite H. constructor.
  - injection Hxw as -> <-. rewrite H. constructor.
  - destruct w1 as [| y w1'].
    + simpl in Hxw. subst w2.
      assert (Hn : nullable r1 = true) by (apply nullable_Matches; assumption).
      rewrite Hn. apply MAltR. auto.
    + simpl in Hxw. injection Hxw as -> <-.
      destruct (nullable r1).
      * apply MAltL. constructor; auto.
      * constructor; auto.
  - apply MAltL; auto.
  - apply MAltR; auto.
  - destruct w1 as [| y w1'].
    + simpl in Hxw. apply IHMatches2 in Hxw. exact Hxw.
    + simpl in Hxw. injection Hxw as -> <-.
      constructor; auto.
Qed.

Lemma fullmatch_Matches r s : fullmatch ic r s = true <-> Matches ic r s.
Proof.
  revert r. induction s as [| x s IH]; intros r; simpl.
  - apply nullable_Matches.
  - rewrite IH. split; [apply deriv_sound | apply deriv_complete].
Qed.

Lemma match_prefix r s :
  match_ ic r s = true <->
  exists w post, s = w ++ post /\ Matches ic r w.
Proof.
  revert r. induction s as [| x s IH]; intros r.
  - simpl. rewrite orb_false_r. rewrite nullable_Matches. split.
    + intros H. exists [], []. auto.
    + intros (w & post & Hs & Hm).
      symmetry in Hs. apply app_eq_nil in Hs as [-> _]. exact Hm.
  - simpl. rewrite orb_true_iff, IH, nullable_Matches. split.
    + intros [H | (w & post & -> & Hm)].
      * exists [], (x :: s). auto.
      * exists (x :: w), post. split; auto. apply deriv_sound; assumption.
    + intros (w & post & Hs & Hm). destruct w as [| y w].
      * left; assumption.
      * simpl in Hs. injection Hs as <- ->. right.
        exists w, post. split; auto. apply deriv_complete; assumption.
Qed.

Lemma search_compiled_Found r s :
  search_compiled ic r s = true <-> Found ic r s.
Proof.
  unfold Found. induction s as [| x s IH].
  - cbn [search_compiled]. rewrite orb_false_r, match_prefix. split.
    + intros (w & post & Hs & Hm). exists [], w, post. auto.
    + intros (pre & w & post & Hs & Hm).
      symmetry in Hs. apply app_eq_nil in Hs as [-> Hs].
      exists w, post. auto.
  - cbn [search_compiled]. rewrite orb_true_iff, IH, match_prefix. split.
    + intros [(w & post & Hs & Hm) | (pre & w & post & -> & Hm)].
      * exists [], w, post. auto.
      * exists (x :: pre), w, post. auto.
    + intros (pre & w & post & Hs & Hm). destruct pre as [| y pre].
      * left. exists w, post. auto.
      * simpl in Hs. injection Hs as <- ->. right. exists pre, w, post. auto.
Qed.

Lemma search_compiled_not_Found r s :
  search_compiled ic r s = false <-> ~ Found ic r s.
Proof.
  rewrite <- search_compiled_Found.
  destruct (search_compiled ic r s); split; intros H;
    solve [reflexivity | discriminate | congruence].
Qed.

End Matcher.

End ReFacts.

(* ================================================================== *)
(** * The classifier *)
(* ================================================================== *)

Module Classifier.
Import Re ReFacts.

Lemma search_true_iff pattern data :
  search pattern data true = Some true <-> Applies pattern data.
Proof.
  unfold search, Applies. destruct (compile pattern) as [r |].
  - split.
    + intros H. exists r. split; auto.
      apply search_compiled_Found. congruence.
    + intros (r' & Hr & Hf). injection Hr as <-.
      apply search_compiled_Found in Hf. rewrite Hf. reflexivity.
  - split; [discriminate | intros (r & Hr & _); discriminate].
Qed.

Lemma search_false_iff pattern data :
  search pattern data true = Some false <->
  Compiles pattern /\ ~ Applies pattern data.
Proof.
  unfold search, Applies, Compiles. destruct (compile pattern) as [r |].
  - split.
    + intros H. split; [eauto |]. intros (r' & Hr & Hf). injection Hr as <-.
      apply search_compiled_Found in Hf. congruence.
    + intros [_ Hn]. destruct (search_compiled true r data) eqn:E; auto.
      exfalso. apply Hn. exists r. split; auto.
      apply search_compiled_Found; assumption.
  - split; [discriminate | intros [(r & Hr) _]; discriminate].
Qed.

(** The loop stops at the first rule that applies: the rules before it
    were searched and did not apply, the rules after it are not searched. *)
Lemma loop_first pre pattern post data :
  Forall (fun p => Compiles p /\ ~ Applies p data) pre ->
  Applies pattern data ->
  is_suspicious_loop (pre ++ pattern :: post) data
  = (pre ++ [pattern], Some true).
Proof.
  intros Hpre Hp. induction Hpre as [| p pre Hp0 _ IH]; simpl.
  - apply search_true_iff in Hp. rewrite Hp. reflexivity.
  - apply search_false_iff in Hp0. rewrite Hp0, IH. reflexivity.
Qed.

(** When no rule applies every rule is searched and the verdict is
    [False]. *)
Lemma loop_none patterns data :
  Forall (fun p => Compiles p /\ ~ Applies p data) patterns ->
  is_suspicious_loop patterns data = (patterns, Some false).
Proof.
  intros H. induction H as [| p ps Hp _ IH]; simpl.
  - reflexivity.
  - apply search_false_iff in Hp. rewrite Hp, IH. reflexivity.
Qed.

(** Over rules that compile, either no rule applies or there is a first
    one that does. *)
Lemma first_applicable patterns data :
  Forall Compiles patterns ->
  Forall (fun p => Compiles p /\ ~ Applies p data) patterns \/
  exists pre pattern post,
    patterns = pre ++ pattern :: post /\
    Forall (fun p => Compiles p /\ ~ Applies p data) pre /\
    Applies pattern data.
Proof.
  intros H. induction H as [| p ps Hp _ IH].
  - left. constructor.
  - destruct (search p data true) as [[|] |] eqn:E.
    + right. exists [], p, ps. repeat split; auto.
      apply search_true_iff; assumption.
    + apply search_false_iff in E.
      destruct IH as [IH | (pre & q & post & -> & Hpre & Hq)].
      * left. constructor; assumption.
      * right. exists (p :: pre), q, post. repeat split; auto.
    + exfalso. destruct Hp as (r & Hr). unfold search in E.
      rewrite Hr in E. discriminate.
Qed.

Lemma patterns_compile : Forall Compiles SUSPICIOUS_PATTERNS.
Proof.
  unfold SUSPICIOUS_PATTERNS, Compiles.
  repeat constructor; eexists; vm_compute; reflexivity.
Qed.

Lemma compiles_not_applies data ps :
  Forall Compiles ps ->
  (forall p, In p ps -> ~ Applies p data) ->
  Forall (fun p => Compiles p /\ ~ Applies p data) ps.
Proof.
  intros Hc Hn. rewrite Forall_forall in *. intros p Hin. split; auto.
Qed.

Lemma first_is_suspicious data pre pattern post :
  SUSPICIOUS_PATTERNS = pre ++ pattern :: post ->
  (forall p, In p pre -> ~ Applies p data) ->
  Applies pattern data ->
  is_suspicious data = Some true /\
  is_suspicious_searches data = pre ++ [pattern].
Proof.
  intros Heq Hpre Hp. pose proof patterns_compile as Hc.
  unfold is_suspicious, is_suspicious_searches. rewrite Heq.
  rewrite loop_first; auto.
  apply compiles_not_applies; auto.
  rewrite Heq in Hc. apply Forall_app in Hc. tauto.
Qed.

Lemma applies_is_suspicious data :
  (exists pattern, In pattern SUSPICIOUS_PATTERNS /\ Applies pattern data) ->
  is_suspicious data = Some true.
Proof.
  intros (pattern & Hin & Hp).
  destruct (first_applicable SUSPICIOUS_PATTERNS data patterns_compile)
    as [Hnone | (pre & q & post & Heq & Hpre & Hq)].
  - rewrite Forall_forall in Hnone. exfalso.
    apply (proj2 (Hnone pattern Hin)). exact Hp.
  - apply (first_is_suspicious data pre q post Heq); auto.
    intros p Hinp. rewrite Forall_forall in Hpre. apply Hpre; assumption.
Qed.

Lemma none_applies_not_suspicious data :
  (forall pattern, In pattern SUSPICIOUS_PATTERNS -> ~ Applies pattern data) ->
  is_suspicious data = Some false /\
  is_suspicious_searches data = SUSPICIOUS_PATTERNS.
Proof.
  intros H. unfold is_suspicious, is_suspicious_searches.
  rewrite loop_none; auto.
  apply compiles_not_applies; auto. apply patterns_compile.
Qed.

(** The classifier always returns a verdict: the four patterns compile. *)
Lemma is_suspicious_total data : exists b, is_suspicious data = Some b.
Proof.
  destruct (first_applicable SUSPICIOUS_PATTERNS data patterns_compile)
    as [Hnone | (pre & q & post & Heq & Hpre & Hq)].
  - exists false. unfold is_suspicious. rewrite loop_none; auto.
  - exists true. apply (first_is_suspicious data pre q post Heq); auto.
    intros p Hinp. rewrite Forall_forall in Hpre. apply Hpre; assumption.
Qed.

End Classifier.

Module ClassifierSpec.
Import Re ReFacts Classifier.

(** C1.  [is_suspicious] returns [True] for every text to which one of the
    rules of [SUSPICIOUS_PATTERNS] applies (its pattern is found in the
    text, letters compared without regard to case), [False] for every text
    to which none applies, and [False] for the empty text.  The rules are
    tried in the order of the list and the loop stops at the first one that
    applies: the searches made are those of the rules up to and including
    that one, and when no rule applies all of them. *)
Theorem is_suspicious_verdict (data : text) :
  ((exists pattern, In pattern SUSPICIOUS_PATTERNS /\ Applies pattern data) ->
   is_suspicious data = Some true) /\
  ((forall pattern, In pattern SUSPICIOUS_PATTERNS -> ~ Applies pattern data) ->
   is_suspicious data = Some false /\
   is_suspicious_searches data = SUSPICIOUS_PATTERNS) /\
  is_suspicious [] = Some false /\
  (forall pre pattern post,
     SUSPICIOUS_PATTERNS = pre ++ pattern :: post ->
     (forall p, In p pre -> ~ Applies p data) ->
     Applies pattern data ->
     is_suspicious data = Some true /\
     is_suspicious_searches data = pre ++ [pattern]).
Proof.
  split; [| split; [| split]].
  - apply applies_is_suspicious.
  - apply none_applies_not_suspicious.
  - vm_compute. reflexivity.
  - intros pre pattern post. apply first_is_suspicious.
Qed.

Lemma is_suspicious_verdict_witness :
  (exists pattern,
     In pattern SUSPICIOUS_PATTERNS /\
     Applies pattern (of_string "'; DROP TABLE users; --")) /\
  is_suspicious (of_string "'; DROP TABLE users; --") = Some true /\
  (forall pattern,
     In pattern SUSPICIOUS_PATTERNS ->
     ~ Applies pattern (of_string "hello world")) /\
  is_suspicious (of_string "hello world") = Some false /\
  is_suspicious_searches (of_string "hello world") = SUSPICIOUS_PATTERNS /\
  is_suspicious_searches (of_string "GET /../etc/passwd")
  = [ "(select|union|insert|drop|delete|update).*";
      "(cmd|powershell|bash|sh).*";
      "(\.\./|\%2e\%2e/)" ].
Proof.
  assert (Hdrop : exists pattern,
             In pattern SUSPICIOUS_PATTERNS /\
             Applies pattern (of_string "'; DROP TABLE users; --")).
  { exists "(select|union|insert|drop|delete|update).*". split.
    - simpl. auto.
    - apply search_true_iff. vm_compute. reflexivity. }
  assert (Hhello : forall pattern,
             In pattern SUSPICIOUS_PATTERNS ->
             ~ Applies pattern (of_string "hello world")).
  { intros pattern Hin HA. apply search_true_iff in HA. simpl in Hin.
    destruct Hin as [<- | [<- | [<- | [<- | []]]]];
      vm_compute in HA; discriminate HA. }
  split; [exact Hdrop |].
  split; [exact (proj1 (is_suspicious_verdict _) Hdrop) |].
  split; [exact Hhello |].
  split; [exact (proj1 (proj1 (proj2 (is_suspicious_verdict _)) Hhello)) |].
  split; [exact (proj2 (proj1 (proj2 (is_suspicious_verdict _)) Hhello)) |].
  apply (proj2 (proj2 (proj2
           (is_suspicious_verdict (of_string "GET /../etc/passwd"))))
           [ "(select|union|insert|drop|delete|update).*";
             "(cmd|powershell|bash|sh).*" ]
           "(\.\./|\%2e\%2e/)"
           [ "(wget|curl|nc|ncat|telnet).*" ]).
  - reflexivity.
  - intros p Hin HA. apply search_true_iff in HA. simpl in Hin.
    destruct Hin as [<- | [<- | []]]; vm_compute in HA; discriminate HA.
  - apply search_true_iff. vm_compute. reflexivity.
Defined.

End ClassifierSpec.

(* ================================================================== *)
(** * What the four patterns accept *)
(* ================================================================== *)

Module Keywords.
Import Re ReFacts Classifier.

Lemma Matches_lits ic kw w :
  Matches ic (lits kw) w <->
  Forall2 (fun c x => lit_matches ic c x = true) kw w.
Proof.
  revert w. induction kw as [| c kw IH]; intros w.
  - simpl. split; intros H; inversion H; constructor.
  - destruct kw as [| c' kw'].
    + simpl. split; intros H.
      * inversion H; subst. repeat constructor. assumption.
      * inversion H as [| ? x ? ? Hx Hrest]; subst. inversion Hrest; subst.
        constructor; assumption.
    + change (lits (c :: c' :: kw')) with (Cat (Lit c) (lits (c' :: kw'))).
      split; intros H.
      * inversion H as [| | | ? ? w1 w2 H1 H2 | | | |]; subst.
        inversion H1; subst. simpl. constructor; auto. apply IH; assumption.
      * inversion H as [| ? x ? w' Hx Hrest]; subst.
        apply (MCat ic (Lit c) _ [x] w').
        -- constructor; assumption.
        -- apply IH; assumption.
Qed.

Lemma Matches_alts ic rs w :
  Matches ic (alts rs) w <-> exists r, In r rs /\ Matches ic r w.
Proof.
  induction rs as [| r rs IH].
  - simpl. split; [intros H; inversion H | intros (r & [] & _)].
  - destruct rs as [| r' rs'].
    + simpl. split.
      * intros H. exists r. auto.
      * intros (r0 & [<- | []] & H). exact H.
    + change (alts (r :: r' :: rs')) with (Alt r (alts (r' :: rs'))).
      split.
      * intros H. inversion H as [| | | | ? ? ? HL | ? ? ? HR | |]; subst.
        -- exists r. split; [left; reflexivity | assumption].
        -- apply IH in HR. destruct HR as (r0 & Hin & Hm).
           exists r0. split; [right; assumption | assumption].
      * intros (r0 & [<- | Hin] & Hm).
        -- apply MAltL; assumption.
        -- apply MAltR. apply IH. exists r0. auto.
Qed.

(** A trailing [.*] never changes whether a pattern is found. *)
Lemma Found_trailing_any ic r s :
  Found ic (Cat r (Star AnyChar)) s <-> Found ic r s.
Proof.
  unfold Found. split.
  - intros (pre & w & post & -> & Hm).
    inversion Hm as [| | | ? ? w1 w2 H1 H2 | | | |]; subst.
    exists pre, w1, (w2 ++ post). rewrite <- app_assoc. auto.
  - intros (pre & w & post & -> & Hm).
    exists pre, w, post. split; auto.
    rewrite <- (app_nil_r w). constructor; [assumption | constructor].
Qed.

Lemma Found_keywords ic kws data :
  Found ic (alts (map keyword_regex kws)) data <->
  exists kw w, In kw kws /\
    Forall2 (fun c x => lit_matches ic c x = true) (of_string kw) w /\
    Occurs w data.
Proof.
  unfold Found, Occurs. split.
  - intros (pre & w & post & -> & Hm).
    apply Matches_alts in Hm as (r & Hin & Hm).
    apply in_map_iff in Hin as (kw & <- & Hin).
    apply Matches_lits in Hm. exists kw, w. eauto.
  - intros (kw & w & Hin & Hs & pre & post & ->).
    exists pre, w, post. split; auto.
    apply Matches_alts. exists (keyword_regex kw). split.
    + apply in_map; assumption.
    + apply Matches_lits; assumption.
Qed.

(** The four patterns, compiled: a choice of keywords, followed by [.*]
    in the first, second and fourth. *)
Lemma compile_patterns :
  map compile SUSPICIOUS_PATTERNS =
  map (fun kws_tail : list string * bool =>
         let body := alts (map keyword_regex (fst kws_tail)) in
         Some (if snd kws_tail then Cat body (Star AnyChar) else body))
      (combine pattern_keywords [true; true; false; true]).
Proof. vm_compute. reflexivity. Qed.

(** Each rule applies exactly to the texts in which one of its keywords
    occurs, in any mix of cases. *)
Lemma Applies_iff_keyword pattern kws data :
  In (pattern, kws) (combine SUSPICIOUS_PATTERNS pattern_keywords) ->
  (Applies pattern data <->
   exists kw w, In kw kws /\ Spells (of_string kw) w /\ Occurs w data).
Proof.
  intros Hin. unfold Applies, Spells.
  assert (Hc : exists tail : bool,
             compile pattern =
             Some (if tail
                   then Cat (alts (map keyword_regex kws)) (Star AnyChar)
                   else alts (map keyword_regex kws))).
  { simpl in Hin.
    destruct Hin as [H | [H | [H | [H | []]]]]; injection H as <- <-;
      [exists true | exists true | exists false | exists true];
      vm_compute; reflexivity. }
  destruct Hc as (tail & Hc). rewrite <- Found_keywords. split.
  - intros (r & Hr & Hf). rewrite Hc in Hr. injection Hr as <-.
    destruct tail; [apply (proj1 (Found_trailing_any _ _ _)) in Hf |];
      exact Hf.
  - intros Hf. eexists. split; [exact Hc |].
    destruct tail; [apply (proj2 (Found_trailing_any _ _ _)) |]; exact Hf.
Qed.

Lemma In_keywords kw :
  In kw keywords <->
  exists pattern kws,
    In (pattern, kws) (combine SUSPICIOUS_PATTERNS pattern_keywords) /\
    In kw kws.
Proof.
  unfold keywords. rewrite in_concat. split.
  - intros (kws & Hin & Hkw). simpl in Hin.
    destruct Hin as [<- | [<- | [<- | [<- | []]]]];
      eexists; eexists; (split; [| exact Hkw]); simpl; tauto.
  - intros (pattern & kws & Hin & Hkw). exists kws. split; auto.
    apply in_combine_r in Hin. exact Hin.
Qed.

(** The verdict is [True] exactly when a keyword occurs somewhere in the
    text, in any mix of cases. *)
Lemma is_suspicious_iff_keyword data :
  is_suspicious data = Some true <->
  exists kw w, In kw keywords /\ Spells (of_string kw) w /\ Occurs w data.
Proof.
  split.
  - intros H.
    destruct (first_applicable SUSPICIOUS_PATTERNS data patterns_compile)
      as [Hnone | (pre & q & post & Heq & Hpre & Hq)].
    + unfold is_suspicious in H. rewrite loop_none in H by assumption.
      discriminate.
    + assert (Hin : exists kws,
                 In (q, kws) (combine SUSPICIOUS_PATTERNS pattern_keywords)).
      { assert (Hq' : In q SUSPICIOUS_PATTERNS)
          by (rewrite Heq; apply in_elt).
        simpl in Hq'.
        destruct Hq' as [<- | [<- | [<- | [<- | []]]]];
          eexists; simpl; eauto 6. }
      destruct Hin as (kws & Hin).
      destruct (proj1 (Applies_iff_keyword q kws data Hin) Hq)
        as (kw & w & Hkw & Hs & Ho).
      exists kw, w. repeat split; auto.
      apply In_keywords. eauto.
  - intros (kw & w & Hkw & Hs & Ho).
    apply In_keywords in Hkw as (pattern & kws & Hin & Hkw).
    apply applies_is_suspicious.
    exists pattern. split.
    + apply in_combine_l in Hin. exact Hin.
    + apply (Applies_iff_keyword pattern kws data Hin). eauto.
Qed.

Lemma lit_matches_refl c : Re.lit_matches true c c = true.
Proof.
  unfold Re.lit_matches, Re.ascii_tolower. cbn [andb].
  destruct (Re.is_ascii_upper c) eqn:Eu; cbn [orb].
  - replace (c + 32 - 32) with c by lia.
    rewrite N.eqb_refl, orb_true_r. reflexivity.
  - destruct (Re.is_ascii_lower c); [| apply N.eqb_refl].
    rewrite N.eqb_refl. reflexivity.
Qed.

Lemma Spells_refl kw : Spells kw kw.
Proof.
  unfold Spells. induction kw; constructor; auto using lit_matches_refl.
Qed.

Lemma keyword_occurs_suspicious kw data :
  In kw keywords -> Occurs (of_string kw) data ->
  is_suspicious data = Some true.
Proof.
  intros Hin Ho. apply is_suspicious_iff_keyword.
  exists kw, (of_string kw). auto using Spells_refl.
Qed.

End Keywords.

(* ================================================================== *)
(** * Facts about decoding and stripping *)
(* ================================================================== *)

Module TextFacts.
Import Text.

Lemma Subseq_nil {A} (s : list A) : Subseq [] s.
Proof. induction s; constructor; assumption. Qed.

Lemma Subseq_drop2 {A} (x y : A) k s : Subseq k s -> Subseq k (x :: y :: s).
Proof. intros H. do 2 constructor. assumption. Qed.

Lemma Subseq_drop3 {A} (x y z : A) k s :
  Subseq k s -> Subseq k (x :: y :: z :: s).
Proof. intros H. do 3 constructor. assumption. Qed.

(** One step of the decoder on a non-empty input, with the recursive
    calls left folded. *)
Ltac decoder_step :=
  repeat match goal with
  | |- context [if ?c then _ else _] =>
    let E := fresh "E" in destruct c eqn:E
  | |- context [match ?s with [] => _ | _ :: _ => _ end] =>
    is_var s; destruct s
  end.

Lemma utf8_decode_ignore_bounded n :
  forall s, (List.length s <= n)%nat ->
            exists t, utf8_decode Ignore s = Some t.
Proof.
  induction n as [| n IH]; intros s Hlen.
  - destruct s; [eexists; reflexivity | simpl in Hlen; lia].
  - destruct s as [| b0 s1]; [eexists; reflexivity |].
    simpl in Hlen.
    assert (IH' : forall s' cp,
               (List.length s' <= n)%nat ->
               (exists t, utf8_decode Ignore s' = Some t) /\
               (exists t, emit cp (utf8_decode Ignore s') = Some t)).
    { intros s' cp Hs'. destruct (IH s' Hs') as (t & Ht). rewrite Ht.
      split; eexists; reflexivity. }
    simpl utf8_decode. unfold on_error.
    decoder_step;
      try (eexists; reflexivity);
      try (apply IH'; simpl in *; lia);
      try (apply (IH' _ 0); simpl in *; lia).
Qed.

Lemma utf8_decode_ignore_total s : exists t, utf8_decode Ignore s = Some t.
Proof. apply (utf8_decode_ignore_bounded (List.length s)). lia. Qed.

Lemma utf8_decode_ignore_eq s : utf8_decode Ignore s = Some (decode_ignore s).
Proof.
  unfold decode_ignore. destruct (utf8_decode_ignore_total s) as (t & ->).
  reflexivity.
Qed.

Ltac use_conditions :=
  repeat match goal with
  | H : ?c = true |- context [if ?c then _ else _] => rewrite H
  | H : ?c = false |- context [if ?c then _ else _] => rewrite H
  end.

(** Decoding with [errors='ignore'] is strict decoding of the bytes that
    are kept, and the bytes kept are the input with bytes left out. *)
Lemma utf8_kept_bounded n :
  forall s, (List.length s <= n)%nat ->
            utf8_decode Strict (utf8_kept s) = utf8_decode Ignore s /\
            Subseq (utf8_kept s) s.
Proof.
  induction n as [| n IH]; intros s Hlen.
  - destruct s; [split; [reflexivity | constructor] | simpl in Hlen; lia].
  - destruct s as [| b0 s1]; [split; [reflexivity | constructor] |].
    simpl in Hlen.
    assert (IHd : forall s', (List.length s' <= n)%nat ->
               utf8_decode Strict (utf8_kept s') = utf8_decode Ignore s')
      by (intros; apply IH; assumption).
    assert (IHs : forall s', (List.length s' <= n)%nat ->
               Subseq (utf8_kept s') s')
      by (intros; apply IH; assumption).
    clear IH.
    simpl utf8_decode. simpl utf8_kept. unfold on_error.
    decoder_step; (split;
      [ first
          [ reflexivity
          | apply IHd; simpl in *; lia
          | simpl utf8_decode; use_conditions;
            rewrite IHd by (simpl in *; lia); reflexivity ]
      | first
          [ apply Subseq_nil
          | solve [repeat apply SubseqKeep; apply IHs; simpl in *; lia]
          | solve [apply SubseqDrop; apply IHs; simpl in *; lia]
          | solve [do 2 apply SubseqDrop; apply IHs; simpl in *; lia]
          | solve [do 3 apply SubseqDrop; apply IHs; simpl in *; lia] ] ]).
Qed.

Lemma utf8_kept_strict s :
  utf8_decode Strict (utf8_kept s) = Some (decode_ignore s).
Proof.
  rewrite <- utf8_decode_ignore_eq.
  apply (utf8_kept_bounded (List.length s)). lia.
Qed.

Lemma utf8_kept_Subseq s : Subseq (utf8_kept s) s.
Proof. apply (utf8_kept_bounded (List.length s)). lia. Qed.

(** On well-formed input the permissive decoder is the strict one. *)
Lemma utf8_strict_ignore_bounded n :
  forall s t, (List.length s <= n)%nat ->
              utf8_decode Strict s = Some t -> utf8_decode Ignore s = Some t.
Proof.
  induction n as [| n IH]; intros s t Hlen.
  - destruct s; [auto | simpl in Hlen; lia].
  - destruct s as [| b0 s1]; [auto |].
    simpl in Hlen.
    assert (IH' : forall s' cp t',
               (List.length s' <= n)%nat ->
               emit cp (utf8_decode Strict s') = Some t' ->
               emit cp (utf8_decode Ignore s') = Some t').
    { intros s' cp t' Hs'. destruct (utf8_decode Strict s') as [u |] eqn:E.
      - rewrite (IH s' u Hs' E). auto.
      - discriminate. }
    clear IH. simpl utf8_decode. unfold on_error.
    decoder_step;
      try discriminate;
      try (apply IH'; simpl in *; lia).
Qed.

Lemma utf8_strict_ignore s t :
  utf8_decode Strict s = Some t -> decode_ignore s = t.
Proof.
  intros H. apply (utf8_strict_ignore_bounded (List.length s)) in H; [| lia].
  unfold decode_ignore. rewrite H. reflexivity.
Qed.

(** ** [strip] *)

Lemma lstrip_spec s :
  exists l, s = l ++ lstrip s /\ Forall (fun c => isspace c = true) l /\
            starts_clean (lstrip s).
Proof.
  induction s as [| c s (l & Hs & Hl & Hc)].
  - exists []. simpl. auto.
  - simpl. destruct (isspace c) eqn:E.
    + exists (c :: l). simpl. rewrite <- Hs. auto.
    + exists []. simpl. auto.
Qed.

(** [strip] cuts whitespace, and only whitespace, from both ends. *)
Lemma strip_spec s :
  exists l r,
    s = l ++ strip s ++ r /\
    Forall (fun c => isspace c = true) l /\
    Forall (fun c => isspace c = true) r /\
    starts_clean (strip s) /\ ends_clean (strip s).
Proof.
  destruct (lstrip_spec s) as (l & Hs & Hl & Hc).
  destruct (lstrip_spec (rev (lstrip s))) as (r' & Hr & Hr' & Hc').
  assert (Hm : lstrip s = strip s ++ rev r').
  { unfold strip, rstrip. rewrite <- rev_app_distr, <- Hr, rev_involutive.
    reflexivity. }
  exists l, (rev r'). repeat split.
  - rewrite <- Hm. exact Hs.
  - exact Hl.
  - apply Forall_rev. exact Hr'.
  - destruct (strip s) as [| c u] eqn:E; [exact I |].
    rewrite Hm in Hc. exact Hc.
  - unfold ends_clean, strip, rstrip. rewrite rev_involutive. exact Hc'.
Qed.

End TextFacts.

(* ================================================================== *)
(** * Running the statements of the program *)
(* ================================================================== *)

Module Run.

Lemma py_in_iff x xs : py_in x xs = true <-> In x xs.
Proof.
  unfold py_in. rewrite existsb_exists. split.
  - intros (y & Hin & Heq). apply String.eqb_eq in Heq. subst. exact Hin.
  - intros Hin. exists x. split; [exact Hin | apply String.eqb_refl].
Qed.

Lemma py_in_false x xs : ~ In x xs -> py_in x xs = false.
Proof.
  intros H. destruct (py_in x xs) eqn:E; [| reflexivity].
  apply py_in_iff in E. contradiction.
Qed.

Lemma nth_error_new {A} (l : list A) x :
  nth_error (l ++ [x]) (List.length l) = Some x.
Proof. rewrite nth_error_app2, Nat.sub_diag by lia. reflexivity. Qed.

Lemma update_nth_new {A} (l : list A) x y :
  update_nth (List.length l) y (l ++ [x]) = l ++ [y].
Proof. induction l as [| z l IH]; simpl; [| rewrite IH]; reflexivity. Qed.

Lemma update_nth_length {A} n (x : A) l :
  List.length (update_nth n x l) = List.length l.
Proof.
  revert n. induction l as [| y l IH]; intros [| n]; simpl; auto.
Qed.

(** ** [get_geo] *)

Lemma get_geo_run ip w :
  get_geo ip w =
  match geo_service w (geo_url ip) with
  | ServerSilent => (Blocked InRequest, w)
  | ServerReplies _ (Some (PyDict d)) =>
    (Returned {| country := dict_get d (of_string "country") N_A;
                 city := dict_get d (of_string "city") N_A;
                 org := dict_get d (of_string "org") N_A |}, w)
  | _ => (Returned sentinel_geo, w)
  end.
Proof.
  unfold get_geo, try_except, bind, requests_get.
  destruct (geo_service w (geo_url ip)) as [status [[] |] | |]; reflexivity.
Qed.

Lemma get_geo_world ip w : snd (get_geo ip w) = w.
Proof.
  rewrite get_geo_run.
  destruct (geo_service w (geo_url ip)) as [status [[] |] | |]; reflexivity.
Qed.

Lemma get_geo_never_raises ip w e : fst (get_geo ip w) <> Raised e.
Proof.
  rewrite get_geo_run.
  destruct (geo_service w (geo_url ip)) as [status [[] |] | |]; discriminate.
Qed.

(** ** Dictionaries *)

Lemma text_eqb_eq s t : text_eqb s t = true <-> s = t.
Proof.
  revert t. induction s as [| x s IH]; intros [| y t]; simpl;
    try (split; [discriminate | discriminate]); [tauto |].
  rewrite andb_true_iff, N.eqb_eq, IH. split.
  - intros [-> ->]. reflexivity.
  - intros H. injection H as -> ->. auto.
Qed.

Lemma dict_get_absent d key default :
  (forall v, ~ In (key, v) d) -> dict_get d key default = default.
Proof.
  induction d as [| [k v] d IH]; intros H; [reflexivity |].
  simpl. destruct (text_eqb k key) eqn:E.
  - apply text_eqb_eq in E. subst k. exfalso. apply (H v). left. reflexivity.
  - apply IH. intros v' Hin. apply (H v'). right. exact Hin.
Qed.

Lemma dict_get_first d key v default :
  dict_get ((key, v) :: d) key default = v.
Proof.
  simpl. rewrite (proj2 (text_eqb_eq key key) eq_refl). reflexivity.
Qed.

(** ** [setup_db] *)

Lemma setup_db_existing w db :
  db_file w = Some db -> setup_db w = (Returned tt, w).
Proof.
  intros H. unfold setup_db, bind, os_path_exists_db. rewrite H. reflexivity.
Qed.

Lemma setup_db_absent w :
  db_file w = None -> db_writable w = true ->
  setup_db w =
  (Returned tt,
   set_db_file w
     (Some [{| table_name := "logs"; table_rows := []; table_seq := 0 |}])).
Proof.
  intros H Hw.
  unfold setup_db, bind, os_path_exists_db, sqlite3_connect,
    execute_create_table.
  cbn beta iota. rewrite H. simpl. rewrite Hw, H. reflexivity.
Qed.

Lemma setup_db_unwritable w :
  db_file w = None -> db_writable w = false ->
  setup_db w = (Raised (OperationalError "unable to open database file"), w).
Proof.
  intros H Hw. unfold setup_db, bind, os_path_exists_db, sqlite3_connect.
  cbn beta iota. rewrite H. simpl. rewrite Hw. reflexivity.
Qed.

(** C9, as the code has it.  [setup_db] creates the table only when the
    SQLite file does not exist.  Where the file can be written, calling
    it twice in a row raises nothing and the second call changes nothing:
    the world after it is the world after the first call.  Starting
    without the file, the store then holds exactly one table [logs]; a
    file that was there before is left as it was by both calls, with the
    table [logs] only if it had it. *)
Theorem setup_db_idempotent (w : world) :
  db_writable w = true ->
  exists w1,
    setup_db w = (Returned tt, w1) /\
    setup_db w1 = (Returned tt, w1) /\
    (db_file w = None -> logs_tables w1 = 1%nat) /\
    (forall db, db_file w = Some db -> w1 = w).
Proof.
  intros Hw. destruct (db_file w) as [db |] eqn:E.
  - exists w. rewrite (setup_db_existing w db E).
    repeat split; auto. discriminate.
  - eexists. rewrite (setup_db_absent w E Hw). split; [reflexivity |].
    split; [| split].
    + erewrite setup_db_existing; reflexivity.
    + reflexivity.
    + discriminate.
Qed.

Lemma setup_db_idempotent_witness :
  db_writable (fresh_world (fun _ => ServerUnreachable)) = true /\
  exists w1,
    setup_db (fresh_world (fun _ => ServerUnreachable)) = (Returned tt, w1) /\
    setup_db w1 = (Returned tt, w1) /\
    logs_tables w1 = 1%nat.
Proof.
  split; [reflexivity |].
  destruct (setup_db_idempotent (fresh_world (fun _ => ServerUnreachable)))
    as (w1 & H1 & H2 & H3 & _); [reflexivity |].
  exists w1. repeat split; auto.
Defined.

(** The claim as worded fails: a SQLite file that is there without the
    table [logs] passes the test of [setup_db], and after two calls the
    store still has no table. *)
Lemma setup_db_leaves_file_without_table :
  ~ (forall w,
       db_writable w = true ->
       exists w1 w2,
         setup_db w = (Returned tt, w1) /\
         setup_db w1 = (Returned tt, w2) /\
         logs_tables w1 = 1%nat /\ logs_tables w2 = 1%nat).
Proof.
  intros H.
  destruct (H (missing_table_world sample_service) eq_refl)
    as (w1 & w2 & H1 & H2 & H3 & H4).
  rewrite (setup_db_existing (missing_table_world sample_service) []
             eq_refl) in H1.
  injection H1 as <-.
  discriminate H3.
Qed.

End Run.

(* ================================================================== *)
(** * More about the text that is read *)
(* ================================================================== *)

Module Bounds.
Import TextFacts.
#[local] Arguments firstn : simpl never.
#[local] Arguments skipn : simpl never.

(** ** Length *)

Lemma utf8_decode_length_bounded n :
  forall s t, (List.length s <= n)%nat ->
              utf8_decode Ignore s = Some t ->
              (List.length t <= List.length s)%nat.
Proof.
  induction n as [| n IH]; intros s t Hlen.
  - destruct s; [| simpl in Hlen; lia]. simpl. intros H.
    injection H as <-. simpl. lia.
  - destruct s as [| b0 s1]; [simpl; intros H; injection H as <-; simpl; lia |].
    simpl in Hlen.
    assert (IHo : forall s' t' k,
               (List.length s' <= n)%nat ->
               utf8_decode Ignore s' = Some t' ->
               (List.length s' <= k)%nat -> (List.length t' <= k)%nat).
    { intros s' t' k Hs' Hd Hk. specialize (IH s' t' Hs' Hd). lia. }
    assert (IHe : forall s' cp t' k,
               (List.length s' <= n)%nat ->
               emit cp (utf8_decode Ignore s') = Some t' ->
               (List.length s' < k)%nat -> (List.length t' <= k)%nat).
    { intros s' cp t' k Hs' Hd Hk.
      destruct (utf8_decode Ignore s') as [u |] eqn:E; [| discriminate].
      simpl in Hd. injection Hd as <-. specialize (IH s' u Hs' E).
      simpl. lia. }
    clear IH. simpl utf8_decode. unfold on_error.
    decoder_step; intros Hd;
      first
        [ injection Hd as <-; simpl; lia
        | solve [eapply IHe; [| exact Hd |]; simpl in *; lia]
        | solve [eapply IHo; [| exact Hd |]; simpl in *; lia] ].
Qed.

Lemma decode_ignore_length s :
  (List.length (decode_ignore s) <= List.length s)%nat.
Proof.
  apply (utf8_decode_length_bounded (List.length s)); [lia |].
  apply utf8_decode_ignore_eq.
Qed.

Lemma strip_length s : (List.length (strip s) <= List.length s)%nat.
Proof.
  destruct (strip_spec s) as (l & r & Hs & _).
  rewrite Hs at 2. rewrite !length_app. lia.
Qed.

Lemma payload_text_length payload :
  (List.length (payload_text payload) <= 2048)%nat.
Proof.
  unfold payload_text.
  pose proof (strip_length (decode_ignore (firstn 2048 payload))).
  pose proof (decode_ignore_length (firstn 2048 payload)).
  pose proof (firstn_le_length 2048 payload). lia.
Qed.

(** ** Scalar values *)

Ltac to_props :=
  repeat match goal with
  | H : (_ <? _) = true |- _ => apply N.ltb_lt in H
  | H : (_ <? _) = false |- _ => apply N.ltb_ge in H
  | H : (_ <=? _) = true |- _ => apply N.leb_le in H
  | H : (_ <=? _) = false |- _ => apply N.leb_gt in H
  | H : (_ =? _) = true |- _ => apply N.eqb_eq in H
  | H : (_ =? _) = false |- _ => apply N.eqb_neq in H
  | H : (_ && _) = true |- _ => apply andb_true_iff in H; destruct H
  | H : negb _ = true |- _ => apply negb_true_iff in H
  | H : is_continuation _ = true |- _ => unfold is_continuation in H
  end.

Lemma is_scalar_iff c :
  is_scalar c = true <-> (c < 0xD800 \/ 0xDFFF < c < 0x110000).
Proof.
  unfold is_scalar.
  rewrite orb_true_iff, andb_true_iff, !N.ltb_lt. tauto.
Qed.

Lemma cp1_scalar ch : ch < 0x80 -> is_scalar ch = true.
Proof. intros H. apply is_scalar_iff. lia. Qed.

Lemma cp2_scalar ch ch2 :
  0xC2 <= ch -> ch < 0xE0 -> is_continuation ch2 = true ->
  is_scalar (cp2 ch ch2) = true.
Proof.
  intros H1 H2 H3. to_props. apply is_scalar_iff. unfold cp2.
  rewrite !N.shiftl_mul_pow2. change (2 ^ 6) with 64. lia.
Qed.

Lemma cp3_scalar ch ch2 ch3 :
  0xE0 <= ch -> ch < 0xF0 ->
  second_of_three_ok ch ch2 = true -> is_continuation ch3 = true ->
  is_scalar (cp3 ch ch2 ch3) = true.
Proof.
  intros H1 H2 H3 H4. unfold second_of_three_ok in H3.
  destruct (ch2 <? 0xA0) eqn:E; to_props; apply is_scalar_iff; unfold cp3;
    rewrite !N.shiftl_mul_pow2;
    change (2 ^ 6) with 64; change (2 ^ 12) with 4096; lia.
Qed.

Lemma cp4_scalar ch ch2 ch3 ch4 :
  0xF0 <= ch -> ch < 0xF5 ->
  second_of_four_ok ch ch2 = true ->
  is_continuation ch3 = true -> is_continuation ch4 = true ->
  is_scalar (cp4 ch ch2 ch3 ch4) = true.
Proof.
  intros H1 H2 H3 H4 H5. unfold second_of_four_ok in H3.
  destruct (ch2 <? 0x90) eqn:E; to_props; apply is_scalar_iff; unfold cp4;
    rewrite !N.shiftl_mul_pow2;
    change (2 ^ 6) with 64; change (2 ^ 12) with 4096;
    change (2 ^ 18) with 262144; lia.
Qed.

Ltac side :=
  first [ assumption | apply N.ltb_lt; assumption
        | apply N.ltb_ge; assumption ].

Lemma utf8_decode_scalar_bounded n :
  forall s t, (List.length s <= n)%nat ->
              utf8_decode Ignore s = Some t ->
              Forall (fun c => is_scalar c = true) t.
Proof.
  induction n as [| n IH]; intros s t Hlen.
  - destruct s; [| simpl in Hlen; lia]. simpl. intros H.
    injection H as <-. constructor.
  - destruct s as [| b0 s1]; [simpl; intros H; injection H as <-; constructor |].
    simpl in Hlen.
    assert (IHe : forall s' cp t',
               (List.length s' <= n)%nat ->
               is_scalar cp = true ->
               emit cp (utf8_decode Ignore s') = Some t' ->
               Forall (fun c => is_scalar c = true) t').
    { intros s' cp t' Hs' Hcp Hd.
      destruct (utf8_decode Ignore s') as [u |] eqn:E; [| discriminate].
      simpl in Hd. injection Hd as <-. constructor; eauto. }
    simpl utf8_decode. unfold on_error.
    decoder_step; intros Hd;
      try solve [eapply IH; [| exact Hd]; simpl in Hlen |- *; lia];
      try solve [eapply IHe; [| | exact Hd]; [simpl in Hlen |- *; lia |];
                 first [ solve [apply cp1_scalar; side]
                       | solve [apply cp2_scalar; side]
                       | solve [apply cp3_scalar; side]
                       | solve [apply cp4_scalar; side] ] ].
    all: injection Hd as <-; constructor.
Qed.

Lemma decode_ignore_scalar s :
  Forall (fun c => is_scalar c = true) (decode_ignore s).
Proof.
  apply (utf8_decode_scalar_bounded (List.length s) s); [lia |].
  apply utf8_decode_ignore_eq.
Qed.

Lemma strip_Forall (P : codepoint -> Prop) s : Forall P s -> Forall P (strip s).
Proof.
  destruct (strip_spec s) as (l & r & Hs & _). intros H.
  rewrite Hs in H. apply Forall_app in H as [_ H].
  apply Forall_app in H as [H _]. exact H.
Qed.

End Bounds.

(* ================================================================== *)
(** * Writing an event to the two sinks *)
(* ================================================================== *)

Module Sinks.
Import Run.

Lemma insert_row_rows name mk db :
  has_table name db = true ->
  exists db',
    insert_row name mk db = Some db' /\
    rows_of name db' = rows_of name db ++ [mk (next_id name db)] /\
    has_table name db' = true.
Proof.
  unfold has_table, rows_of, next_id. induction db as [| t db IH]; simpl.
  - discriminate.
  - destruct (String.eqb (table_name t) name) eqn:E; simpl.
    + intros _. eexists. split; [reflexivity |].
      simpl. rewrite E. simpl. auto.
    + intros H. destruct (IH H) as (db' & Hi & Hr & Ht).
      rewrite Hi. simpl. exists (t :: db').
      split; [reflexivity |]. simpl. rewrite E. simpl. auto.
Qed.

Lemma insert_row_none name mk db :
  has_table name db = false -> insert_row name mk db = None.
Proof.
  unfold has_table. induction db as [| t db IH]; simpl; [reflexivity |].
  destruct (String.eqb (table_name t) name); simpl; [discriminate |].
  intros H. rewrite (IH H). reflexivity.
Qed.

(** ** Binding *)

(** Whether a value can be bound does not depend on its position. *)
Lemma bind_param_position p q v x :
  bind_param p v = inr x -> bind_param q v = inr x.
Proof. destruct v; simpl; intros H; try exact H; discriminate H. Qed.

Lemma bindable_bound p v :
  bindable v = true ->
  exists x, bind_param p v = inr x /\ column_text v = Some (text_affinity x).
Proof.
  unfold bindable, column_text.
  destruct (bind_param "" v) as [e | x] eqn:E; [discriminate |].
  intros _. exists x. split; [| reflexivity].
  apply (bind_param_position "" p). exact E.
Qed.

Lemma unbindable_raises p v :
  bindable v = false -> exists e, bind_param p v = inl e.
Proof.
  unfold bindable. destruct (bind_param p v) as [e | x] eqn:E; [eauto |].
  rewrite (bind_param_position p "" v x E). discriminate.
Qed.

(** What can be bound: [None], a bool, an int of 64 bits, a float, a
    string of scalar values. *)
Lemma bindable_iff v :
  bindable v = true <->
  match v with
  | PyInt z => (- 2 ^ 63 <= z < 2 ^ 63)%Z
  | PyStr s => Forall (fun c => is_scalar c = true) s
  | PyList _ | PyDict _ => False
  | _ => True
  end.
Proof.
  unfold bindable, bind_param. destruct v.
  - split; auto.
  - split; auto.
  - destruct ((- 2 ^ 63 <=? z)%Z && (z <? 2 ^ 63)%Z) eqn:E.
    + apply andb_true_iff in E. destruct E as [E1 E2].
      apply Z.leb_le in E1. apply Z.ltb_lt in E2.
      split; [intros _; exact (conj E1 E2) | reflexivity].
    + split; [discriminate |]. intros [H1 H2].
      apply Z.leb_le in H1. apply Z.ltb_lt in H2.
      rewrite H1, H2 in E. discriminate E.
  - destruct (String.eqb repr "nan"); split; auto.
  - destruct (forallb is_scalar s) eqn:E.
    + rewrite forallb_forall in E. split; [| reflexivity].
      intros _. apply Forall_forall. exact E.
    + split; [discriminate |]. intros H.
      rewrite Forall_forall in H. rewrite <- forallb_forall in H.
      rewrite H in E. discriminate E.
  - split; [discriminate | intros []].
  - split; [discriminate | intros []].
Qed.

(** ** [log_event] *)

Ltac run_log_event :=
  unfold log_event, bind, datetime_now, append_json_line, sqlite3_connect,
    execute_insert_logs, sqlite3_commit, sqlite3_close, ret.

(** Both writes succeed: one line, one row, for the same event. *)
Lemma log_event_ok addr data g suspicious w :
  json_writable w = true -> store_ready w ->
  forallb is_scalar data = true -> storable g = true ->
  accepted w addr data g suspicious ->
  exists w' r,
    log_event addr data g suspicious w = (Returned tt, w') /\
    json_file w' = json_file w ++ [entry_of (clock w) addr data g suspicious] /\
    logs_rows w' = logs_rows w ++ [r] /\
    row_matches r (entry_of (clock w) addr data g suspicious) /\
    console w' = console w /\ sockets w' = sockets w /\
    same_environment w w' /\ store_ready w'.
Proof.
  intros Hj (Hd & db & Hdb & Ht) Hdata Hg Hacc.
  unfold storable in Hg. apply andb_true_iff in Hg. destruct Hg as [Hg Hog].
  apply andb_true_iff in Hg. destruct Hg as [Hco Hci].
  destruct (bindable_bound "5" _ Hco) as (co' & Bco & Cco).
  destruct (bindable_bound "6" _ Hci) as (ci' & Bci & Cci).
  destruct (bindable_bound "7" _ Hog) as (og' & Bog & Cog).
  set (mk := fun id =>
               {| row_id := id; row_timestamp := clock w;
                  row_ip := fst addr; row_port := snd addr;
                  row_data := data;
                  row_country := text_affinity co';
                  row_city := text_affinity ci';
                  row_org := text_affinity og';
                  row_suspicious := int_of_bool suspicious |}).
  assert (Hm : forall id,
             row_matches (mk id) (entry_of (clock w) addr data g suspicious)).
  { intros id. unfold row_matches, mk. simpl.
    rewrite Cco, Cci, Cog. repeat split. }
  destruct (insert_row_rows "logs" mk db Ht) as (db' & Hi & Hr & Ht').
  assert (Hf : insert_fault w (mk (next_id "logs" db)) = None)
    by (apply (Hacc (clock w)), Hm).
  run_log_event.
  repeat (simpl; rewrite ?Hj, ?Hd, ?Hdb, ?Ht, ?Hdata, ?Bco, ?Bci, ?Bog).
  fold mk.
  match goal with
  | |- context [insert_fault w ?r] =>
    change r with (mk (next_id "logs" db))
  end.
  rewrite Hf, Hi.
  eexists. exists (mk (next_id "logs" db)). split; [reflexivity |].
  unfold logs_rows, store_ready, same_environment. simpl. rewrite Hdb, Hr.
  repeat split; eauto.
Qed.

(** The JSON log cannot be written: the exception leaves [log_event]
    before the store is opened. *)
Lemma log_event_json_fails addr data g suspicious w :
  json_writable w = false ->
  exists e w',
    log_event addr data g suspicious w = (Raised e, w') /\
    json_file w' = json_file w /\ db_file w' = db_file w /\
    console w' = console w /\ sockets w' = sockets w /\
    same_environment w w'.
Proof.
  intros Hj. run_log_event.
  repeat (simpl; rewrite ?Hj).
  eexists. eexists. split; [reflexivity |]. unfold same_environment.
  simpl. repeat split.
Qed.

(** The line is written whatever becomes of the row: [log_event] then
    returns with the row inserted, or raises with the table as it was. *)
Lemma log_event_written addr data g suspicious w :
  json_writable w = true ->
  exists o w',
    log_event addr data g suspicious w = (o, w') /\
    json_file w' = json_file w ++ [entry_of (clock w) addr data g suspicious] /\
    console w' = console w /\ sockets w' = sockets w /\
    same_environment w w' /\
    ((o = Returned tt /\
      exists r, logs_rows w' = logs_rows w ++ [r] /\
                row_matches r (entry_of (clock w) addr data g suspicious)) \/
     (exists e, o = Raised e /\ logs_rows w' = logs_rows w)).
Proof.
  intros Hj.
  assert (Hfail : forall e w',
             json_file w' =
               json_file w ++ [entry_of (clock w) addr data g suspicious] ->
             console w' = console w -> sockets w' = sockets w ->
             same_environment w w' -> logs_rows w' = logs_rows w ->
             exists o w'0,
               (Raised e, w') = (o, w'0) /\
               json_file w'0 =
                 json_file w ++ [entry_of (clock w) addr data g suspicious] /\
               console w'0 = console w /\ sockets w'0 = sockets w /\
               same_environment w w'0 /\
               ((o = Returned tt /\
                 exists r, logs_rows w'0 = logs_rows w ++ [r] /\
                           row_matches r
                             (entry_of (clock w) addr data g suspicious)) \/
                (exists e0, o = Raised e0 /\ logs_rows w'0 = logs_rows w))).
  { intros e w' H1 H2 H3 H4 H5. exists (Raised e), w'.
    repeat split; try assumption; try apply H4. right. eauto. }
  run_log_event.
  destruct (db_writable w) eqn:Hd.
  2:{ repeat (simpl; rewrite ?Hj, ?Hd).
      apply Hfail; try reflexivity. repeat split. }
  destruct (db_file w) as [db |] eqn:Hdb.
  2:{ repeat (simpl; rewrite ?Hj, ?Hd, ?Hdb).
      apply Hfail; try reflexivity; try (repeat split; fail).
      unfold logs_rows. simpl. rewrite Hdb. reflexivity. }
  assert (Hsame : forall w1,
             db_file w1 = Some db -> logs_rows w1 = logs_rows w).
  { intros w1 H. unfold logs_rows. rewrite H, Hdb. reflexivity. }
  destruct (has_table "logs" db) eqn:Ht.
  2:{ repeat (simpl; rewrite ?Hj, ?Hd, ?Hdb, ?Ht).
      apply Hfail; try reflexivity; try (repeat split; fail);
        apply Hsame; reflexivity. }
  destruct (forallb is_scalar data) eqn:Hdata.
  2:{ repeat (simpl; rewrite ?Hj, ?Hd, ?Hdb, ?Ht, ?Hdata).
      apply Hfail; try reflexivity; try (repeat split; fail);
        apply Hsame; reflexivity. }
  destruct (bind_param "5" (country g)) as [e | co'] eqn:Bco.
  { repeat (simpl; rewrite ?Hj, ?Hd, ?Hdb, ?Ht, ?Hdata, ?Bco).
    apply Hfail; try reflexivity; try (repeat split; fail);
      apply Hsame; reflexivity. }
  destruct (bind_param "6" (city g)) as [e | ci'] eqn:Bci.
  { repeat (simpl; rewrite ?Hj, ?Hd, ?Hdb, ?Ht, ?Hdata, ?Bco, ?Bci).
    apply Hfail; try reflexivity; try (repeat split; fail);
      apply Hsame; reflexivity. }
  destruct (bind_param "7" (org g)) as [e | og'] eqn:Bog.
  { repeat (simpl; rewrite ?Hj, ?Hd, ?Hdb, ?Ht, ?Hdata, ?Bco, ?Bci, ?Bog).
    apply Hfail; try reflexivity; try (repeat split; fail);
      apply Hsame; reflexivity. }
  set (mk := fun id =>
               {| row_id := id; row_timestamp := clock w;
                  row_ip := fst addr; row_port := snd addr;
                  row_data := data;
                  row_country := text_affinity co';
                  row_city := text_affinity ci';
                  row_org := text_affinity og';
                  row_suspicious := int_of_bool suspicious |}).
  assert (Hm : forall id,
             row_matches (mk id) (entry_of (clock w) addr data g suspicious)).
  { intros id. unfold row_matches, mk, column_text. simpl.
    rewrite (bind_param_position _ "" _ _ Bco),
            (bind_param_position _ "" _ _ Bci),
            (bind_param_position _ "" _ _ Bog). repeat split. }
  destruct (insert_row_rows "logs" mk db Ht) as (db' & Hi & Hr & Ht').
  repeat (simpl; rewrite ?Hj, ?Hd, ?Hdb, ?Ht, ?Hdata, ?Bco, ?Bci, ?Bog).
  fold mk.
  match goal with
  | |- context [insert_fault w ?r] =>
    change r with (mk (next_id "logs" db))
  end.
  destruct (insert_fault w (mk (next_id "logs" db))) as [e |] eqn:Hf.
  { apply Hfail; try reflexivity; try (repeat split; fail);
      apply Hsame; reflexivity. }
  rewrite Hi. eexists. eexists. split; [reflexivity |].
  simpl. repeat split. left. split; [reflexivity |].
  exists (mk (next_id "logs" db)). split; [| apply Hm].
  unfold logs_rows. simpl. rewrite Hdb, Hr. reflexivity.
Qed.

(** The line is written and the INSERT fails: the line stays. *)
Lemma log_event_store_fails addr data g suspicious w :
  json_writable w = true ->
  ~ store_ready w \/ storable g = false \/
  forallb is_scalar data = false \/
  (forall r, row_matches r (entry_of (clock w) addr data g suspicious) ->
             insert_fault w r <> None) ->
  exists e w',
    log_event addr data g suspicious w = (Raised e, w') /\
    json_file w' = json_file w ++ [entry_of (clock w) addr data g suspicious] /\
    logs_rows w' = logs_rows w /\
    console w' = console w /\ sockets w' = sockets w /\
    same_environment w w'.
Proof.
  intros Hj Hfail.
  destruct (log_event_written addr data g suspicious w Hj)
    as (o & w' & Hrun & H1 & H2 & H3 & H4 & [(Ho & r & Hr & Hm) | (e & Ho & Hr)]).
  2:{ subst o. exists e, w'. repeat split; try assumption; apply H4. }
  exfalso. subst o. revert Hrun. run_log_event.
  destruct (db_writable w) eqn:Hd;
    [| repeat (simpl; rewrite ?Hj, ?Hd); discriminate].
  destruct (db_file w) as [db |] eqn:Hdb;
    [| repeat (simpl; rewrite ?Hj, ?Hd, ?Hdb); discriminate].
  destruct (has_table "logs" db) eqn:Ht;
    [| repeat (simpl; rewrite ?Hj, ?Hd, ?Hdb, ?Ht); discriminate].
  destruct (forallb is_scalar data) eqn:Hdata;
    [| repeat (simpl; rewrite ?Hj, ?Hd, ?Hdb, ?Ht, ?Hdata); discriminate].
  destruct (bind_param "5" (country g)) as [e | co'] eqn:Bco;
    [repeat (simpl; rewrite ?Hj, ?Hd, ?Hdb, ?Ht, ?Hdata, ?Bco); discriminate |].
  destruct (bind_param "6" (city g)) as [e | ci'] eqn:Bci;
    [repeat (simpl; rewrite ?Hj, ?Hd, ?Hdb, ?Ht, ?Hdata, ?Bco, ?Bci);
     discriminate |].
  destruct (bind_param "7" (org g)) as [e | og'] eqn:Bog;
    [repeat (simpl; rewrite ?Hj, ?Hd, ?Hdb, ?Ht, ?Hdata, ?Bco, ?Bci, ?Bog);
     discriminate |].
  repeat (simpl; rewrite ?Hj, ?Hd, ?Hdb, ?Ht, ?Hdata, ?Bco, ?Bci, ?Bog).
  set (mk := fun id =>
               {| row_id := id; row_timestamp := clock w;
                  row_ip := fst addr; row_port := snd addr;
                  row_data := data;
                  row_country := text_affinity co';
                  row_city := text_affinity ci';
                  row_org := text_affinity og';
                  row_suspicious := int_of_bool suspicious |}).
  assert (Hmk : forall id,
             row_matches (mk id) (entry_of (clock w) addr data g suspicious)).
  { intros id. unfold row_matches, mk, column_text. simpl.
    rewrite (bind_param_position _ "" _ _ Bco),
            (bind_param_position _ "" _ _ Bci),
            (bind_param_position _ "" _ _ Bog). repeat split. }
  match goal with
  | |- context [insert_fault w ?r] =>
    change r with (mk (next_id "logs" db))
  end.
  destruct (insert_fault w (mk (next_id "logs" db))) as [e |] eqn:Hf;
    [discriminate |].
  intros _.
  destruct Hfail as [Hn | [Hg | [Hs | Hflt]]].
  - apply Hn. split; eauto.
  - unfold storable, bindable in Hg.
    rewrite (bind_param_position _ "" _ _ Bco),
            (bind_param_position _ "" _ _ Bci),
            (bind_param_position _ "" _ _ Bog) in Hg. discriminate Hg.
  - discriminate Hs.
  - apply (Hflt _ (Hmk (next_id "logs" db))). exact Hf.
Qed.

(** [log_event] returns only with values of the lookup that could be
    bound: the notices that follow it in the handler are printed for such
    values only. *)
Lemma log_event_returned_storable addr data g suspicious w w' :
  log_event addr data g suspicious w = (Returned tt, w') ->
  storable g = true.
Proof.
  intros H. destruct (json_writable w) eqn:Hj.
  - destruct (storable g) eqn:Hg; [reflexivity |].
    destruct (log_event_store_fails addr data g suspicious w Hj
                (or_intror (or_introl Hg)))
      as (e & w0 & Hr & _).
    rewrite Hr in H. discriminate H.
  - destruct (log_event_json_fails addr data g suspicious w Hj)
      as (e & w0 & Hr & _).
    rewrite Hr in H. discriminate H.
Qed.

End Sinks.

(* ================================================================== *)
(** * One turn of the accept loop *)
(* ================================================================== *)

Module Handler.
Import Run Sinks Classifier TextFacts Bounds.

(** The lookup only reads the service. *)
Lemma get_geo_frame ip w W :
  geo_service W = geo_service w -> get_geo ip W = (fst (get_geo ip w), W).
Proof.
  intros H. rewrite !get_geo_run, H.
  destruct (geo_service w (geo_url ip)) as [status [[] |] | |]; reflexivity.
Qed.

#[local] Arguments firstn : simpl never.
#[local] Arguments skipn : simpl never.

(** The rows of [logs] only depend on the SQLite file. *)
Lemma logs_rows_set_sockets w l : logs_rows (set_sockets w l) = logs_rows w.
Proof. reflexivity. Qed.
Lemma logs_rows_set_console w l : logs_rows (set_console w l) = logs_rows w.
Proof. reflexivity. Qed.
Lemma logs_rows_set_clock w l : logs_rows (set_clock w l) = logs_rows w.
Proof. reflexivity. Qed.
Lemma logs_rows_set_json_file w l : logs_rows (set_json_file w l) = logs_rows w.
Proof. reflexivity. Qed.

Create Rewrite HintDb world.
#[local] Hint Rewrite logs_rows_set_sockets logs_rows_set_console
  logs_rows_set_clock logs_rows_set_json_file : world.

Ltac world_simpl :=
  cbn [json_file db_file console sockets clock geo_service json_writable
       db_writable port_free stdout_encodes insert_fault accept_fault
       set_sockets set_console set_json_file set_db_file set_clock] in *;
  autorewrite with world in *.

(** ** Printing *)

Lemma encodable_frame w W t :
  stdout_encodes W = stdout_encodes w -> encodable W t = encodable w t.
Proof. unfold encodable. intros ->. reflexivity. Qed.

Lemma print_shown n w :
  shows w n -> print n w = (Returned tt, set_console w (console w ++ [n])).
Proof. unfold shows, print. intros ->. reflexivity. Qed.

Lemma print_hidden n w :
  encodable w (notice_codepoints n) = false ->
  print n w = (Raised UnicodeEncodeError, w).
Proof. unfold print. intros ->. reflexivity. Qed.

(** The notices that are plain ASCII are always printed. *)
Lemma print_plain n w :
  notice_codepoints n = [] ->
  print n w = (Returned tt, set_console w (console w ++ [n])).
Proof. intros H. apply print_shown. unfold shows. rewrite H. reflexivity. Qed.

(** A terminal that encodes every scalar value shows every event that
    was read from a socket and stored. *)
Lemma encodable_scalar w t :
  unicode_stdout w -> forallb is_scalar t = true -> encodable w t = true.
Proof.
  intros Hu Ht. unfold encodable. apply forallb_forall. intros c Hc.
  rewrite forallb_forall in Ht. rewrite (Hu c (Ht c Hc)). apply orb_true_r.
Qed.

Lemma shown_scalar v : bindable v = true -> forallb is_scalar (shown v) = true.
Proof.
  unfold bindable, bind_param. destruct v; try reflexivity. simpl.
  destruct (forallb is_scalar s); [reflexivity | discriminate].
Qed.

Lemma unicode_displayable w g data b :
  unicode_stdout w -> storable g = true -> forallb is_scalar data = true ->
  displayable w g data b = true.
Proof.
  intros Hu Hg Hd. unfold storable in Hg.
  apply andb_true_iff in Hg. destruct Hg as [Hg Hog].
  apply andb_true_iff in Hg. destruct Hg as [Hco Hci].
  unfold displayable.
  assert (H1 : encodable w (notice_codepoints (LocationNotice g)) = true).
  { apply encodable_scalar; [exact Hu |]. cbn [notice_codepoints forallb].
    rewrite !forallb_app, (shown_scalar _ Hco), (shown_scalar _ Hci),
      (shown_scalar _ Hog). reflexivity. }
  assert (H2 : encodable w (notice_codepoints (DataNotice data)) = true).
  { apply encodable_scalar; [exact Hu |]. cbn [notice_codepoints forallb].
    rewrite Hd. reflexivity. }
  assert (H3 : encodable w (notice_codepoints SuspiciousNotice) = true).
  { apply encodable_scalar; [exact Hu | reflexivity]. }
  rewrite H1, H2, H3, orb_true_r. reflexivity.
Qed.

(** ** The turn, step by step *)

Ltac enter_handler Hb Hw :=
  unfold serve_one, bind, server_accept; cbn [fst snd];
  unfold handle_connection;
  rewrite (py_in_false _ _ Hb), (py_in_false _ _ Hw);
  unfold try_finally, try_except;
  unfold bind at 1; unfold read_data, bind at 1, sock_recv;
  cbn [sockets set_sockets]; rewrite nth_error_new;
  cbn [sock_closed new_socket sock_peer sock_timeout].

Ltac after_read w Hg :=
  rewrite utf8_decode_ignore_eq; cbn [ret];
  rewrite update_nth_new;
  unfold bind at 1;
  match goal with
  | |- context [get_geo ?ip ?W] =>
    rewrite (get_geo_frame ip w W) by reflexivity
  end;
  rewrite Hg.

Lemma serve_one_processed cfg c w payload g b :
  processed cfg (fst (conn_addr c)) ->
  conn_peer c = PeerSends payload ->
  fst (get_geo (fst (conn_addr c)) w) = Returned g ->
  is_suspicious (payload_text payload) = Some b ->
  serve_one cfg c w =
  rest_of_turn (List.length (sockets w)) (conn_addr c)
    (payload_text payload) g b
    (set_sockets w (sockets w ++ [read_socket c payload])).
Proof.
  intros [Hb Hw] Hp Hg Hsus. unfold payload_text in *.
  enter_handler Hb Hw. rewrite Hp. after_read w Hg.
  unfold bind at 1. unfold call_is_suspicious. rewrite Hsus. cbn [ret].
  reflexivity.
Qed.

(** [send_fake_response], in closed form. *)
Lemma send_fake_response_run fd w :
  send_fake_response fd w =
  match nth_error (sockets w) fd with
  | Some s =>
    if sock_closed s || negb (sock_writable s) then (Returned tt, w)
    else
      (Returned tt,
       set_sockets w
         (update_nth fd
            {| sock_addr := sock_addr s; sock_peer := sock_peer s;
               sock_writable := sock_writable s;
               sock_timeout := sock_timeout s;
               sock_sent := sock_sent s ++ [encode_ascii fake];
               sock_closed := false |}
            (sockets w)))
  | None => (Returned tt, w)
  end.
Proof.
  unfold send_fake_response, try_except, sock_send.
  destruct (nth_error (sockets w) fd) as [s |]; [| reflexivity].
  destruct (sock_closed s || negb (sock_writable s)); reflexivity.
Qed.

Lemma nth_error_update_nth_same {A} (l : list A) n x y :
  nth_error l n = Some y -> nth_error (update_nth n x l) n = Some x.
Proof.
  revert n. induction l as [| z l IH]; intros [| n]; simpl; try discriminate.
  - reflexivity.
  - apply IH.
Qed.

Lemma update_nth_twice {A} (l : list A) n x y :
  update_nth n x (update_nth n y l) = update_nth n x l.
Proof.
  revert n. induction l as [| z l IH]; intros [| n]; simpl; try reflexivity.
  rewrite IH. reflexivity.
Qed.

Ltac next_print :=
  cbn beta iota;
  first [ rewrite print_plain by reflexivity
        | rewrite print_shown by assumption ].

(** [log_event] raised: the error is printed and the socket closed. *)
Lemma after_log_raised fd addr data g b W1 W2 e s :
  log_event addr data g b W1 = (Raised e, W2) ->
  sockets W2 = sockets W1 ->
  nth_error (sockets W1) fd = Some s ->
  exists w' s',
    rest_of_turn fd addr data g b W1 = (Returned tt, w') /\
    json_file w' = json_file W2 /\ db_file w' = db_file W2 /\
    console w' = console W2 ++ [ErrorNotice e] /\
    nth_error (sockets w') fd = Some s' /\
    sock_closed s' = true /\ sock_sent s' = sock_sent s.
Proof.
  intros Hlog Hso Hs.
  unfold rest_of_turn, try_finally, try_except. unfold bind at 1. rewrite Hlog.
  next_print. unfold sock_close. world_simpl. rewrite Hso, Hs.
  eexists. eexists. split; [reflexivity |]. world_simpl.
  rewrite (nth_error_update_nth_same _ _ _ _ Hs). repeat split.
Qed.

(** [log_event] returned and the notices can be shown. *)
Lemma after_log_shown fd addr data g b W1 W2 s :
  log_event addr data g b W1 = (Returned tt, W2) ->
  sockets W2 = sockets W1 ->
  nth_error (sockets W1) fd = Some s -> sock_closed s = false ->
  displayable W2 g data b = true ->
  exists w' s',
    rest_of_turn fd addr data g b W1 = (Returned tt, w') /\
    json_file w' = json_file W2 /\ db_file w' = db_file W2 /\
    console w' =
      console W2 ++ [NewNotice addr; LocationNotice g; DataNotice data]
                 ++ (if b then [SuspiciousNotice] else []) /\
    nth_error (sockets w') fd = Some s' /\
    sock_closed s' = true /\
    sock_sent s' =
      sock_sent s ++ (if b && sock_writable s then [encode_ascii fake] else []).
Proof.
  intros Hlog Hso Hs Hopen Hshow. unfold displayable in Hshow.
  apply andb_true_iff in Hshow. destruct Hshow as [Hshow H3].
  apply andb_true_iff in Hshow. destruct Hshow as [H1 H2].
  assert (S1 : forall x, shows (set_console W2 x) (LocationNotice g))
    by (intros x; exact H1).
  assert (S2 : forall x, shows (set_console W2 x) (DataNotice data))
    by (intros x; exact H2).
  unfold rest_of_turn, try_finally, try_except. unfold bind. rewrite Hlog.
  next_print. cbn beta iota. rewrite print_shown by apply S1.
  cbn beta iota. cbn [set_console console]. rewrite print_shown by apply S2.
  cbn beta iota. cbn [set_console console].
  destruct b.
  - assert (S3 : forall x, shows (set_console W2 x) SuspiciousNotice)
      by (intros x; exact H3).
    rewrite print_shown by apply S3.
    cbn beta iota. rewrite send_fake_response_run. world_simpl.
    rewrite Hso, Hs, Hopen. cbn [orb andb].
    destruct (sock_writable s) eqn:Hw; cbn [negb]; unfold sock_close;
      world_simpl; rewrite ?Hso.
    + rewrite (nth_error_update_nth_same _ _ _ _ Hs), update_nth_twice.
      eexists. eexists. split; [reflexivity |]. world_simpl.
      rewrite (nth_error_update_nth_same _ _ _ _ Hs), <- !app_assoc.
      repeat split.
    + rewrite Hs. eexists. eexists. split; [reflexivity |]. world_simpl.
      rewrite (nth_error_update_nth_same _ _ _ _ Hs), <- !app_assoc,
        app_nil_r.
      repeat split.
  - unfold ret, sock_close. world_simpl. rewrite Hso, Hs.
    eexists. eexists. split; [reflexivity |]. world_simpl.
    rewrite (nth_error_update_nth_same _ _ _ _ Hs), <- !app_assoc, !app_nil_r.
    repeat split.
Qed.

(** [log_event] returned and a notice cannot be encoded: the [print]
    raises, what follows it in the [try] block, the reply included, is
    skipped, and the error is printed. *)
Lemma after_log_hidden fd addr data g b W1 W2 s :
  log_event addr data g b W1 = (Returned tt, W2) ->
  sockets W2 = sockets W1 ->
  nth_error (sockets W1) fd = Some s ->
  displayable W2 g data b = false ->
  exists w' s' ns,
    rest_of_turn fd addr data g b W1 = (Returned tt, w') /\
    json_file w' = json_file W2 /\ db_file w' = db_file W2 /\
    console w' =
      console W2 ++ NewNotice addr :: ns ++ [ErrorNotice UnicodeEncodeError] /\
    ~ In SuspiciousNotice ns /\
    nth_error (sockets w') fd = Some s' /\
    sock_closed s' = true /\ sock_sent s' = sock_sent s.
Proof.
  intros Hlog Hso Hs Hshow. unfold displayable in Hshow.
  unfold rest_of_turn, try_finally, try_except. unfold bind. rewrite Hlog.
  next_print. cbn beta iota.
  assert (Hclose : forall ns,
             ~ In SuspiciousNotice ns ->
             exists w' s' ns0,
               (let (o, w'0) :=
                  print (ErrorNotice UnicodeEncodeError)
                    (set_console W2 (console W2 ++ NewNotice addr :: ns)) in
                match o with
                | Returned a =>
                  match sock_close fd w'0 with
                  | (Returned _, w'') => (Returned a, w'')
                  | (Raised e, w'') => (Raised e, w'')
                  | (Blocked c, w'') => (Blocked c, w'')
                  end
                | Raised e =>
                  match sock_close fd w'0 with
                  | (Returned _, w'') => (Raised e, w'')
                  | (Raised e', w'') => (Raised e', w'')
                  | (Blocked c, w'') => (Blocked c, w'')
                  end
                | Blocked c => (Blocked c, w'0)
                end) = (Returned tt, w') /\
               json_file w' = json_file W2 /\ db_file w' = db_file W2 /\
               console w' =
                 console W2 ++
                 NewNotice addr :: ns0 ++ [ErrorNotice UnicodeEncodeError] /\
               ~ In SuspiciousNotice ns0 /\
               nth_error (sockets w') fd = Some s' /\
               sock_closed s' = true /\ sock_sent s' = sock_sent s).
  { intros ns Hns. rewrite print_plain by reflexivity.
    unfold sock_close. world_simpl. rewrite Hso, Hs.
    eexists. eexists. exists ns. split; [reflexivity |]. world_simpl.
    rewrite (nth_error_update_nth_same _ _ _ _ Hs), <- !app_assoc.
    repeat split. exact Hns. }
  destruct (encodable W2 (notice_codepoints (LocationNotice g))) eqn:H1.
  2:{ rewrite print_hidden by exact H1. cbn beta iota.
      apply (Hclose []). intros []. }
  rewrite print_shown by exact H1. cbn beta iota. cbn [set_console console].
  rewrite <- app_assoc. cbn [app].
  destruct (encodable W2 (notice_codepoints (DataNotice data))) eqn:H2.
  2:{ rewrite print_hidden by exact H2. cbn beta iota.
      apply (Hclose [LocationNotice g]).
      intros [H | []]; discriminate H. }
  rewrite print_shown by exact H2. cbn beta iota. cbn [set_console console].
  rewrite <- app_assoc. cbn [app].
  destruct b; [| discriminate Hshow].
  cbn [andb negb orb] in Hshow.
  rewrite print_hidden by exact Hshow. cbn beta iota.
  apply (Hclose [LocationNotice g; DataNotice data]).
  intros [H | [H | []]]; discriminate H.
Qed.

(** ** The outcomes of a turn *)

Lemma payload_text_scalar payload :
  forallb is_scalar (payload_text payload) = true.
Proof.
  apply forallb_forall. apply Forall_forall.
  unfold payload_text. apply strip_Forall, decode_ignore_scalar.
Qed.

Lemma displayable_frame w W g data b :
  stdout_encodes W = stdout_encodes w ->
  displayable W g data b = displayable w g data b.
Proof.
  intros H. unfold displayable. rewrite !(encodable_frame w W) by exact H.
  reflexivity.
Qed.

Lemma store_ready_frame w W :
  db_writable W = db_writable w -> db_file W = db_file w ->
  store_ready W <-> store_ready w.
Proof. unfold store_ready. intros -> ->. tauto. Qed.

(** Everything works: the event goes to both sinks, the notices are
    printed, a suspicious peer is answered, the socket is closed. *)
Lemma serve_one_logged cfg c w payload g b :
  processed cfg (fst (conn_addr c)) ->
  conn_peer c = PeerSends payload ->
  fst (get_geo (fst (conn_addr c)) w) = Returned g ->
  is_suspicious (payload_text payload) = Some b ->
  json_writable w = true -> store_ready w -> storable g = true ->
  accepted w (conn_addr c) (payload_text payload) g b ->
  displayable w g (payload_text payload) b = true ->
  exists w' r s',
    serve_one cfg c w = (Returned tt, w') /\
    json_file w' =
      json_file w ++ [entry_of (clock w) (conn_addr c) (payload_text payload) g b] /\
    logs_rows w' = logs_rows w ++ [r] /\
    row_matches r (entry_of (clock w) (conn_addr c) (payload_text payload) g b) /\
    console w' =
      console w ++ [NewNotice (conn_addr c); LocationNotice g;
                    DataNotice (payload_text payload)]
                ++ (if b then [SuspiciousNotice] else []) /\
    client_socket w w' = Some s' /\
    sock_closed s' = true /\
    sock_sent s' = (if b && conn_writable c then [encode_ascii fake] else []).
Proof.
  intros Hp Hpeer Hg Hsus Hj Hs Hst Hacc Hshow.
  rewrite (serve_one_processed cfg c w payload g b Hp Hpeer Hg Hsus).
  set (W1 := set_sockets w (sockets w ++ [read_socket c payload])).
  assert (HsW : store_ready W1)
    by (apply (store_ready_frame w W1 eq_refl eq_refl); exact Hs).
  destruct (log_event_ok (conn_addr c) (payload_text payload) g b W1
              Hj HsW (payload_text_scalar payload) Hst Hacc)
    as (W2 & r & Hl & Hjs & Hrows & Hm & Hc & Hso & Henv & _).
  assert (Hshow2 : displayable W2 g (payload_text payload) b = true).
  { rewrite (displayable_frame w W2); [exact Hshow |]. apply Henv. }
  destruct (after_log_shown (List.length (sockets w)) _ _ _ _ W1 W2
              (read_socket c payload) Hl Hso (nth_error_new _ _) eq_refl
              Hshow2)
    as (w' & s' & Hrun & H1 & H2 & H3 & H4 & H5 & H6).
  exists w', r, s'. split; [exact Hrun |].
  split; [rewrite H1; exact Hjs |].
  split; [unfold logs_rows in *; rewrite H2; exact Hrows |].
  split; [exact Hm |]. split; [rewrite H3, Hc; reflexivity |].
  split; [exact H4 |]. split; [exact H5 | exact H6].
Qed.

(** Both sinks are written and a notice cannot be shown: the event is
    stored, the error is printed in place of what was left to print, and
    no reply is sent. *)
Lemma serve_one_hidden cfg c w payload g b :
  processed cfg (fst (conn_addr c)) ->
  conn_peer c = PeerSends payload ->
  fst (get_geo (fst (conn_addr c)) w) = Returned g ->
  is_suspicious (payload_text payload) = Some b ->
  json_writable w = true -> store_ready w -> storable g = true ->
  accepted w (conn_addr c) (payload_text payload) g b ->
  displayable w g (payload_text payload) b = false ->
  exists w' r s' ns,
    serve_one cfg c w = (Returned tt, w') /\
    json_file w' =
      json_file w ++ [entry_of (clock w) (conn_addr c) (payload_text payload) g b] /\
    logs_rows w' = logs_rows w ++ [r] /\
    row_matches r (entry_of (clock w) (conn_addr c) (payload_text payload) g b) /\
    console w' =
      console w ++ NewNotice (conn_addr c) :: ns
                ++ [ErrorNotice UnicodeEncodeError] /\
    ~ In SuspiciousNotice ns /\
    client_socket w w' = Some s' /\
    sock_closed s' = true /\ sock_sent s' = [].
Proof.
  intros Hp Hpeer Hg Hsus Hj Hs Hst Hacc Hshow.
  rewrite (serve_one_processed cfg c w payload g b Hp Hpeer Hg Hsus).
  set (W1 := set_sockets w (sockets w ++ [read_socket c payload])).
  assert (HsW : store_ready W1)
    by (apply (store_ready_frame w W1 eq_refl eq_refl); exact Hs).
  destruct (log_event_ok (conn_addr c) (payload_text payload) g b W1
              Hj HsW (payload_text_scalar payload) Hst Hacc)
    as (W2 & r & Hl & Hjs & Hrows & Hm & Hc & Hso & Henv & _).
  assert (Hshow2 : displayable W2 g (payload_text payload) b = false).
  { rewrite (displayable_frame w W2); [exact Hshow |]. apply Henv. }
  destruct (after_log_hidden (List.length (sockets w)) _ _ _ _ W1 W2
              (read_socket c payload) Hl Hso (nth_error_new _ _) Hshow2)
    as (w' & s' & ns & Hrun & H1 & H2 & H3 & H4 & H5 & H6 & H7).
  exists w', r, s', ns. split; [exact Hrun |].
  split; [rewrite H1; exact Hjs |].
  split; [unfold logs_rows in *; rewrite H2; exact Hrows |].
  split; [exact Hm |]. split; [rewrite H3, Hc; reflexivity |].
  split; [exact H4 |]. split; [exact H5 |]. split; [exact H6 | exact H7].
Qed.

(** A filtered address: a notice and [close], nothing else. *)
Lemma serve_one_filtered cfg c w :
  In (fst (conn_addr c)) (BLACKLIST_IPS cfg) \/
  In (fst (conn_addr c)) (WHITELIST_IPS cfg) ->
  exists w' s',
    serve_one cfg c w = (Returned tt, w') /\
    json_file w' = json_file w /\ db_file w' = db_file w /\
    console w' =
      console w ++
      [if py_in (fst (conn_addr c)) (BLACKLIST_IPS cfg)
       then BlockedNotice (fst (conn_addr c))
       else IgnoredNotice (fst (conn_addr c))] /\
    client_socket w w' = Some s' /\
    sock_closed s' = true /\ sock_sent s' = [] /\
    sock_peer s' = conn_peer c.
Proof.
  intros H.
  unfold serve_one, bind, server_accept; cbn [fst snd].
  unfold handle_connection.
  destruct (py_in (fst (conn_addr c)) (BLACKLIST_IPS cfg)) eqn:Eb.
  - unfold bind. rewrite print_plain by reflexivity.
    unfold sock_close. world_simpl.
    rewrite nth_error_new, update_nth_new.
    eexists. eexists. split; [reflexivity |]. unfold client_socket.
    world_simpl. rewrite nth_error_new. repeat split; reflexivity.
  - destruct H as [H | H]; [apply py_in_iff in H; congruence |].
    apply py_in_iff in H. rewrite H.
    unfold bind. rewrite print_plain by reflexivity.
    unfold sock_close. world_simpl.
    rewrite nth_error_new, update_nth_new.
    eexists. eexists. split; [reflexivity |]. unfold client_socket.
    world_simpl. rewrite nth_error_new. repeat split; reflexivity.
Qed.

(** A silent peer: the turn stays in [recv]. *)
Lemma serve_one_silent cfg c w :
  processed cfg (fst (conn_addr c)) ->
  conn_peer c = PeerSilent ->
  serve_one cfg c w =
  (Blocked InRecv, set_sockets w (sockets w ++ [new_socket c])).
Proof.
  intros [Hb Hw] Hp. enter_handler Hb Hw. rewrite Hp. reflexivity.
Qed.

(** A reset: the [except] branch prints, [finally] closes. *)
Lemma serve_one_reset cfg c w :
  processed cfg (fst (conn_addr c)) ->
  conn_peer c = PeerResets ->
  exists w' s',
    serve_one cfg c w = (Returned tt, w') /\
    json_file w' = json_file w /\ db_file w' = db_file w /\
    console w' =
      console w ++ [ErrorNotice (OSError "Connection reset by peer")] /\
    client_socket w w' = Some s' /\
    sock_closed s' = true /\ sock_sent s' = [].
Proof.
  intros [Hb Hw] Hp. enter_handler Hb Hw. rewrite Hp.
  rewrite print_plain by reflexivity.
  unfold sock_close. world_simpl. rewrite nth_error_new, update_nth_new.
  eexists. eexists. split; [reflexivity |]. unfold client_socket.
  world_simpl. rewrite nth_error_new. repeat split; reflexivity.
Qed.

(** A lookup that is never answered: the turn stays in the request, with
    the socket open and nothing sent. *)
Lemma serve_one_lookup_blocks cfg c w payload :
  processed cfg (fst (conn_addr c)) ->
  conn_peer c = PeerSends payload ->
  geo_service w (geo_url (fst (conn_addr c))) = ServerSilent ->
  exists w' s',
    serve_one cfg c w = (Blocked InRequest, w') /\
    json_file w' = json_file w /\ db_file w' = db_file w /\
    console w' = console w /\
    client_socket w w' = Some s' /\
    sock_closed s' = false /\ sock_sent s' = [].
Proof.
  intros [Hb Hw] Hp Hs.
  assert (Hg : fst (get_geo (fst (conn_addr c)) w) = Blocked InRequest)
    by (rewrite get_geo_run, Hs; reflexivity).
  enter_handler Hb Hw. rewrite Hp. after_read w Hg.
  eexists. eexists. split; [reflexivity |]. unfold client_socket.
  world_simpl. rewrite nth_error_new. repeat split.
Qed.

(** The JSON log cannot be written: no line, no row, an error notice. *)
Lemma serve_one_json_fails cfg c w payload g :
  processed cfg (fst (conn_addr c)) ->
  conn_peer c = PeerSends payload ->
  fst (get_geo (fst (conn_addr c)) w) = Returned g ->
  json_writable w = false ->
  exists w' e s',
    serve_one cfg c w = (Returned tt, w') /\
    json_file w' = json_file w /\ db_file w' = db_file w /\
    console w' = console w ++ [ErrorNotice e] /\
    client_socket w w' = Some s' /\
    sock_closed s' = true /\ sock_sent s' = [].
Proof.
  intros Hp Hpeer Hg Hj.
  destruct (is_suspicious_total (payload_text payload)) as (b & Hsus).
  rewrite (serve_one_processed cfg c w payload g b Hp Hpeer Hg Hsus).
  set (W1 := set_sockets w (sockets w ++ [read_socket c payload])).
  destruct (log_event_json_fails (conn_addr c) (payload_text payload) g b W1 Hj)
    as (e & W2 & Hl & Hjs & Hdb & Hc & Hso & _).
  destruct (after_log_raised (List.length (sockets w)) _ _ _ _ W1 W2 e
              (read_socket c payload) Hl Hso (nth_error_new _ _))
    as (w' & s' & Hrun & H1 & H2 & H3 & H4 & H5 & H6).
  exists w', e, s'. split; [exact Hrun |].
  split; [rewrite H1; exact Hjs |]. split; [rewrite H2; exact Hdb |].
  split; [rewrite H3, Hc; reflexivity |].
  split; [exact H4 |]. split; [exact H5 | exact H6].
Qed.

(** The row cannot be inserted: the line is there, an error notice. *)
Lemma serve_one_store_fails cfg c w payload g b :
  processed cfg (fst (conn_addr c)) ->
  conn_peer c = PeerSends payload ->
  fst (get_geo (fst (conn_addr c)) w) = Returned g ->
  is_suspicious (payload_text payload) = Some b ->
  json_writable w = true ->
  ~ store_ready w \/ storable g = false \/
  (forall r,
     row_matches r
       (entry_of (clock w) (conn_addr c) (payload_text payload) g b) ->
     insert_fault w r <> None) ->
  exists w' e s',
    serve_one cfg c w = (Returned tt, w') /\
    json_file w' =
      json_file w ++ [entry_of (clock w) (conn_addr c) (payload_text payload) g b] /\
    logs_rows w' = logs_rows w /\
    console w' = console w ++ [ErrorNotice e] /\
    client_socket w w' = Some s' /\
    sock_closed s' = true /\ sock_sent s' = [].
Proof.
  intros Hp Hpeer Hg Hsus Hj Hfail.
  rewrite (serve_one_processed cfg c w payload g b Hp Hpeer Hg Hsus).
  set (W1 := set_sockets w (sockets w ++ [read_socket c payload])).
  assert (HfW : ~ store_ready W1 \/ storable g = false \/
                forallb is_scalar (payload_text payload) = false \/
                (forall r,
                   row_matches r
                     (entry_of (clock W1) (conn_addr c)
                        (payload_text payload) g b) ->
                   insert_fault W1 r <> None)).
  { destruct Hfail as [Hn | [Hn | Hn]].
    - left. intros HW. apply Hn.
      apply (store_ready_frame w W1 eq_refl eq_refl). exact HW.
    - right. left. exact Hn.
    - right. right. right. exact Hn. }
  destruct (log_event_store_fails (conn_addr c) (payload_text payload) g b W1
              Hj HfW)
    as (e & W2 & Hl & Hjs & Hrows & Hc & Hso & _).
  destruct (after_log_raised (List.length (sockets w)) _ _ _ _ W1 W2 e
              (read_socket c payload) Hl Hso (nth_error_new _ _))
    as (w' & s' & Hrun & H1 & H2 & H3 & H4 & H5 & H6).
  exists w', e, s'. split; [exact Hrun |].
  split; [rewrite H1; exact Hjs |].
  split; [unfold logs_rows in *; rewrite H2; exact Hrows |].
  split; [rewrite H3, Hc; reflexivity |].
  split; [exact H4 |]. split; [exact H5 | exact H6].
Qed.

Lemma store_ready_dec w : store_ready w \/ ~ store_ready w.
Proof.
  unfold store_ready. destruct (db_writable w); [| right; intros [? _]; discriminate].
  destruct (db_file w) as [db |]; [| right; intros (_ & db & ? & _); discriminate].
  destruct (has_table "logs" db) eqn:E.
  - left. eauto.
  - right. intros (_ & db' & Hdb & Ht). injection Hdb as <-. congruence.
Qed.

(** The line is written whatever follows: the turn returns with the
    socket closed, and either the row is there too, and then the reply
    has been sent if and only if the event is suspicious, the peer can be
    written to and the notices could be shown, or the row is not there and
    the error has been printed. *)
Lemma serve_one_recorded cfg c w payload g :
  processed cfg (fst (conn_addr c)) ->
  conn_peer c = PeerSends payload ->
  fst (get_geo (fst (conn_addr c)) w) = Returned g ->
  json_writable w = true ->
  exists b w' s',
    is_suspicious (payload_text payload) = Some b /\
    serve_one cfg c w = (Returned tt, w') /\
    json_file w' =
      json_file w ++ [entry_of (clock w) (conn_addr c) (payload_text payload) g b] /\
    client_socket w w' = Some s' /\ sock_closed s' = true /\
    ((exists r,
        logs_rows w' = logs_rows w ++ [r] /\
        row_matches r
          (entry_of (clock w) (conn_addr c) (payload_text payload) g b) /\
        sock_sent s' =
          (if displayable w g (payload_text payload) b && b && conn_writable c
           then [encode_ascii fake] else [])) \/
     (logs_rows w' = logs_rows w /\ sock_sent s' = [] /\
      exists e, console w' = console w ++ [ErrorNotice e])).
Proof.
  intros Hp Hpeer Hg Hj.
  destruct (is_suspicious_total (payload_text payload)) as (b & Hsus).
  exists b.
  rewrite (serve_one_processed cfg c w payload g b Hp Hpeer Hg Hsus).
  set (W1 := set_sockets w (sockets w ++ [read_socket c payload])).
  destruct (log_event_written (conn_addr c) (payload_text payload) g b W1 Hj)
    as (o & W2 & Hl & Hjs & Hc & Hso & Henv &
        [(-> & r & Hrows & Hm) | (e & -> & Hrows)]).
  - assert (Hd : displayable W2 g (payload_text payload) b
                 = displayable w g (payload_text payload) b)
      by (apply displayable_frame; apply Henv).
    destruct (displayable w g (payload_text payload) b) eqn:Hshow.
    + destruct (after_log_shown (List.length (sockets w)) _ _ _ _ W1 W2
                  (read_socket c payload) Hl Hso (nth_error_new _ _) eq_refl
                  Hd)
        as (w' & s' & Hrun & H1 & H2 & H3 & H4 & H5 & H6).
      exists w', s'. split; [exact Hsus |]. split; [exact Hrun |].
      split; [rewrite H1; exact Hjs |].
      split; [exact H4 |]. split; [exact H5 |].
      left. exists r.
      split; [unfold logs_rows in *; rewrite H2; exact Hrows |].
      split; [exact Hm | exact H6].
    + destruct (after_log_hidden (List.length (sockets w)) _ _ _ _ W1 W2
                  (read_socket c payload) Hl Hso (nth_error_new _ _) Hd)
        as (w' & s' & ns & Hrun & H1 & H2 & H3 & _ & H4 & H5 & H6).
      exists w', s'. split; [exact Hsus |]. split; [exact Hrun |].
      split; [rewrite H1; exact Hjs |].
      split; [exact H4 |]. split; [exact H5 |].
      left. exists r.
      split; [unfold logs_rows in *; rewrite H2; exact Hrows |].
      split; [exact Hm | exact H6].
  - destruct (after_log_raised (List.length (sockets w)) _ _ _ _ W1 W2 e
                (read_socket c payload) Hl Hso (nth_error_new _ _))
      as (w' & s' & Hrun & H1 & H2 & H3 & H4 & H5 & H6).
    exists w', s'. split; [exact Hsus |]. split; [exact Hrun |].
    split; [rewrite H1; exact Hjs |].
    split; [exact H4 |]. split; [exact H5 |].
    right. split; [unfold logs_rows in *; rewrite H2; exact Hrows |].
    split; [exact H6 |]. exists e. rewrite H3, Hc. reflexivity.
Qed.

(** What a turn of the loop can do with a connection that is not
    filtered. *)
Lemma serve_one_cases cfg c w :
  processed cfg (fst (conn_addr c)) ->
  (conn_peer c = PeerSilent /\
   serve_one cfg c w =
   (Blocked InRecv, set_sockets w (sockets w ++ [new_socket c]))) \/
  (exists payload w',
     conn_peer c = PeerSends payload /\
     geo_service w (geo_url (fst (conn_addr c))) = ServerSilent /\
     serve_one cfg c w = (Blocked InRequest, w')) \/
  (exists w' s',
     serve_one cfg c w = (Returned tt, w') /\
     client_socket w w' = Some s' /\ sock_closed s' = true /\
     ((exists payload g b r,
         conn_peer c = PeerSends payload /\
         json_file w' =
           json_file w ++
           [entry_of (clock w) (conn_addr c) (payload_text payload) g b] /\
         logs_rows w' = logs_rows w ++ [r] /\
         row_matches r
           (entry_of (clock w) (conn_addr c) (payload_text payload) g b)) \/
      (exists e, console w' = console w ++ [ErrorNotice e]))).
Proof.
  intros Hp. destruct (conn_peer c) as [payload | |] eqn:Hpeer.
  - destruct (fst (get_geo (fst (conn_addr c)) w)) as [g | e | bc] eqn:Hg.
    + right. right.
      destruct (json_writable w) eqn:Hj.
      * destruct (serve_one_recorded cfg c w payload g Hp Hpeer Hg Hj)
          as (b & w' & s' & Hsus & H1 & H2 & H3 & H4 &
              [(r & H5 & H6 & _) | (_ & _ & e & H5)]).
        -- exists w', s'. repeat split; auto. left.
           exists payload, g, b, r. auto.
        -- exists w', s'. repeat split; auto. right. exists e. exact H5.
      * destruct (serve_one_json_fails cfg c w payload g Hp Hpeer Hg Hj)
          as (w' & e & s' & H1 & H2 & H3 & H4 & H5 & H6 & H7).
        exists w', s'. repeat split; auto. right. exists e. auto.
    + exfalso. apply (get_geo_never_raises _ _ _ Hg).
    + right. left. rewrite get_geo_run in Hg.
      destruct (geo_service w (geo_url (fst (conn_addr c))))
        as [status [[] |] | |] eqn:Hs; try discriminate.
      destruct (serve_one_lookup_blocks cfg c w payload Hp Hpeer Hs)
        as (w' & s' & H1 & _).
      exists payload, w'. auto.
  - right. right.
    destruct (serve_one_reset cfg c w Hp Hpeer)
      as (w' & s' & H1 & H2 & H3 & H4 & H5 & H6 & H7).
    exists w', s'. repeat split; auto. right. eexists. exact H4.
  - left. split; auto. apply serve_one_silent; auto.
Qed.

End Handler.

(* ================================================================== *)
(** * The behaviour of the server *)
(* ================================================================== *)

Module AccessFilter.
Import Run Handler.

(** C5.  A connection from an address on the deny list or on the allow
    list is closed at once: the turn of the loop returns whatever the peer
    does (nothing is read from it), nothing is sent to it, neither sink is
    touched, and the socket is closed.  The deny list is looked up first:
    an address on it gets the [BLOCKED] notice even when it is on the allow
    list too, any other filtered address the [IGNORED] one. *)
Theorem filtered_connection_dropped (cfg : config) (c : connection) (w : world) :
  In (fst (conn_addr c)) (BLACKLIST_IPS cfg) \/
  In (fst (conn_addr c)) (WHITELIST_IPS cfg) ->
  exists w' s',
    serve_one cfg c w = (Returned tt, w') /\
    json_file w' = json_file w /\ db_file w' = db_file w /\
    client_socket w w' = Some s' /\
    sock_closed s' = true /\ sock_sent s' = [] /\
    sock_peer s' = conn_peer c /\
    (In (fst (conn_addr c)) (BLACKLIST_IPS cfg) ->
     console w' = console w ++ [BlockedNotice (fst (conn_addr c))]) /\
    (~ In (fst (conn_addr c)) (BLACKLIST_IPS cfg) ->
     console w' = console w ++ [IgnoredNotice (fst (conn_addr c))]).
Proof.
  intros H.
  destruct (serve_one_filtered cfg c w H)
    as (w' & s' & H1 & H2 & H3 & H4 & H5 & H6 & H7 & H8).
  exists w', s'. repeat split; auto.
  - intros Hin. apply py_in_iff in Hin. rewrite Hin in H4. exact H4.
  - intros Hn. apply py_in_false in Hn. rewrite Hn in H4. exact H4.
Qed.

Lemma filtered_connection_dropped_witness :
  (In "198.51.100.7" (BLACKLIST_IPS sample_config) /\
   In "198.51.100.7" (WHITELIST_IPS sample_config)) /\
  (exists w' s',
     serve_one sample_config (sample_connection "198.51.100.7" PeerSilent)
       (sample_world sample_service) = (Returned tt, w') /\
     json_file w' = [] /\ logs_rows w' = [] /\
     client_socket (sample_world sample_service) w' = Some s' /\
     sock_closed s' = true /\ sock_sent s' = [] /\
     console w' = [BlockedNotice "198.51.100.7"]) /\
  (In "192.0.2.10" (WHITELIST_IPS sample_config) /\
   ~ In "192.0.2.10" (BLACKLIST_IPS sample_config)) /\
  (exists w' s',
     serve_one sample_config
       (sample_connection "192.0.2.10" (PeerSends select_users))
       (sample_world sample_service) = (Returned tt, w') /\
     json_file w' = [] /\ logs_rows w' = [] /\
     client_socket (sample_world sample_service) w' = Some s' /\
     sock_closed s' = true /\ sock_sent s' = [] /\
     console w' = [IgnoredNotice "192.0.2.10"]).
Proof.
  assert (Hb : In "198.51.100.7" (BLACKLIST_IPS sample_config))
    by (simpl; auto).
  assert (Hw : In "198.51.100.7" (WHITELIST_IPS sample_config))
    by (simpl; auto).
  assert (Hw' : In "192.0.2.10" (WHITELIST_IPS sample_config))
    by (simpl; auto).
  assert (Hb' : ~ In "192.0.2.10" (BLACKLIST_IPS sample_config))
    by (simpl; intros [H | [H | []]]; discriminate H).
  split; [split; assumption |]. split; [| split; [split; assumption |]].
  - destruct (filtered_connection_dropped sample_config
                (sample_connection "198.51.100.7" PeerSilent)
                (sample_world sample_service) (or_introl Hb))
      as (w' & s' & H1 & H2 & H3 & H4 & H5 & H6 & H7 & H8 & H9).
    exists w', s'. unfold logs_rows. rewrite H3. repeat split; auto.
  - destruct (filtered_connection_dropped sample_config
                (sample_connection "192.0.2.10" (PeerSends select_users))
                (sample_world sample_service) (or_intror Hw'))
      as (w' & s' & H1 & H2 & H3 & H4 & H5 & H6 & H7 & H8 & H9).
    exists w', s'. unfold logs_rows. rewrite H3. repeat split; auto.
Defined.

End AccessFilter.

Module Replies.
Import Run Handler Keywords Classifier.

(** C10.  The keywords are searched for anywhere in the text, whatever
    surrounds them: a text in which a keyword occurs is suspicious, so
    "fish" (for "sh"), "pancake" (for "nc") and a sentence with "update"
    are.  When such a text is what a connection sent, the event can be
    stored in both sinks and the terminal can show its notices, the peer
    is sent the fake response: the reply follows the writes and the
    prints in the same [try] block, and is reached when none of them
    raises. *)
Theorem keyword_anywhere_is_suspicious :
  (forall kw data,
     In kw keywords -> Occurs (of_string kw) data ->
     is_suspicious data = Some true) /\
  is_suspicious (of_string "fish") = Some true /\
  is_suspicious (of_string "pancake") = Some true /\
  is_suspicious (of_string "please update my address") = Some true /\
  (forall cfg c w payload g kw,
     processed cfg (fst (conn_addr c)) ->
     conn_peer c = PeerSends payload ->
     conn_writable c = true ->
     In kw keywords -> Occurs (of_string kw) (payload_text payload) ->
     fst (get_geo (fst (conn_addr c)) w) = Returned g ->
     json_writable w = true -> store_ready w -> storable g = true ->
     accepted w (conn_addr c) (payload_text payload) g true ->
     displayable w g (payload_text payload) true = true ->
     exists w' s',
       serve_one cfg c w = (Returned tt, w') /\
       client_socket w w' = Some s' /\
       sock_sent s' = [encode_ascii fake] /\
       In SuspiciousNotice (console w')).
Proof.
  split; [exact keyword_occurs_suspicious |].
  split; [vm_compute; reflexivity |].
  split; [vm_compute; reflexivity |].
  split; [vm_compute; reflexivity |].
  intros cfg c w payload g kw Hp Hpeer Hcw Hkw Ho Hg Hj Hs Hst Hacc Hshow.
  pose proof (keyword_occurs_suspicious kw _ Hkw Ho) as Hsus.
  destruct (serve_one_logged cfg c w payload g true Hp Hpeer Hg Hsus Hj Hs Hst
              Hacc Hshow)
    as (w' & r & s' & H1 & H2 & H3 & H4 & H5 & H6 & H7 & H8).
  exists w', s'. rewrite Hcw in H8. repeat split; auto.
  rewrite H5. apply in_or_app. right. simpl. auto.
Qed.

Lemma keyword_anywhere_is_suspicious_witness :
  In "sh" keywords /\
  Occurs (of_string "sh") (of_string "I like fish") /\
  is_suspicious (of_string "I like fish") = Some true /\
  exists w' s',
    serve_one shipped_config
      (sample_connection "203.0.113.5" (PeerSends (encode_ascii "I like fish")))
      (sample_world sample_service) = (Returned tt, w') /\
    client_socket (sample_world sample_service) w' = Some s' /\
    sock_sent s' = [encode_ascii fake] /\
    In SuspiciousNotice (console w').
Proof.
  assert (Hkw : In "sh" keywords) by (vm_compute; tauto).
  assert (Ho : Occurs (of_string "sh") (of_string "I like fish"))
    by (exists (of_string "I like fi"), []; reflexivity).
  split; [exact Hkw |]. split; [exact Ho |].
  split.
  - exact (proj1 keyword_anywhere_is_suspicious "sh" _ Hkw Ho).
  - apply (proj2 (proj2 (proj2 (proj2 keyword_anywhere_is_suspicious)))
             shipped_config
             (sample_connection "203.0.113.5"
                (PeerSends (encode_ascii "I like fish")))
             (sample_world sample_service)
             (encode_ascii "I like fish")
             {| country := PyStr (of_string "France");
                city := PyStr (of_string "Paris");
                org := PyStr (of_string "Example SAS") |}
             "sh").
    + split; simpl; tauto.
    + reflexivity.
    + reflexivity.
    + exact Hkw.
    + exists (of_string "I like fi"), []. vm_compute. reflexivity.
    + vm_compute. reflexivity.
    + reflexivity.
    + split; [reflexivity |]. eexists. split; reflexivity.
    + reflexivity.
    + intros ts r _. reflexivity.
    + vm_compute. reflexivity.
Defined.

End Replies.

Module Decoding.
Import Run Handler Classifier TextFacts.
Lemma read_data_sends fd W s payload :
  nth_error (sockets W) fd = Some s ->
  sock_closed s = false ->
  sock_peer s = PeerSends payload ->
  fst (read_data fd W) = Returned (payload_text payload).
Proof.
  intros Hs Hc Hp. unfold read_data, bind, sock_recv.
  rewrite Hs, Hc, Hp, utf8_decode_ignore_eq. reflexivity.
Qed.

(** C8, as the code has it.  Decoding what was received never fails: the
    bytes that do not belong to a well-formed UTF-8 sequence are dropped
    (nothing is put in their place), so the text is the strict decoding of
    the input with those bytes left out, and the strict decoding of the
    input itself when it is well formed.  The text is then stripped of the
    whitespace at both ends, and that stripped text is what is classified
    and logged. *)
Theorem read_data_drops_and_strips (payload : bytes) :
  (forall fd W s,
     nth_error (sockets W) fd = Some s ->
     sock_closed s = false ->
     sock_peer s = PeerSends payload ->
     fst (read_data fd W) = Returned (payload_text payload)) /\
  (Subseq (utf8_kept (firstn 2048 payload)) (firstn 2048 payload) /\
   utf8_decode Strict (utf8_kept (firstn 2048 payload))
   = Some (decode_ignore (firstn 2048 payload))) /\
  (forall t, utf8_decode Strict (firstn 2048 payload) = Some t ->
             payload_text payload = strip t) /\
  (exists l r,
     decode_ignore (firstn 2048 payload) = l ++ payload_text payload ++ r /\
     Forall (fun c => isspace c = true) l /\
     Forall (fun c => isspace c = true) r /\
     starts_clean (payload_text payload) /\
     ends_clean (payload_text payload)) /\
  (forall cfg c w g,
     processed cfg (fst (conn_addr c)) ->
     conn_peer c = PeerSends payload ->
     fst (get_geo (fst (conn_addr c)) w) = Returned g ->
     json_writable w = true -> store_ready w -> storable g = true ->
     exists w' b,
       serve_one cfg c w = (Returned tt, w') /\
       is_suspicious (payload_text payload) = Some b /\
       json_file w' =
         json_file w ++
         [entry_of (clock w) (conn_addr c) (payload_text payload) g b]).
Proof.
  split; [| split; [| split; [| split]]].
  - intros fd W s. apply read_data_sends.
  - split; [apply utf8_kept_Subseq | apply utf8_kept_strict].
  - intros t Ht. unfold payload_text.
    rewrite (utf8_strict_ignore _ _ Ht). reflexivity.
  - apply strip_spec.
  - intros cfg c w g Hp Hpeer Hg Hj Hs Hst.
    destruct (serve_one_recorded cfg c w payload g Hp Hpeer Hg Hj)
      as (b & w' & s' & Hsus & H1 & H2 & _).
    exists w', b. auto.
Qed.

Lemma read_data_drops_and_strips_witness :
  (nth_error
     (sockets (set_sockets (sample_world sample_service)
        [new_socket (sample_connection "203.0.113.5" (PeerSends garbled_hi))]))
     0 = Some (new_socket (sample_connection "203.0.113.5" (PeerSends garbled_hi)))) /\
  fst (read_data 0
         (set_sockets (sample_world sample_service)
            [new_socket (sample_connection "203.0.113.5" (PeerSends garbled_hi))]))
  = Returned (of_string "hi") /\
  utf8_decode Strict (encode_ascii " hi" ++ [Byte.x0a]) = Some (of_string " hi" ++ [10]) /\
  payload_text (encode_ascii " hi" ++ [Byte.x0a]) = of_string "hi" /\
  exists w' b,
    serve_one shipped_config
      (sample_connection "203.0.113.5" (PeerSends garbled_hi))
      (sample_world sample_service) = (Returned tt, w') /\
    is_suspicious (payload_text garbled_hi) = Some b.
Proof.
  split; [reflexivity |]. split; [| split; [| split]].
  - apply (proj1 (read_data_drops_and_strips garbled_hi) 0%nat _
             (new_socket (sample_connection "203.0.113.5" (PeerSends garbled_hi))));
      reflexivity.
  - vm_compute. reflexivity.
  - rewrite (proj1 (proj2 (proj2 (read_data_drops_and_strips
               (encode_ascii " hi" ++ [Byte.x0a]))))
               (of_string " hi" ++ [10])).
    + vm_compute. reflexivity.
    + vm_compute. reflexivity.
  - destruct (proj2 (proj2 (proj2 (proj2 (read_data_drops_and_strips garbled_hi))))
                shipped_config
                (sample_connection "203.0.113.5" (PeerSends garbled_hi))
                (sample_world sample_service)
                {| country := PyStr (of_string "France");
                   city := PyStr (of_string "Paris");
                   org := PyStr (of_string "Example SAS") |})
      as (w' & b & H1 & H2 & _).
    + split; simpl; tauto.
    + reflexivity.
    + vm_compute. reflexivity.
    + reflexivity.
    + split; [reflexivity |]. eexists. split; reflexivity.
    + reflexivity.
    + exists w', b. auto.
Defined.

(** The claim as worded (invalid bytes are replaced) fails: a lone [FF]
    ahead of "hi" leaves no trace in the text, where [errors='replace']
    would have put U+FFFD. *)
Lemma read_data_replaces_nothing :
  ~ (forall fd W s payload t,
       nth_error (sockets W) fd = Some s ->
       sock_closed s = false ->
       sock_peer s = PeerSends payload ->
       utf8_decode Replace (firstn 2048 payload) = Some t ->
       fst (read_data fd W) = Returned (strip t)).
Proof.
  intros H.
  specialize (H 0%nat
    (set_sockets (sample_world sample_service)
       [new_socket (sample_connection "203.0.113.5" (PeerSends garbled_hi))])
    (new_socket (sample_connection "203.0.113.5" (PeerSends garbled_hi)))
    garbled_hi
    [0xFFFD; 0x20; 0x68; 0x69; 0xFFFD; 0x0A]
    eq_refl eq_refl eq_refl).
  vm_compute in H. specialize (H eq_refl). discriminate H.
Qed.

End Decoding.

Module Capture.
Import Run Handler Classifier TextFacts.
(** C2, as the code has it.  For a connection that is not filtered the
    handler makes one [recv] of at most 2048 bytes on a socket without a
    timeout: from a peer that stays silent the call never returns.  When
    the connection is reset the exception is caught: no event is written
    to either sink, the error is printed and the socket is closed.
    Whenever the turn of the loop returns, either one event was written
    to both sinks (its text coming from at most 2048 bytes) or an error
    was printed; and the turn never raises. *)
Theorem unfiltered_connection_outcome (cfg : config) (c : connection) (w : world) :
  processed cfg (fst (conn_addr c)) ->
  (conn_peer c = PeerSilent ->
   serve_one cfg c w =
   (Blocked InRecv, set_sockets w (sockets w ++ [new_socket c]))) /\
  (conn_peer c = PeerResets ->
   exists w' s',
     serve_one cfg c w = (Returned tt, w') /\
     json_file w' = json_file w /\ db_file w' = db_file w /\
     console w' =
       console w ++ [ErrorNotice (OSError "Connection reset by peer")] /\
     client_socket w w' = Some s' /\ sock_closed s' = true) /\
  (forall w',
     serve_one cfg c w = (Returned tt, w') ->
     (exists payload raw g b r,
        conn_peer c = PeerSends payload /\
        raw = firstn 2048 payload /\ (List.length raw <= 2048)%nat /\
        json_file w' =
          json_file w ++
          [entry_of (clock w) (conn_addr c) (strip (decode_ignore raw)) g b] /\
        logs_rows w' = logs_rows w ++ [r] /\
        row_matches r
          (entry_of (clock w) (conn_addr c) (strip (decode_ignore raw)) g b)) \/
     (exists e, console w' = console w ++ [ErrorNotice e])) /\
  (forall e w', serve_one cfg c w <> (Raised e, w')).
Proof.
  intros Hp. split; [| split; [| split]].
  - intros Hs. apply serve_one_silent; assumption.
  - intros Hr.
    destruct (serve_one_reset cfg c w Hp Hr)
      as (w' & s' & H1 & H2 & H3 & H4 & H5 & H6 & H7).
    exists w', s'. auto 10.
  - intros w' Hret.
    destruct (serve_one_cases cfg c w Hp)
      as [[_ H] | [(payload & w1 & _ & _ & H) | (w1 & s1 & H & _ & _ & Hcase)]];
      rewrite H in Hret; try discriminate.
    injection Hret as <-.
    destruct Hcase as [(payload & g & b & r & H1 & H2 & H3 & H4) | He].
    + left. exists payload, (firstn 2048 payload), g, b, r.
      repeat split; auto; try apply H4. apply firstn_le_length.
    + right. exact He.
  - intros e w' Hraise.
    destruct (serve_one_cases cfg c w Hp)
      as [[_ H] | [(payload & w1 & _ & _ & H) | (w1 & s1 & H & _)]];
      rewrite H in Hraise; discriminate.
Qed.

Lemma unfiltered_connection_outcome_witness :
  processed shipped_config "203.0.113.5" /\
  serve_one shipped_config (sample_connection "203.0.113.5" PeerSilent)
    (sample_world sample_service)
  = (Blocked InRecv,
     set_sockets (sample_world sample_service)
       [new_socket (sample_connection "203.0.113.5" PeerSilent)]) /\
  (exists w' s',
     serve_one shipped_config (sample_connection "203.0.113.5" PeerResets)
       (sample_world sample_service) = (Returned tt, w') /\
     json_file w' = [] /\
     console w' = [ErrorNotice (OSError "Connection reset by peer")] /\
     client_socket (sample_world sample_service) w' = Some s' /\
     sock_closed s' = true) /\
  (exists w',
     serve_one shipped_config
       (sample_connection "203.0.113.5" (PeerSends select_users))
       (sample_world sample_service) = (Returned tt, w') /\
     List.length (json_file w') = 1%nat /\
     List.length (logs_rows w') = 1%nat).
Proof.
  assert (Hp : processed shipped_config "203.0.113.5")
    by (split; simpl; tauto).
  split; [exact Hp |]. split; [| split].
  - apply (proj1 (unfiltered_connection_outcome shipped_config
                    (sample_connection "203.0.113.5" PeerSilent)
                    (sample_world sample_service) Hp)).
    reflexivity.
  - destruct (proj1 (proj2 (unfiltered_connection_outcome shipped_config
                    (sample_connection "203.0.113.5" PeerResets)
                    (sample_world sample_service) Hp)) eq_refl)
      as (w' & s' & H1 & H2 & H3 & H4 & H5 & H6).
    exists w', s'. auto 10.
  - assert (E : exists w',
               serve_one shipped_config
                 (sample_connection "203.0.113.5" (PeerSends select_users))
                 (sample_world sample_service) = (Returned tt, w'))
      by (eexists; vm_compute; reflexivity).
    destruct E as (w' & E). exists w'. split; [exact E |].
    destruct (proj1 (proj2 (proj2
                (unfiltered_connection_outcome shipped_config
                   (sample_connection "203.0.113.5" (PeerSends select_users))
                   (sample_world sample_service) Hp))) w' E)
      as [(payload & raw & g & b & r & _ & _ & _ & Hj & Hr & _) | (e & He)].
    + rewrite Hj, Hr. split; reflexivity.
    + exfalso. vm_compute in E. injection E as <-.
      vm_compute in He. discriminate He.
Defined.

(** The claim as worded fails: after a reset no event is produced from
    what was read so far; both sinks stay as they were. *)
Lemma reset_produces_no_event :
  ~ (forall cfg c w,
       processed cfg (fst (conn_addr c)) ->
       conn_peer c = PeerResets ->
       exists w' e,
         serve_one cfg c w = (Returned tt, w') /\
         json_file w' = json_file w ++ [e] /\ entry_data e = []).
Proof.
  intros H.
  destruct (H shipped_config (sample_connection "203.0.113.5" PeerResets)
              (sample_world sample_service))
    as (w' & e & H1 & H2 & _).
  - split; simpl; tauto.
  - reflexivity.
  - vm_compute in H1. injection H1 as <-. simpl in H2. discriminate H2.
Qed.

End Capture.

Module EventStore.
Import Run Sinks Handler Classifier TextFacts.
(** C3, as the code has it.  For a processed connection whose payload was
    read and whose lookup returned, [log_event] writes the JSON line first
    and the row second, with nothing to catch a failure in between.  When
    both writes go through (the JSON log can be written, the table is
    there, the three values of the lookup can be bound and SQLite takes
    the row) there is exactly one new line and one new row, and they
    agree on ip, port and suspicious; the three location columns hold what
    a TEXT column makes of the values of the line.  When the JSON log
    cannot be written the INSERT is not attempted: neither sink changes
    and the handler prints the error.  When the line is written and the
    INSERT fails (no table, a value that cannot be bound, a row that
    SQLite refuses) the line stays, no row is added, and the handler
    prints the error. *)
Theorem log_event_sinks (cfg : config) (c : connection) (w : world)
    (payload : bytes) (g : geo) :
  processed cfg (fst (conn_addr c)) ->
  conn_peer c = PeerSends payload ->
  fst (get_geo (fst (conn_addr c)) w) = Returned g ->
  exists b,
    is_suspicious (payload_text payload) = Some b /\
    (json_writable w = true -> store_ready w -> storable g = true ->
     accepted w (conn_addr c) (payload_text payload) g b ->
     exists w' r,
       serve_one cfg c w = (Returned tt, w') /\
       json_file w' =
         json_file w ++
         [entry_of (clock w) (conn_addr c) (payload_text payload) g b] /\
       logs_rows w' = logs_rows w ++ [r] /\
       row_ip r = fst (conn_addr c) /\
       row_port r = snd (conn_addr c) /\
       row_suspicious r = int_of_bool b /\
       row_matches r
         (entry_of (clock w) (conn_addr c) (payload_text payload) g b)) /\
    (json_writable w = false ->
     exists w' e,
       serve_one cfg c w = (Returned tt, w') /\
       json_file w' = json_file w /\ db_file w' = db_file w /\
       console w' = console w ++ [ErrorNotice e]) /\
    (json_writable w = true ->
     ~ store_ready w \/ storable g = false \/
     (forall r,
        row_matches r
          (entry_of (clock w) (conn_addr c) (payload_text payload) g b) ->
        insert_fault w r <> None) ->
     exists w' e,
       serve_one cfg c w = (Returned tt, w') /\
       json_file w' =
         json_file w ++
         [entry_of (clock w) (conn_addr c) (payload_text payload) g b] /\
       logs_rows w' = logs_rows w /\
       console w' = console w ++ [ErrorNotice e]).
Proof.
  intros Hp Hpeer Hg.
  destruct (is_suspicious_total (payload_text payload)) as (b & Hsus).
  exists b. split; [exact Hsus |]. split; [| split].
  - intros Hj Hs Hst Hacc.
    destruct (displayable w g (payload_text payload) b) eqn:Hshow.
    + destruct (serve_one_logged cfg c w payload g b Hp Hpeer Hg Hsus Hj Hs
                  Hst Hacc Hshow)
        as (w' & r & s' & H1 & H2 & H3 & H4 & _).
      exists w', r. repeat split; auto; apply H4.
    + destruct (serve_one_hidden cfg c w payload g b Hp Hpeer Hg Hsus Hj Hs
                  Hst Hacc Hshow)
        as (w' & r & s' & ns & H1 & H2 & H3 & H4 & _).
      exists w', r. repeat split; auto; apply H4.
  - intros Hj.
    destruct (serve_one_json_fails cfg c w payload g Hp Hpeer Hg Hj)
      as (w' & e & s' & H1 & H2 & H3 & H4 & _).
    exists w', e. auto.
  - intros Hj Hfail.
    destruct (serve_one_store_fails cfg c w payload g b Hp Hpeer Hg Hsus Hj Hfail)
      as (w' & e & s' & H1 & H2 & H3 & H4 & _).
    exists w', e. auto.
Qed.

Lemma log_event_sinks_witness :
  processed shipped_config "203.0.113.5" /\
  (exists w' r,
     serve_one shipped_config
       (sample_connection "203.0.113.5" (PeerSends select_users))
       (sample_world sample_service) = (Returned tt, w') /\
     json_file w' =
       [entry_of 0 ("203.0.113.5", 51234) (of_string "SELECT * FROM users")
          france true] /\
     logs_rows w' = [r] /\
     row_ip r = "203.0.113.5" /\ row_port r = 51234 /\
     row_suspicious r = 1%Z) /\
  (exists w' e,
     serve_one shipped_config
       (sample_connection "203.0.113.5" (PeerSends select_users))
       (broken_json_world sample_service) = (Returned tt, w') /\
     json_file w' = [] /\ logs_rows w' = [] /\
     console w' = [ErrorNotice e]) /\
  (exists w' e,
     serve_one shipped_config
       (sample_connection "203.0.113.5" (PeerSends select_users))
       (missing_table_world sample_service) = (Returned tt, w') /\
     json_file w' =
       [entry_of 0 ("203.0.113.5", 51234) (of_string "SELECT * FROM users")
          france true] /\
     logs_rows w' = [] /\
     console w' = [ErrorNotice e]) /\
  (exists w',
     serve_one shipped_config
       (sample_connection "203.0.113.5" (PeerSends select_users))
       (sample_world wide_country_service) = (Returned tt, w') /\
     json_file w' =
       [entry_of 0 ("203.0.113.5", 51234) (of_string "SELECT * FROM users")
          wide_country true] /\
     logs_rows w' = [] /\
     exists e, console w' = [ErrorNotice e]).
Proof.
  assert (Hp : processed shipped_config "203.0.113.5")
    by (split; simpl; tauto).
  split; [exact Hp |]. split; [| split; [| split]].
  - destruct (log_event_sinks shipped_config
                (sample_connection "203.0.113.5" (PeerSends select_users))
                (sample_world sample_service) select_users france Hp eq_refl)
      as (b & Hb & Hok & _).
    + vm_compute. reflexivity.
    + assert (b = true) by (vm_compute in Hb; congruence). subst b.
      destruct Hok as (w' & r & H1 & H2 & H3 & H4 & H5 & H6 & _).
      * reflexivity.
      * split; [reflexivity |]. eexists. split; reflexivity.
      * reflexivity.
      * intros ts r0 _. reflexivity.
      * exists w', r. repeat split; auto.
  - destruct (log_event_sinks shipped_config
                (sample_connection "203.0.113.5" (PeerSends select_users))
                (broken_json_world sample_service) select_users france
                Hp eq_refl)
      as (b & Hb & _ & Hjson & _).
    + vm_compute. reflexivity.
    + destruct (Hjson eq_refl) as (w' & e & H1 & H2 & H3 & H4).
      exists w', e. unfold logs_rows. rewrite H3. repeat split; auto.
  - destruct (log_event_sinks shipped_config
                (sample_connection "203.0.113.5" (PeerSends select_users))
                (missing_table_world sample_service) select_users france
                Hp eq_refl)
      as (b & Hb & _ & _ & Hstore).
    + vm_compute. reflexivity.
    + assert (b = true) by (vm_compute in Hb; congruence). subst b.
      destruct (Hstore eq_refl) as (w' & e & H1 & H2 & H3 & H4).
      * left. intros (_ & db & Hdb & Ht). injection Hdb as <-.
        discriminate Ht.
      * exists w', e. repeat split; auto.
  - destruct (log_event_sinks shipped_config
                (sample_connection "203.0.113.5" (PeerSends select_users))
                (sample_world wide_country_service) select_users wide_country
                Hp eq_refl)
      as (b & Hb & _ & _ & Hstore).
    + vm_compute. reflexivity.
    + assert (b = true) by (vm_compute in Hb; congruence). subst b.
      destruct (Hstore eq_refl) as (w' & e & H1 & H2 & H3 & H4).
      * right. left. vm_compute. reflexivity.
      * exists w'. repeat split; auto. exists e. exact H4.
Defined.

(** The claim as worded fails: when the JSON log cannot be written the row
    is not inserted either, although the store is in working order. *)
Lemma json_failure_skips_store :
  ~ (forall cfg c w payload g,
       processed cfg (fst (conn_addr c)) ->
       conn_peer c = PeerSends payload ->
       fst (get_geo (fst (conn_addr c)) w) = Returned g ->
       store_ready w -> storable g = true ->
       exists w' r,
         serve_one cfg c w = (Returned tt, w') /\
         logs_rows w' = logs_rows w ++ [r]).
Proof.
  intros H.
  destruct (H shipped_config
              (sample_connection "203.0.113.5" (PeerSends select_users))
              (broken_json_world sample_service) select_users france)
    as (w' & r & H1 & H2).
  - split; simpl; tauto.
  - reflexivity.
  - vm_compute. reflexivity.
  - split; [reflexivity |]. eexists. split; reflexivity.
  - reflexivity.
  - vm_compute in H1. injection H1 as <-. vm_compute in H2. discriminate H2.
Qed.

End EventStore.

Module Enricher.
Import Run.

(** C4, as the code has it.  [get_geo] never raises and changes nothing.
    When the request raises, when the body is not JSON, or when the JSON
    is not an object, it returns the triple of ["N/A"].  When the body is
    a JSON object, whatever the status of the response, each field is the
    value the object has for the key, as it is, and ["N/A"] when the key
    is missing. *)
Theorem get_geo_degrades (ip : string) (w : world) :
  snd (get_geo ip w) = w /\
  (forall e, fst (get_geo ip w) <> Raised e) /\
  (geo_service w (geo_url ip) = ServerUnreachable ->
   fst (get_geo ip w) = Returned sentinel_geo) /\
  (forall status,
     geo_service w (geo_url ip) = ServerReplies status None ->
     fst (get_geo ip w) = Returned sentinel_geo) /\
  (forall status v,
     geo_service w (geo_url ip) = ServerReplies status (Some v) ->
     (forall d, v <> PyDict d) ->
     fst (get_geo ip w) = Returned sentinel_geo) /\
  (forall status d,
     geo_service w (geo_url ip) = ServerReplies status (Some (PyDict d)) ->
     fst (get_geo ip w) =
     Returned {| country := dict_get d (of_string "country") N_A;
                 city := dict_get d (of_string "city") N_A;
                 org := dict_get d (of_string "org") N_A |}) /\
  (forall d key,
     (forall v, ~ In (of_string key, v) d) ->
     dict_get d (of_string key) N_A = N_A) /\
  (forall d key v,
     dict_get ((of_string key, v) :: d) (of_string key) N_A = v).
Proof.
  split; [apply get_geo_world |].
  split; [apply get_geo_never_raises |].
  rewrite get_geo_run.
  split; [intros ->; reflexivity |].
  split; [intros status ->; reflexivity |].
  split.
  { intros status v -> Hv. destruct v; try reflexivity.
    exfalso. apply (Hv items). reflexivity. }
  split; [intros status d ->; reflexivity |].
  split.
  - intros d key. apply dict_get_absent.
  - intros d key v. apply dict_get_first.
Qed.

Lemma get_geo_degrades_witness :
  geo_service (sample_world (fun _ => ServerUnreachable))
    (geo_url "203.0.113.5") = ServerUnreachable /\
  fst (get_geo "203.0.113.5" (sample_world (fun _ => ServerUnreachable)))
  = Returned sentinel_geo /\
  fst (get_geo "203.0.113.5"
         (sample_world (fun _ => ServerReplies 200 None)))
  = Returned sentinel_geo /\
  fst (get_geo "203.0.113.5"
         (sample_world (fun _ => ServerReplies 200 (Some (PyList [])))))
  = Returned sentinel_geo /\
  fst (get_geo "203.0.113.5" (sample_world sample_service))
  = Returned france /\
  dict_get [(of_string "status", PyStr (of_string "fail"))]
    (of_string "country") N_A = N_A.
Proof.
  split; [reflexivity |]. split; [| split; [| split; [| split]]].
  - apply (get_geo_degrades "203.0.113.5"
             (sample_world (fun _ => ServerUnreachable))).
    reflexivity.
  - apply (proj1 (proj2 (proj2 (proj2
             (get_geo_degrades "203.0.113.5"
                (sample_world (fun _ => ServerReplies 200 None)))))) 200).
    reflexivity.
  - apply (proj1 (proj2 (proj2 (proj2 (proj2
             (get_geo_degrades "203.0.113.5"
                (sample_world
                   (fun _ => ServerReplies 200 (Some (PyList []))))))))) 200
             (PyList [])).
    + reflexivity.
    + intros d. discriminate.
  - rewrite (proj1 (proj2 (proj2 (proj2 (proj2 (proj2
               (get_geo_degrades "203.0.113.5"
                  (sample_world sample_service))))))) 200
               [ (of_string "status", PyStr (of_string "success"));
                 (of_string "country", PyStr (of_string "France"));
                 (of_string "city", PyStr (of_string "Paris"));
                 (of_string "org", PyStr (of_string "Example SAS")) ]
               eq_refl).
    vm_compute. reflexivity.
  - apply (proj1 (proj2 (proj2 (proj2 (proj2 (proj2 (proj2
             (get_geo_degrades "203.0.113.5"
                (sample_world sample_service))))))))
             [(of_string "status", PyStr (of_string "fail"))] "country").
    intros v [H | []]. vm_compute in H. discriminate H.
Defined.

(** The claim as worded fails twice: a field the service sends empty is
    passed on empty, and a response with an error status whose body is a
    JSON object is used like any other. *)
Lemma get_geo_passes_what_it_gets :
  ~ (forall ip w g,
       fst (get_geo ip w) = Returned g ->
       populated (country g) /\ populated (city g) /\ populated (org g)) /\
  ~ (forall ip w status body,
       geo_service w (geo_url ip) = ServerReplies status body ->
       (status < 200 \/ 300 <= status) ->
       fst (get_geo ip w) = Returned sentinel_geo).
Proof.
  split.
  - intros H.
    destruct (H "203.0.113.5" (sample_world blank_country_service)
                {| country := PyStr []; city := PyStr (of_string "Paris");
                   org := PyStr (of_string "Example SAS") |})
      as ((s & Hs & Hne) & _).
    + vm_compute. reflexivity.
    + simpl in Hs. injection Hs as <-. apply Hne. reflexivity.
  - intros H.
    specialize (H "203.0.113.5" (sample_world error_page_service) 503
                  (Some (sample_body "France" "Paris" "Example SAS"))
                  eq_refl).
    assert (Hs : 503 < 200 \/ 300 <= 503) by (right; lia).
    specialize (H Hs). vm_compute in H. discriminate H.
Qed.

End Enricher.

Module Listener.
Import Run Handler.
Lemma accept_loop_returned cfg c rest w w1 :
  serve_one cfg c w = (Returned tt, w1) ->
  accept_loop cfg (c :: rest) w = accept_loop cfg rest w1.
Proof.
  intros H. cbn [accept_loop]. unfold bind at 1. rewrite H. reflexivity.
Qed.

Lemma accept_loop_blocked cfg c rest w b w1 :
  serve_one cfg c w = (Blocked b, w1) ->
  accept_loop cfg (c :: rest) w = (Blocked b, w1).
Proof.
  intros H. cbn [accept_loop]. unfold bind at 1. rewrite H. reflexivity.
Qed.

(** C6, as the code has it.  The loop is sequential: the whole handling of
    a connection (read, lookup, writes, reply) is done by the loop itself,
    and the next [accept] comes only after the turn has returned.  A turn
    that blocks blocks the loop, whatever connections are waiting: a
    processed client that connects and stays silent leaves the loop in its
    [recv], and a lookup that is never answered leaves it in the request;
    no later connection is accepted. *)
Theorem accept_loop_sequential (cfg : config) (c : connection)
    (rest : list connection) (w : world) :
  (forall w1,
     serve_one cfg c w = (Returned tt, w1) ->
     accept_loop cfg (c :: rest) w = accept_loop cfg rest w1) /\
  (forall b w1,
     serve_one cfg c w = (Blocked b, w1) ->
     accept_loop cfg (c :: rest) w = (Blocked b, w1)) /\
  (processed cfg (fst (conn_addr c)) ->
   conn_peer c = PeerSilent ->
   accept_loop cfg (c :: rest) w =
   (Blocked InRecv, set_sockets w (sockets w ++ [new_socket c]))) /\
  (forall payload,
     processed cfg (fst (conn_addr c)) ->
     conn_peer c = PeerSends payload ->
     geo_service w (geo_url (fst (conn_addr c))) = ServerSilent ->
     exists w1,
       accept_loop cfg (c :: rest) w = (Blocked InRequest, w1) /\
       json_file w1 = json_file w /\ db_file w1 = db_file w).
Proof.
  split; [| split; [| split]].
  - intros w1. apply accept_loop_returned.
  - intros b w1. apply accept_loop_blocked.
  - intros Hp Hs. apply accept_loop_blocked. apply serve_one_silent; assumption.
  - intros payload Hp Hpeer Hs.
    destruct (serve_one_lookup_blocks cfg c w payload Hp Hpeer Hs)
      as (w1 & s1 & H1 & H2 & H3 & _).
    exists w1. split; [| auto]. apply accept_loop_blocked. exact H1.
Qed.

Lemma accept_loop_sequential_witness :
  processed shipped_config "203.0.113.5" /\
  accept_loop shipped_config stalled_then_hello (sample_world sample_service)
  = (Blocked InRecv,
     set_sockets (sample_world sample_service)
       [new_socket (sample_connection "203.0.113.5" PeerSilent)]).
Proof.
  assert (Hp : processed shipped_config "203.0.113.5")
    by (split; simpl; tauto).
  split; [exact Hp |].
  apply (proj1 (proj2 (proj2
           (accept_loop_sequential shipped_config
              (sample_connection "203.0.113.5" PeerSilent)
              [sample_connection "203.0.113.9" (PeerSends (encode_ascii "hello"))]
              (sample_world sample_service))))).
  - exact Hp.
  - reflexivity.
Defined.

(** The claim as worded fails: started on a machine in working order, the
    server that gets a client that stays silent and then a client that
    sends "hello" never serves the second; its event is not logged. *)
Lemma stalled_client_starves_the_next :
  ~ (forall cfg c1 c2 payload,
       processed cfg (fst (conn_addr c2)) ->
       conn_peer c2 = PeerSends payload ->
       exists e,
         In e (json_file
                 (snd (start_honeypot cfg [c1; c2]
                         (fresh_world sample_service)))) /\
         entry_ip e = fst (conn_addr c2)).
Proof.
  intros H.
  destruct (H shipped_config
              (sample_connection "203.0.113.5" PeerSilent)
              (sample_connection "203.0.113.9" (PeerSends (encode_ascii "hello")))
              (encode_ascii "hello"))
    as (e & Hin & _).
  - split; simpl; tauto.
  - reflexivity.
  - vm_compute in Hin. exact Hin.
Qed.

(** The same two clients in the other order: the first is served, the
    second holds the loop. *)
Lemma hello_then_stalled :
  exists w',
    start_honeypot shipped_config (rev stalled_then_hello)
      (fresh_world sample_service) = (Blocked InRecv, w') /\
    List.length (json_file w') = 1%nat /\
    List.length (logs_rows w') = 1%nat /\
    List.length (sockets w') = 2%nat.
Proof. eexists. split; [vm_compute; reflexivity |]. repeat split. Qed.

End Listener.

Module Deadlines.
Import Run Handler.
(** C7, as the code has it.  Neither blocking call has a deadline.  The
    socket that [accept] returns has no timeout and the handler sets none, so
    the [recv] waits for a silent peer without end; [requests.get] is
    called without a timeout, so [get_geo], and the handler with it, waits
    without end for a lookup that is never answered.  With a timeout each
    of the two calls would raise instead. *)
Theorem blocking_calls_have_no_deadline (cfg : config) (c : connection)
    (w : world) :
  processed cfg (fst (conn_addr c)) ->
  sock_timeout (new_socket c) = None /\
  (conn_peer c = PeerSilent ->
   serve_one cfg c w =
   (Blocked InRecv, set_sockets w (sockets w ++ [new_socket c]))) /\
  (geo_service w (geo_url (fst (conn_addr c))) = ServerSilent ->
   get_geo (fst (conn_addr c)) w = (Blocked InRequest, w) /\
   forall payload,
     conn_peer c = PeerSends payload ->
     exists w', serve_one cfg c w = (Blocked InRequest, w')) /\
  (geo_service w (geo_url (fst (conn_addr c))) = ServerSilent ->
   forall t,
     requests_get (geo_url (fst (conn_addr c))) (Some t) w
     = (Raised RequestException, w)) /\
  (forall fd W s t n,
     nth_error (sockets W) fd = Some s ->
     sock_closed s = false -> sock_peer s = PeerSilent ->
     sock_timeout s = Some t ->
     sock_recv fd n W = (Raised (OSError "timed out"), W)).
Proof.
  intros Hp. split; [reflexivity |]. split; [| split; [| split]].
  - intros Hs. apply serve_one_silent; assumption.
  - intros Hs. split.
    + rewrite get_geo_run, Hs. reflexivity.
    + intros payload Hpeer.
      destruct (serve_one_lookup_blocks cfg c w payload Hp Hpeer Hs)
        as (w' & s' & H1 & _).
      exists w'. exact H1.
  - intros Hs t. unfold requests_get. rewrite Hs. reflexivity.
  - intros fd W s t n Hs Hc Hpeer Ht. unfold sock_recv.
    rewrite Hs, Hc, Hpeer, Ht. reflexivity.
Qed.

Lemma blocking_calls_have_no_deadline_witness :
  processed shipped_config "203.0.113.5" /\
  serve_one shipped_config (sample_connection "203.0.113.5" PeerSilent)
    (sample_world sample_service)
  = (Blocked InRecv,
     set_sockets (sample_world sample_service)
       [new_socket (sample_connection "203.0.113.5" PeerSilent)]) /\
  get_geo "203.0.113.5" (sample_world (fun _ => ServerSilent))
  = (Blocked InRequest, sample_world (fun _ => ServerSilent)) /\
  exists w',
    serve_one shipped_config
      (sample_connection "203.0.113.5" (PeerSends (encode_ascii "hello")))
      (sample_world (fun _ => ServerSilent)) = (Blocked InRequest, w').
Proof.
  assert (Hp : processed shipped_config "203.0.113.5")
    by (split; simpl; tauto).
  split; [exact Hp |]. split.
  - apply (proj1 (proj2
             (blocking_calls_have_no_deadline shipped_config
                (sample_connection "203.0.113.5" PeerSilent)
                (sample_world sample_service) Hp))).
    reflexivity.
  - destruct (proj1 (proj2 (proj2
                (blocking_calls_have_no_deadline shipped_config
                   (sample_connection "203.0.113.5"
                      (PeerSends (encode_ascii "hello")))
                   (sample_world (fun _ => ServerSilent)) Hp))) eq_refl)
      as (H1 & H2).
    split; [exact H1 |]. apply (H2 (encode_ascii "hello")). reflexivity.
Defined.

(** The claim as worded fails: with a peer that never sends, the turn of
    the loop does not come to an end. *)
Lemma silent_peer_blocks_forever :
  ~ (forall cfg c w,
       processed cfg (fst (conn_addr c)) ->
       exists w', serve_one cfg c w = (Returned tt, w') \/
                  exists e, serve_one cfg c w = (Raised e, w')).
Proof.
  intros H.
  destruct (H shipped_config (sample_connection "203.0.113.5" PeerSilent)
              (sample_world sample_service))
    as (w' & [H1 | (e & H1)]).
  - split; simpl; tauto.
  - vm_compute in H1. discriminate H1.
  - vm_compute in H1. discriminate H1.
Qed.

End Deadlines.

(* ================================================================== *)
(** * Runs of the whole server *)
(* ================================================================== *)

Module Runs.

(** The examples of the classifier. *)
Example classifier_examples :
  is_suspicious (of_string "'; DROP TABLE users; --") = Some true /\
  is_suspicious (of_string "hello world") = Some false /\
  is_suspicious (of_string "../../etc/passwd") = Some true /\
  is_suspicious (of_string "curl http://x") = Some true /\
  is_suspicious (of_string "GET /index.html") = Some false /\
  is_suspicious (of_string "%2E%2e/boot.ini") = Some true.
Proof. vm_compute. repeat split. Qed.

(** U+017F, the long s, folds to [s]: "ſh" is a shell to the classifier. *)
Example long_s_is_an_s : is_suspicious [0x17F; 0x68] = Some true.
Proof. vm_compute. reflexivity. Qed.

(** A client sends "SELECT * FROM users": one event with
    [suspicious = True] in both sinks, and the fake response. *)
Example select_is_logged_and_answered :
  exists w' e r s,
    start_honeypot shipped_config
      [sample_connection "203.0.113.5" (PeerSends select_users)]
      (fresh_world sample_service) = (Blocked InAccept, w') /\
    json_file w' = [e] /\ logs_rows w' = [r] /\
    entry_suspicious e = true /\ row_suspicious r = 1%Z /\
    entry_data e = of_string "SELECT * FROM users" /\
    entry_geo e = france /\
    sockets w' = [s] /\ sock_sent s = [encode_ascii fake] /\
    sock_closed s = true.
Proof.
  do 4 eexists. split; [vm_compute; reflexivity |]. repeat split.
Qed.

(** A client sends "GET /index.html": one event with
    [suspicious = False], and no reply. *)
Example get_is_logged_and_not_answered :
  exists w' e r s,
    start_honeypot shipped_config
      [sample_connection "203.0.113.5"
         (PeerSends (encode_ascii "GET /index.html"))]
      (fresh_world sample_service) = (Blocked InAccept, w') /\
    json_file w' = [e] /\ logs_rows w' = [r] /\
    entry_suspicious e = false /\ row_suspicious r = 0%Z /\
    sockets w' = [s] /\ sock_sent s = [] /\ sock_closed s = true.
Proof.
  do 4 eexists. split; [vm_compute; reflexivity |]. repeat split.
Qed.

(** The port is taken: [bind] raises and the server stops before its
    loop. *)
Example bind_failure_is_fatal :
  fst (start_honeypot shipped_config
         [sample_connection "203.0.113.5" (PeerSends select_users)]
         {| json_file := []; db_file := None; console := []; sockets := [];
            clock := 0; geo_service := sample_service;
            json_writable := true; db_writable := true;
            port_free := false; stdout_encodes := fun _ => true;
            insert_fault := fun _ => None; accept_fault := None |})
  = Raised (OSError "Address already in use").
Proof. vm_compute. reflexivity. Qed.

(** The lookup gives an integer of 65 bits for the country: the line is
    written, the INSERT raises [OverflowError], no row, no reply. *)
Example wide_country_is_not_stored :
  exists w' e s,
    start_honeypot shipped_config
      [sample_connection "203.0.113.5" (PeerSends select_users)]
      (fresh_world wide_country_service) = (Blocked InAccept, w') /\
    json_file w' = [e] /\ logs_rows w' = [] /\
    entry_geo e = wide_country /\
    last (console w') SuspiciousNotice =
      ErrorNotice
        (OverflowError "Python int too large to convert to SQLite INTEGER") /\
    sockets w' = [s] /\ sock_sent s = [] /\ sock_closed s = true.
Proof.
  do 3 eexists. split; [vm_compute; reflexivity |]. repeat split.
Qed.

(** A terminal that shows ASCII only: the event is in both sinks, the
    second notice of the connection raises, and no reply is sent. *)
Example ascii_terminal_gets_no_reply :
  exists w' e r s,
    start_honeypot shipped_config
      [sample_connection "203.0.113.5" (PeerSends select_users)]
      (ascii_terminal_world sample_service)
    = (Blocked InAccept, w') /\
    json_file w' = [e] /\ logs_rows w' = [r] /\
    entry_suspicious e = true /\
    console w' =
      [Started "0.0.0.0" 9999; NewNotice ("203.0.113.5", 51234);
       ErrorNotice UnicodeEncodeError] /\
    sockets w' = [s] /\ sock_sent s = [] /\ sock_closed s = true.
Proof.
  do 4 eexists. split; [vm_compute; reflexivity |]. repeat split.
Qed.

(** [accept] fails once the queue is empty: the error leaves the loop
    and the server stops, after the connection was served. *)
Example accept_failure_is_fatal :
  exists w' e,
    start_honeypot shipped_config
      [sample_connection "203.0.113.5" (PeerSends select_users)]
      (accept_failing_world sample_service)
    = (Raised (OSError "[Errno 24] Too many open files"), w') /\
    json_file w' = [e] /\ entry_suspicious e = true.
Proof.
  do 2 eexists. split; [vm_compute; reflexivity |]. repeat split.
Qed.

End Runs.

(* ================================================================== *)
(** * More about the classifier *)
(* ================================================================== *)

Module Verdicts.
Import Re Classifier Keywords TextFacts.

Lemma verdict_true_iff data :
  is_suspicious data = Some true <-> KeywordOccurs data.
Proof. apply is_suspicious_iff_keyword. Qed.

Lemma verdict_ext a b :
  (KeywordOccurs a <-> KeywordOccurs b) -> is_suspicious a = is_suspicious b.
Proof.
  intros H.
  destruct (is_suspicious_total a) as ([|] & Ha);
    destruct (is_suspicious_total b) as ([|] & Hb); rewrite Ha, Hb; auto.
  - apply verdict_true_iff in Ha. apply H in Ha.
    apply verdict_true_iff in Ha. congruence.
  - apply verdict_true_iff in Hb. apply H in Hb.
    apply verdict_true_iff in Hb. congruence.
Qed.

Lemma Occurs_app w data pre post : Occurs w data -> Occurs w (pre ++ data ++ post).
Proof.
  intros (p & q & ->). exists (pre ++ p), (q ++ post).
  rewrite <- !app_assoc. reflexivity.
Qed.

Lemma Occurs_rev w data : Occurs w data -> Occurs (rev w) (rev data).
Proof.
  intros (p & q & ->). exists (rev q), (rev p).
  rewrite !rev_app_distr, <- app_assoc. reflexivity.
Qed.

(** ** Case *)

Lemma lit_matches_upper c x :
  lit_matches true c (ascii_upper x) = lit_matches true c x.
Proof.
  unfold ascii_upper. destruct (is_ascii_lower x) eqn:Ex; [| reflexivity].
  unfold is_ascii_lower in Ex.
  apply andb_true_iff in Ex as [Ex1 Ex2].
  apply N.leb_le in Ex1. apply N.leb_le in Ex2.
  unfold lit_matches. cbn [andb].
  destruct (is_ascii_upper c || is_ascii_lower c) eqn:Ec.
  - assert (Hlo : 0x61 <= ascii_tolower c <= 0x7A).
    { unfold ascii_tolower, is_ascii_upper, is_ascii_lower in *.
      destruct ((0x41 <=? c) && (c <=? 0x5A)) eqn:Eu.
      - apply andb_true_iff in Eu as [H1 H2].
        apply N.leb_le in H1. apply N.leb_le in H2. lia.
      - simpl in Ec. apply andb_true_iff in Ec as [H1 H2].
        apply N.leb_le in H1. apply N.leb_le in H2. lia. }
    generalize dependent (ascii_tolower c). intros lo Hlo.
    unfold ignorecase_extra.
    apply Bool.eq_iff_eq_true.
    repeat (setoid_rewrite orb_true_iff || setoid_rewrite andb_true_iff
            || setoid_rewrite N.eqb_eq).
    lia.
  - unfold is_ascii_upper, is_ascii_lower in Ec.
    apply orb_false_iff in Ec as [Eu El].
    apply andb_false_iff in Eu. apply andb_false_iff in El.
    rewrite !N.leb_gt in Eu, El.
    apply Bool.eq_iff_eq_true. rewrite !N.eqb_eq. lia.
Qed.

Lemma Spells_upper kw w : Spells kw (map ascii_upper w) <-> Spells kw w.
Proof.
  unfold Spells. revert kw. induction w as [| x w IH]; intros kw; simpl.
  - split; intros H; inversion H; constructor.
  - split; intros H; inversion H; subst; constructor;
      try (apply IH; assumption).
    + rewrite <- lit_matches_upper. assumption.
    + rewrite lit_matches_upper. assumption.
Qed.

Lemma KeywordOccurs_upper data :
  KeywordOccurs (map ascii_upper data) <-> KeywordOccurs data.
Proof.
  unfold KeywordOccurs, Occurs. split.
  - intros (kw & w & Hkw & Hs & pre & post & Heq).
    apply map_eq_app in Heq as (pre0 & rest & -> & <- & Heq).
    apply map_eq_app in Heq as (w0 & post0 & -> & <- & <-).
    exists kw, w0. repeat split; auto.
    + apply Spells_upper. assumption.
    + eauto.
  - intros (kw & w & Hkw & Hs & pre & post & ->).
    exists kw, (map ascii_upper w). repeat split; auto.
    + apply Spells_upper. assumption.
    + exists (map ascii_upper pre), (map ascii_upper post).
      rewrite !map_app. reflexivity.
Qed.

Lemma lower_upper x : ascii_upper (ascii_lower x) = ascii_upper x.
Proof.
  unfold ascii_upper, ascii_lower, is_ascii_lower, is_ascii_upper.
  destruct (N.leb_spec 0x41 x), (N.leb_spec x 0x5A); simpl;
    try reflexivity.
  destruct (N.leb_spec 0x61 (x + 32)), (N.leb_spec (x + 32) 0x7A); simpl;
    try lia.
  destruct (N.leb_spec 0x61 x); simpl; lia.
Qed.

Lemma KeywordOccurs_lower data :
  KeywordOccurs (map ascii_lower data) <-> KeywordOccurs data.
Proof.
  rewrite <- (KeywordOccurs_upper (map ascii_lower data)).
  rewrite <- (KeywordOccurs_upper data).
  rewrite map_map.
  rewrite (map_ext _ ascii_upper lower_upper). tauto.
Qed.

(** ** Whitespace *)

Lemma isspace_true_iff c :
  isspace c = true <->
  (0x09 <= c <= 0x0D \/ 0x1C <= c <= 0x20 \/ c = 0x85 \/ c = 0xA0 \/
   c = 0x1680 \/ 0x2000 <= c <= 0x200A \/ c = 0x2028 \/ c = 0x2029 \/
   c = 0x202F \/ c = 0x205F \/ c = 0x3000).
Proof.
  unfold isspace.
  repeat (setoid_rewrite orb_true_iff || setoid_rewrite andb_true_iff
          || setoid_rewrite N.eqb_eq || setoid_rewrite N.leb_le).
  lia.
Qed.

Lemma lit_matches_not_space c x :
  isspace c = false -> lit_matches true c x = true -> isspace x = false.
Proof.
  intros Hc Hm. destruct (isspace x) eqn:Hx; [| reflexivity]. exfalso.
  apply isspace_true_iff in Hx.
  assert (Hc' : ~ isspace c = true) by congruence.
  rewrite isspace_true_iff in Hc'.
  unfold lit_matches in Hm. cbn [andb] in Hm.
  destruct (is_ascii_upper c || is_ascii_lower c) eqn:Ec.
  - assert (Hlo : 0x61 <= ascii_tolower c <= 0x7A).
    { unfold ascii_tolower, is_ascii_upper, is_ascii_lower in *.
      destruct ((0x41 <=? c) && (c <=? 0x5A)) eqn:Eu.
      - apply andb_true_iff in Eu as [H1 H2].
        apply N.leb_le in H1. apply N.leb_le in H2. lia.
      - simpl in Ec. apply andb_true_iff in Ec as [H1 H2].
        apply N.leb_le in H1. apply N.leb_le in H2. lia. }
    generalize dependent (ascii_tolower c). intros lo Hm Hlo.
    unfold ignorecase_extra in Hm.
    repeat (setoid_rewrite orb_true_iff in Hm
            || setoid_rewrite andb_true_iff in Hm
            || setoid_rewrite N.eqb_eq in Hm).
    lia.
  - apply N.eqb_eq in Hm. subst x. apply Hc'. exact Hx.
Qed.

Lemma Spells_solid kw w : solid kw -> Spells kw w -> solid w.
Proof.
  intros [Hne Hk] Hs. split.
  - intros ->. inversion Hs. subst. apply Hne. reflexivity.
  - clear Hne. induction Hs as [| c x kw w Hcx _ IH]; constructor.
    + inversion Hk; subst. eapply lit_matches_not_space; eauto.
    + inversion Hk; subst. auto.
Qed.

Lemma keywords_solid kw : In kw keywords -> solid (of_string kw).
Proof.
  assert (H : forallb
                (fun kw => match of_string kw with
                           | [] => false
                           | w => forallb (fun x => negb (isspace x)) w
                           end) keywords = true)
    by (vm_compute; reflexivity).
  rewrite forallb_forall in H. intros Hin. specialize (H kw Hin).
  destruct (of_string kw) as [| c w] eqn:E; [discriminate |].
  split; [discriminate |].
  rewrite forallb_forall in H. apply Forall_forall. intros x Hx.
  apply negb_true_iff. apply H. exact Hx.
Qed.

Lemma Occurs_skip_space w c d :
  solid w -> isspace c = true -> Occurs w (c :: d) -> Occurs w d.
Proof.
  intros [Hne Hw] Hc (pre & post & Heq). destruct pre as [| p pre].
  - destruct w as [| x w]; [contradiction |].
    simpl in Heq. injection Heq as -> _.
    inversion Hw; subst. congruence.
  - simpl in Heq. injection Heq as _ ->. exists pre, post. reflexivity.
Qed.

Lemma Occurs_skip_spaces w l d :
  solid w -> Forall (fun c => isspace c = true) l ->
  Occurs w (l ++ d) -> Occurs w d.
Proof.
  intros Hw Hl. induction Hl as [| c l Hc _ IH]; simpl; auto.
  intros H. apply IH. eapply Occurs_skip_space; eauto.
Qed.

Lemma solid_rev w : solid w -> solid (rev w).
Proof.
  intros [Hne Hw]. split.
  - intros H. apply Hne. rewrite <- (rev_involutive w), H. reflexivity.
  - apply Forall_rev. exact Hw.
Qed.

Lemma Occurs_trim w l m r :
  solid w ->
  Forall (fun c => isspace c = true) l ->
  Forall (fun c => isspace c = true) r ->
  Occurs w (l ++ m ++ r) -> Occurs w m.
Proof.
  intros Hw Hl Hr H.
  apply (Occurs_skip_spaces w l) in H; auto.
  apply Occurs_rev in H. rewrite rev_app_distr in H.
  apply (Occurs_skip_spaces (rev w) (rev r)) in H;
    auto using solid_rev, Forall_rev.
  apply Occurs_rev in H. rewrite !rev_involutive in H. exact H.
Qed.

Lemma KeywordOccurs_strip s : KeywordOccurs (strip s) <-> KeywordOccurs s.
Proof.
  destruct (strip_spec s) as (l & r & Hs & Hl & Hr & _).
  unfold KeywordOccurs. split.
  - intros (kw & w & Hkw & Hsp & Ho). exists kw, w. repeat split; auto.
    rewrite Hs. apply Occurs_app. exact Ho.
  - intros (kw & w & Hkw & Hsp & Ho). exists kw, w. repeat split; auto.
    rewrite Hs in Ho. apply (Occurs_trim w l (strip s) r); auto.
    apply (Spells_solid (of_string kw)); auto using keywords_solid.
Qed.

End Verdicts.

(* ================================================================== *)
(** * What a statement may change *)
(* ================================================================== *)

Module Frames.
Import Run Sinks.

Section Keeping.
Variable R : world -> world -> Prop.
Hypothesis R_refl : forall w, R w w.
Hypothesis R_trans : forall a b c, R a b -> R b c -> R a c.

Lemma keeps_ret {A} (a : A) : keeps R (ret a).
Proof. intros w. apply R_refl. Qed.

Lemma keeps_raise {A} e : keeps R (@raise A e).
Proof. intros w. apply R_refl. Qed.

Lemma keeps_block {A} c : keeps R (@block A c).
Proof. intros w. apply R_refl. Qed.

Lemma keeps_bind {A B} (m : M A) (k : A -> M B) :
  keeps R m -> (forall a, keeps R (k a)) -> keeps R (bind m k).
Proof.
  intros Hm Hk w. unfold bind. specialize (Hm w).
  destruct (m w) as [[a | e | c] w1]; simpl in *; auto.
  eapply R_trans; [exact Hm | apply Hk].
Qed.

Lemma keeps_try_except {A} (body : M A) handler :
  keeps R body -> (forall e, keeps R (handler e)) ->
  keeps R (try_except body handler).
Proof.
  intros Hb Hh w. unfold try_except. specialize (Hb w).
  destruct (body w) as [[a | e | c] w1]; simpl in *; auto.
  eapply R_trans; [exact Hb | apply Hh].
Qed.

Lemma keeps_try_finally {A} (body : M A) cleanup :
  keeps R body -> keeps R cleanup -> keeps R (try_finally body cleanup).
Proof.
  intros Hb Hc w. unfold try_finally. specialize (Hb w).
  destruct (body w) as [[a | e | c] w1]; simpl in *; auto;
    specialize (Hc w1); destruct (cleanup w1) as [[u | e' | c'] w2];
    simpl in *; eapply R_trans; eauto.
Qed.

End Keeping.

(** ** The relations are preorders *)

Lemma same_environment_refl w : same_environment w w.
Proof. repeat split. Qed.

Lemma same_environment_trans a b c :
  same_environment a b -> same_environment b c -> same_environment a c.
Proof.
  intros (H1 & H2 & H3 & H4 & H5 & H6 & H7)
         (G1 & G2 & G3 & G4 & G5 & G6 & G7).
  repeat split; congruence.
Qed.

Lemma appended_refl w : appended w w.
Proof.
  repeat split; try (exists []; rewrite app_nil_r; reflexivity);
    [lia | eauto].
Qed.

Lemma appended_trans a b c : appended a b -> appended b c -> appended a c.
Proof.
  intros ((es & He) & (rs & Hr) & (ns & Hn) & Hc & Hd)
         ((es' & He') & (rs' & Hr') & (ns' & Hn') & Hc' & Hd').
  repeat split.
  - exists (es ++ es'). rewrite He', He, app_assoc. reflexivity.
  - exists (rs ++ rs'). rewrite Hr', Hr, app_assoc. reflexivity.
  - exists (ns ++ ns'). rewrite Hn', Hn, app_assoc. reflexivity.
  - lia.
  - intros db Hdb. destruct (Hd db Hdb) as (db1 & Hdb1 & Ht1).
    destruct (Hd' db1 Hdb1) as (db2 & Hdb2 & Ht2).
    exists db2. split; auto.
Qed.

Lemma evolves_refl fd w : evolves fd w w.
Proof.
  repeat split; auto using same_environment_refl; apply appended_refl.
Qed.

Lemma evolves_trans fd a b c :
  evolves fd a b -> evolves fd b c -> evolves fd a c.
Proof.
  intros (H1 & H2 & H3 & H4) (G1 & G2 & G3 & G4).
  split; [eapply same_environment_trans; eauto |].
  split; [eapply appended_trans; eauto |].
  split; [congruence |].
  intros i Hi. rewrite G4, H4 by assumption. reflexivity.
Qed.

Lemma advances_refl w : advances w w.
Proof.
  split; [apply same_environment_refl |]. split; [apply appended_refl |].
  exists []. rewrite app_nil_r. reflexivity.
Qed.

Lemma advances_trans a b c : advances a b -> advances b c -> advances a c.
Proof.
  intros (H1 & H2 & ss & H3) (G1 & G2 & ss' & G3).
  split; [eapply same_environment_trans; eauto |].
  split; [eapply appended_trans; eauto |].
  exists (ss ++ ss'). rewrite G3, H3, app_assoc. reflexivity.
Qed.

(** ** The library calls *)

Ltac unchanged := intros w; simpl; apply evolves_refl.

Ltac appended_goals :=
  unfold appended; repeat split; simpl;
  first [ exists []; rewrite app_nil_r; reflexivity
        | eexists; reflexivity
        | lia
        | solve [eauto]
        | idtac ].

Lemma evolves_sinks fd w w' :
  same_environment w w' -> appended w w' -> sockets w' = sockets w ->
  evolves fd w w'.
Proof.
  intros He Ha Hs. repeat split; try apply He; try apply Ha;
    rewrite Hs; reflexivity.
Qed.

Ltac sinks_only :=
  apply evolves_sinks; [repeat split | appended_goals | reflexivity].

Lemma keeps_print fd n : keeps (evolves fd) (print n).
Proof.
  intros w. unfold print.
  destruct (encodable w (notice_codepoints n)); [| apply evolves_refl].
  sinks_only.
Qed.

Lemma keeps_datetime_now fd : keeps (evolves fd) datetime_now.
Proof.
  intros w. sinks_only.
Qed.

Lemma keeps_os_path_exists_db fd : keeps (evolves fd) os_path_exists_db.
Proof. unchanged. Qed.

Lemma keeps_sqlite3_connect fd : keeps (evolves fd) sqlite3_connect.
Proof.
  intros w. unfold sqlite3_connect.
  destruct (db_writable w); [| apply evolves_refl].
  destruct (db_file w) as [db |] eqn:E; [apply evolves_refl |].
  sinks_only.
  - exists []. unfold logs_rows. simpl. rewrite E. reflexivity.
  - intros db Hdb. congruence.
Qed.

Lemma rows_of_new_table name name' db :
  has_table name' db = false ->
  rows_of name
    (db ++ [{| table_name := name'; table_rows := []; table_seq := 0 |}])
  = rows_of name db.
Proof.
  unfold rows_of, has_table. induction db as [| t db IH]; simpl.
  - intros _. destruct (String.eqb name' name); reflexivity.
  - intros H. apply orb_false_iff in H as [Ht Hdb].
    destruct (String.eqb (table_name t) name); [reflexivity |].
    apply IH. exact Hdb.
Qed.

Lemma keeps_execute_create_table fd name :
  keeps (evolves fd) (execute_create_table name).
Proof.
  intros w. unfold execute_create_table.
  destruct (db_file w) as [db |] eqn:E; [| apply evolves_refl].
  destruct (has_table name db) eqn:Ht; [apply evolves_refl |].
  sinks_only.
  - exists []. unfold logs_rows. simpl.
    rewrite E, rows_of_new_table, app_nil_r by assumption. reflexivity.
  - intros db0 Hdb. rewrite E in Hdb. injection Hdb as <-.
    eexists. split; [reflexivity |]. intros H.
    unfold has_table in *. rewrite existsb_app, H. reflexivity.
Qed.

Lemma keeps_execute_insert_logs fd ts ip port data co ci og sus :
  keeps (evolves fd) (execute_insert_logs ts ip port data co ci og sus).
Proof.
  intros w. unfold execute_insert_logs.
  destruct (db_file w) as [db |] eqn:E; [| apply evolves_refl].
  destruct (has_table "logs" db) eqn:Ht; [| apply evolves_refl].
  cbn [negb].
  destruct (forallb is_scalar data); [| apply evolves_refl].
  cbn [negb].
  destruct (bind_param "5" co) as [e | co']; [apply evolves_refl |].
  destruct (bind_param "6" ci) as [e | ci']; [apply evolves_refl |].
  destruct (bind_param "7" og) as [e | og']; [apply evolves_refl |].
  cbv zeta.
  destruct (insert_fault w _); [apply evolves_refl |].
  match goal with
  | |- context [insert_row "logs" ?mk db] =>
    destruct (insert_row_rows "logs" mk db Ht) as (db' & Hi & Hr & Ht');
    rewrite Hi
  end.
  sinks_only.
  eexists. unfold logs_rows. simpl. rewrite E. exact Hr.
Qed.

Lemma keeps_sqlite3_commit fd : keeps (evolves fd) sqlite3_commit.
Proof. unchanged. Qed.

Lemma keeps_sqlite3_close fd : keeps (evolves fd) sqlite3_close.
Proof. unchanged. Qed.

Lemma keeps_requests_get fd url timeout :
  keeps (evolves fd) (requests_get url timeout).
Proof.
  intros w. unfold requests_get.
  destruct (geo_service w url); [| | destruct timeout]; apply evolves_refl.
Qed.

Lemma keeps_response_json fd r : keeps (evolves fd) (response_json r).
Proof.
  intros w. unfold response_json. destruct (snd r); apply evolves_refl.
Qed.

Lemma keeps_py_get fd obj key default :
  keeps (evolves fd) (py_get obj key default).
Proof. intros w. destruct obj; apply evolves_refl. Qed.

Lemma keeps_append_json_line fd e : keeps (evolves fd) (append_json_line e).
Proof.
  intros w. unfold append_json_line.
  destruct (json_writable w); [| apply evolves_refl].
  sinks_only.
Qed.

Lemma keeps_server_bind_listen fd : keeps (evolves fd) server_bind_listen.
Proof.
  intros w. unfold server_bind_listen.
  destruct (port_free w); apply evolves_refl.
Qed.

Lemma nth_error_update_nth_other {A} (l : list A) n i x :
  i <> n -> nth_error (update_nth n x l) i = nth_error l i.
Proof.
  revert n i. induction l as [| y l IH]; intros [| n] [| i] H; simpl;
    auto; try contradiction.
  all: try (apply IH; intros ->; apply H; reflexivity).
Qed.

Lemma evolves_socket fd w s :
  evolves fd w (set_sockets w (update_nth fd s (sockets w))).
Proof.
  split; [repeat split |]. split; [appended_goals |].
  simpl. split; [apply update_nth_length |].
  intros i Hi. apply nth_error_update_nth_other. exact Hi.
Qed.

Lemma keeps_sock_recv fd n : keeps (evolves fd) (sock_recv fd n).
Proof.
  intros w. unfold sock_recv.
  destruct (nth_error (sockets w) fd) as [s |]; [| apply evolves_refl].
  destruct (sock_closed s); [apply evolves_refl |].
  destruct (sock_peer s); [apply evolves_socket | apply evolves_refl |].
  destruct (sock_timeout s); apply evolves_refl.
Qed.

Lemma keeps_sock_send fd data : keeps (evolves fd) (sock_send fd data).
Proof.
  intros w. unfold sock_send.
  destruct (nth_error (sockets w) fd) as [s |]; [| apply evolves_refl].
  destruct (sock_closed s || negb (sock_writable s));
    [apply evolves_refl | apply evolves_socket].
Qed.

Lemma keeps_sock_close fd : keeps (evolves fd) (sock_close fd).
Proof.
  intros w. unfold sock_close.
  destruct (nth_error (sockets w) fd) as [s |];
    [apply evolves_socket | apply evolves_refl].
Qed.

(** ** The functions of the program *)

Ltac keep :=
  repeat first
    [ apply keeps_bind; [apply evolves_trans | |]
    | apply keeps_try_except; [apply evolves_trans | |]
    | apply keeps_try_finally; [apply evolves_trans | |]
    | apply keeps_ret; apply evolves_refl
    | apply keeps_raise; apply evolves_refl
    | apply keeps_print | apply keeps_datetime_now
    | apply keeps_os_path_exists_db | apply keeps_sqlite3_connect
    | apply keeps_execute_create_table | apply keeps_execute_insert_logs
    | apply keeps_sqlite3_commit | apply keeps_sqlite3_close
    | apply keeps_requests_get | apply keeps_response_json
    | apply keeps_py_get | apply keeps_append_json_line
    | apply keeps_server_bind_listen | apply keeps_sock_recv
    | apply keeps_sock_send | apply keeps_sock_close
    | intro ].

Lemma keeps_setup_db fd : keeps (evolves fd) setup_db.
Proof.
  unfold setup_db.
  apply keeps_bind; [apply evolves_trans | keep |].
  intros [|]; simpl; keep.
Qed.

Lemma keeps_get_geo fd ip : keeps (evolves fd) (get_geo ip).
Proof. unfold get_geo. keep. Qed.

Lemma keeps_send_fake_response fd : keeps (evolves fd) (send_fake_response fd).
Proof. unfold send_fake_response. keep. Qed.

Lemma keeps_log_event fd addr data g suspicious :
  keeps (evolves fd) (log_event addr data g suspicious).
Proof. unfold log_event. keep. Qed.

Lemma keeps_read_data fd : keeps (evolves fd) (read_data fd).
Proof.
  unfold read_data.
  apply keeps_bind; [apply evolves_trans | keep |].
  intros raw. destruct (utf8_decode Ignore raw); keep.
Qed.

Lemma keeps_call_is_suspicious fd data :
  keeps (evolves fd) (call_is_suspicious data).
Proof. unfold call_is_suspicious. destruct (is_suspicious data); keep. Qed.

Lemma keeps_handle_connection cfg fd addr :
  keeps (evolves fd) (handle_connection cfg fd addr).
Proof.
  unfold handle_connection.
  destruct (py_in (fst addr) (BLACKLIST_IPS cfg)); [keep |].
  destruct (py_in (fst addr) (WHITELIST_IPS cfg)); [keep |].
  apply keeps_try_finally;
    [apply evolves_trans | | keep].
  apply keeps_try_except;
    [apply evolves_trans | | keep].
  apply keeps_bind;
    [apply evolves_trans | apply keeps_read_data |].
  intros data.
  apply keeps_bind;
    [apply evolves_trans | apply keeps_get_geo |].
  intros g.
  apply keeps_bind;
    [apply evolves_trans | apply keeps_call_is_suspicious |].
  intros suspicious.
  apply keeps_bind;
    [apply evolves_trans | apply keeps_log_event |].
  intros _.
  do 3 (apply keeps_bind;
        [apply evolves_trans | apply keeps_print |];
        intros _).
  destruct suspicious; [| keep].
  apply keeps_bind;
    [apply evolves_trans | apply keeps_print |].
  intros _. apply keeps_send_fake_response.
Qed.

End Frames.

(* ================================================================== *)
(** * The server, turn after turn *)
(* ================================================================== *)

Module Server.
Import Run Sinks Classifier Handler Frames TextFacts.
#[local] Arguments firstn : simpl never.
#[local] Arguments skipn : simpl never.

(** ** One turn *)

Lemma same_tail {A} (l l' : list A) x :
  List.length l' = List.length (l ++ [x]) ->
  (forall i, i <> List.length l -> nth_error l' i = nth_error (l ++ [x]) i) ->
  exists y, l' = l ++ [y].
Proof.
  revert l'. induction l as [| a l IH]; intros l' Hlen Hnth.
  - destruct l' as [| y [| z l']]; simpl in Hlen; try discriminate.
    exists y. reflexivity.
  - destruct l' as [| b l']; simpl in Hlen; [discriminate |].
    injection Hlen as Hlen.
    assert (Hb : b = a).
    { specialize (Hnth 0%nat). simpl in Hnth.
      assert (H : Some b = Some a) by (apply Hnth; discriminate).
      injection H as ->. reflexivity. }
    subst b. destruct (IH l' Hlen) as (y & ->).
    + intros i Hi. apply (Hnth (S i)). simpl. lia.
    + exists y. reflexivity.
Qed.

(** A turn of the loop leaves the environment alone, appends to the sinks
    and to the console, and adds one socket after those that were there,
    which it leaves as they were. *)
Lemma serve_one_advances cfg c w :
  exists s',
    same_environment w (snd (serve_one cfg c w)) /\
    appended w (snd (serve_one cfg c w)) /\
    sockets (snd (serve_one cfg c w)) = sockets w ++ [s'].
Proof.
  unfold serve_one, bind, server_accept. cbn [fst snd].
  set (w1 := set_sockets w (sockets w ++ [new_socket c])).
  pose proof (keeps_handle_connection cfg (List.length (sockets w))
                (conn_addr c) w1) as (He & Ha & Hl & Hn).
  destruct (handle_connection cfg (List.length (sockets w)) (conn_addr c) w1)
    as [o w'] eqn:E.
  cbn [snd] in He, Ha, Hl, Hn.
  destruct (same_tail (sockets w) (sockets w') (new_socket c) Hl Hn)
    as (s' & Hs').
  exists s'. destruct o; cbn [snd]; (split; [exact He |]);
    (split; [exact Ha |]); exact Hs'.
Qed.

Lemma filtered_or_processed cfg ip :
  (In ip (BLACKLIST_IPS cfg) \/ In ip (WHITELIST_IPS cfg)) \/
  processed cfg ip.
Proof.
  unfold processed.
  destruct (py_in ip (BLACKLIST_IPS cfg)) eqn:Eb.
  - left. left. apply py_in_iff. exact Eb.
  - destruct (py_in ip (WHITELIST_IPS cfg)) eqn:Ew.
    + left. right. apply py_in_iff. exact Ew.
    + right. split; intros H; apply py_in_iff in H; congruence.
Qed.

Lemma logs_rows_same w w' : db_file w' = db_file w -> logs_rows w' = logs_rows w.
Proof. unfold logs_rows. intros ->. reflexivity. Qed.

(** What a turn does to the sinks and to the peer: nothing; or a line; or a
    line and its row, and then, if the notices can be shown, the verdict is
    [True] and the peer can be written to, the fake response. *)
Lemma serve_one_summary cfg c w :
  exists o w' s',
    serve_one cfg c w = (o, w') /\
    (forall e, o <> Raised e) /\ o <> Blocked InAccept /\
    client_socket w w' = Some s' /\
    (o = Returned tt <-> sock_closed s' = true) /\
    ((json_file w' = json_file w /\ logs_rows w' = logs_rows w /\
      sock_sent s' = []) \/
     (exists e,
        o = Returned tt /\
        json_file w' = json_file w ++ [e] /\ logs_rows w' = logs_rows w /\
        entry_addr e = conn_addr c /\
        sock_sent s' = []) \/
     (exists e r,
        o = Returned tt /\ processed cfg (fst (conn_addr c)) /\
        json_file w' = json_file w ++ [e] /\
        logs_rows w' = logs_rows w ++ [r] /\ row_matches r e /\
        entry_addr e = conn_addr c /\
        (exists payload,
           conn_peer c = PeerSends payload /\
           entry_data e = payload_text payload /\
           is_suspicious (payload_text payload) = Some (entry_suspicious e)) /\
        sock_sent s' =
          (if displayable w (entry_geo e) (entry_data e) (entry_suspicious e)
              && entry_suspicious e && conn_writable c
           then [encode_ascii fake] else []))).
Proof.
  destruct (filtered_or_processed cfg (fst (conn_addr c))) as [Hf | Hp].
  { destruct (serve_one_filtered cfg c w Hf)
      as (w' & s' & H1 & H2 & H3 & H4 & H5 & H6 & H7 & H8).
    exists (Returned tt), w', s'. repeat split; auto; try discriminate.
    left. auto using logs_rows_same. }
  destruct (conn_peer c) as [payload | |] eqn:Hpeer.
  - destruct (fst (get_geo (fst (conn_addr c)) w)) as [g | e | bc] eqn:Hg.
    + destruct (is_suspicious_total (payload_text payload)) as (b & Hsus).
      destruct (json_writable w) eqn:Hj.
      * destruct (serve_one_recorded cfg c w payload g Hp Hpeer Hg Hj)
          as (b' & w' & s' & Hsus' & H1 & H2 & H3 & H4 &
              [(r & H5 & H6 & H7) | (H5 & H6 & e & H7)]).
        -- assert (b' = b) by congruence. subst b'.
           exists (Returned tt), w', s'.
           repeat split; auto; try discriminate.
           right. right.
           exists (entry_of (clock w) (conn_addr c) (payload_text payload)
                     g b), r.
           split; [reflexivity |]. split; [exact Hp |].
           split; [exact H2 |]. split; [exact H5 |]. split; [exact H6 |].
           split; [destruct (conn_addr c); reflexivity |].
           split; [exists payload; auto | exact H7].
        -- exists (Returned tt), w', s'.
           repeat split; auto; try discriminate.
           right. left. eexists.
           split; [reflexivity |]. split; [exact H2 |].
           split; [exact H5 |].
           split; [destruct (conn_addr c); reflexivity | exact H6].
      * destruct (serve_one_json_fails cfg c w payload g Hp Hpeer Hg Hj)
          as (w' & e & s' & H1 & H2 & H3 & H4 & H5 & H6 & H7).
        exists (Returned tt), w', s'.
        repeat split; auto; try discriminate.
        left. auto using logs_rows_same.
    + exfalso. apply (get_geo_never_raises _ _ _ Hg).
    + rewrite get_geo_run in Hg.
      destruct (geo_service w (geo_url (fst (conn_addr c))))
        as [status [[] |] | |] eqn:Hs; try discriminate.
      injection Hg as <-.
      destruct (serve_one_lookup_blocks cfg c w payload Hp Hpeer Hs)
        as (w' & s' & H1 & H2 & H3 & _ & H4 & H5 & H6).
      exists (Blocked InRequest), w', s'.
      repeat split; auto; try discriminate; try congruence;
        try (left; auto using logs_rows_same).
  - destruct (serve_one_reset cfg c w Hp Hpeer)
      as (w' & s' & H1 & H2 & H3 & H4 & H5 & H6 & H7).
    exists (Returned tt), w', s'. repeat split; auto; try discriminate.
    left. auto using logs_rows_same.
  - rewrite (serve_one_silent cfg c w Hp Hpeer).
    exists (Blocked InRecv), (set_sockets w (sockets w ++ [new_socket c])),
      (new_socket c).
    unfold client_socket. simpl. rewrite nth_error_new.
    repeat split; auto; try discriminate.
Qed.

(** ** The loop *)

Lemma accept_loop_step cfg c rest w :
  accept_loop cfg (c :: rest) w =
  match serve_one cfg c w with
  | (Returned _, w1) => accept_loop cfg rest w1
  | (Raised e, w1) => (Raised e, w1)
  | (Blocked b, w1) => (Blocked b, w1)
  end.
Proof. reflexivity. Qed.

Lemma accept_loop_nil cfg w :
  accept_loop cfg [] w =
  (match accept_fault w with
   | Some e => Raised e
   | None => Blocked InAccept
   end, w).
Proof.
  unfold accept_loop, bind, server_accept_idle.
  destruct (accept_fault w); reflexivity.
Qed.

(** The loop never returns: it ends up waiting, in [accept] or in a call
    of the turn it is in, or [accept] fails once every connection of the
    queue has been served, and the error leaves the loop. *)
Lemma accept_loop_ends cfg incoming :
  forall w,
    (exists b w', accept_loop cfg incoming w = (Blocked b, w')) \/
    (exists e w',
       accept_fault w = Some e /\
       accept_loop cfg incoming w = (Raised e, w')).
Proof.
  induction incoming as [| c rest IH]; intros w.
  - rewrite accept_loop_nil. destruct (accept_fault w) as [e |] eqn:E.
    + right. exists e, w. auto.
    + left. exists InAccept, w. reflexivity.
  - rewrite accept_loop_step.
    destruct (serve_one_summary cfg c w) as (o & w1 & s1 & H1 & Hne & _).
    destruct (serve_one_advances cfg c w) as (s1' & He & _).
    rewrite H1 in *. cbn [snd] in He. destruct o as [u | e | b].
    + destruct (IH w1) as [Hb | (e & w' & Hf & Hr)]; [left; exact Hb |].
      right. exists e, w'. split; [| exact Hr].
      destruct He as (_ & _ & _ & _ & _ & _ & Ha). congruence.
    + exfalso. apply (Hne e). reflexivity.
    + left. exists b, w1. reflexivity.
Qed.

Lemma accept_loop_advances cfg incoming :
  forall w, advances w (snd (accept_loop cfg incoming w)).
Proof.
  induction incoming as [| c rest IH]; intros w.
  - rewrite accept_loop_nil. apply advances_refl.
  - rewrite accept_loop_step.
    destruct (serve_one_advances cfg c w) as (s1 & He & Ha & Hs).
    destruct (serve_one cfg c w) as [[u | e | b] w1]; cbn [snd] in *.
    + apply (advances_trans w w1); [| apply IH].
      split; [exact He |]. split; [exact Ha |]. eauto.
    + split; [exact He |]. split; [exact Ha |]. eauto.
    + split; [exact He |]. split; [exact Ha |]. eauto.
Qed.

Lemma Subseq_refl {A} (l : list A) : Subseq l l.
Proof. induction l; constructor; assumption. Qed.

Lemma Subseq_app {A} (a b c d : list A) :
  Subseq a b -> Subseq c d -> Subseq (a ++ c) (b ++ d).
Proof.
  intros H. induction H; simpl; intros Hc; auto; constructor; auto.
Qed.

(** The rows written by the loop are those of some of the lines it wrote,
    in the same order, and it writes at most one line per connection. *)
Lemma accept_loop_sinks cfg incoming :
  forall w, exists es rs es',
    json_file (snd (accept_loop cfg incoming w)) = json_file w ++ es /\
    logs_rows (snd (accept_loop cfg incoming w)) = logs_rows w ++ rs /\
    Subseq es' es /\ Forall2 row_matches rs es' /\
    (List.length es <= List.length incoming)%nat /\
    Subseq (map entry_addr es) (map conn_addr incoming).
Proof.
  induction incoming as [| c rest IH]; intros w.
  - exists [], [], []. rewrite accept_loop_nil. simpl. rewrite !app_nil_r.
    repeat split; auto; constructor.
  - rewrite accept_loop_step.
    destruct (serve_one_summary cfg c w)
      as (o & w1 & s1 & H1 & Hne & _ & _ & _ & Hcase).
    rewrite H1.
    assert (Hturn : exists es rs es',
               json_file w1 = json_file w ++ es /\
               logs_rows w1 = logs_rows w ++ rs /\
               Subseq es' es /\ Forall2 row_matches rs es' /\
               (List.length es <= 1)%nat /\
               Subseq (map entry_addr es) [conn_addr c] /\
               (es <> [] -> o = Returned tt)).
    { destruct Hcase as [(Hj & Hr & _) | [(e & Ho & Hj & Hr & Ha & _)
                        | (e & r & Ho & _ & Hj & Hr & Hm & Ha & _)]].
      - exists [], [], []. rewrite !app_nil_r.
        split; [exact Hj |]. split; [exact Hr |].
        split; [constructor |]. split; [constructor |].
        split; [simpl; lia |]. split; [apply Subseq_nil |].
        intros H. contradiction.
      - exists [e], [], []. rewrite app_nil_r.
        split; [exact Hj |]. split; [exact Hr |].
        split; [apply Subseq_nil |]. split; [constructor |].
        split; [simpl; lia |].
        split; [simpl; rewrite Ha; apply Subseq_refl |].
        intros _. exact Ho.
      - exists [e], [r], [e].
        split; [exact Hj |]. split; [exact Hr |].
        split; [apply Subseq_refl |].
        split; [constructor; [exact Hm | constructor] |].
        split; [simpl; lia |].
        split; [simpl; rewrite Ha; apply Subseq_refl |].
        intros _. exact Ho. }
    destruct Hturn as (es1 & rs1 & es1' & Hj1 & Hr1 & Hs1 & Hm1 & Hl1 & Ha1 & Ho1).
    destruct o as [u | e | b].
    + destruct (IH w1) as (es & rs & es' & Hj & Hr & Hs & Hm & Hl & Ha).
      exists (es1 ++ es), (rs1 ++ rs), (es1' ++ es'). cbn [snd].
      rewrite Hj, Hr, Hj1, Hr1, <- !app_assoc.
      split; [reflexivity |]. split; [reflexivity |].
      split; [apply Subseq_app; assumption |].
      split; [apply Forall2_app; assumption |].
      split; [rewrite length_app; simpl; lia |].
      rewrite map_app.
      apply (Subseq_app _ [conn_addr c] _ (map conn_addr rest));
        assumption.
    + exfalso. apply (Hne e). reflexivity.
    + assert (es1 = []).
      { destruct es1; [reflexivity |].
        assert (H : Blocked b = Returned tt :> outcome unit)
          by (apply Ho1; discriminate).
        discriminate H. }
      subst es1. cbn [snd].
      exists [], rs1, es1'.
      split; [exact Hj1 |]. split; [exact Hr1 |]. split; [exact Hs1 |].
      split; [exact Hm1 |]. split; [simpl; lia |]. apply Subseq_nil.
Qed.

(** While the loop is inside a turn at most its last socket is open; when
    it has come back to [accept] every socket it accepted is closed.  It
    raises only what [accept] raises. *)
Lemma accept_loop_sockets cfg incoming :
  forall w, exists o w' ss,
    accept_loop cfg incoming w = (o, w') /\
    (forall u, o <> Returned u) /\
    (forall e, o = Raised e -> accept_fault w = Some e) /\
    (o = Blocked InAccept -> accept_fault w = None) /\
    sockets w' = sockets w ++ ss /\
    (List.length ss <= List.length incoming)%nat /\
    Forall (fun s => sock_closed s = true) (removelast ss) /\
    (at_accept o <->
     List.length ss = List.length incoming /\
     Forall (fun s => sock_closed s = true) ss).
Proof.
  unfold at_accept.
  induction incoming as [| c rest IH]; intros w.
  - rewrite accept_loop_nil. eexists. exists w, []. simpl.
    rewrite app_nil_r. split; [reflexivity |].
    destruct (accept_fault w) as [e |]; repeat split; auto;
      try discriminate; try congruence.
    right. eauto.
  - rewrite accept_loop_step.
    destruct (serve_one_summary cfg c w)
      as (o & w1 & s1 & H1 & Hne & Hna & Hc & Hclosed & _).
    destruct (serve_one_advances cfg c w) as (s1' & He & _ & Hs).
    rewrite H1 in *. cbn [snd] in Hs, He.
    assert (Hfault : accept_fault w1 = accept_fault w)
      by (destruct He as (_ & _ & _ & _ & _ & _ & Ha); exact Ha).
    unfold client_socket in Hc. rewrite Hs, nth_error_new in Hc.
    injection Hc as ->.
    destruct o as [u | e | b].
    + destruct u.
      assert (Hcl : sock_closed s1 = true) by (apply Hclosed; reflexivity).
      destruct (IH w1)
        as (o & w' & ss & Hrun & Hnr & Hre & Hbe & Hss & Hlen & Hrl & Hiff).
      exists o, w', (s1 :: ss). rewrite Hrun, Hss, Hs, <- app_assoc.
      split; [reflexivity |]. split; [exact Hnr |].
      split; [intros e Ho; rewrite <- Hfault; apply Hre; exact Ho |].
      split; [intros Ho; rewrite <- Hfault; apply Hbe; exact Ho |].
      split; [reflexivity |].
      split; [simpl; lia |]. split.
      * destruct ss; [constructor |].
        change (removelast (s1 :: s :: ss)) with (s1 :: removelast (s :: ss)).
        constructor; assumption.
      * split.
        -- intros Hb. apply Hiff in Hb. split; [simpl; lia |].
           constructor; tauto.
        -- intros [Hl Hf]. apply Hiff. simpl in Hl. inversion Hf; subst.
           split; [lia | assumption].
    + exfalso. apply (Hne e). reflexivity.
    + exists (Blocked b), w1, [s1].
      split; [reflexivity |]. split; [discriminate |].
      split; [discriminate |].
      split; [intros Ho; injection Ho as ->; exfalso; apply Hna; reflexivity |].
      split; [exact Hs |].
      split; [simpl; lia |]. split; [constructor |]. split.
      * intros [Ho | (e & Ho)]; [| discriminate Ho].
        exfalso. apply Hna. exact Ho.
      * intros [_ Hf]. inversion Hf; subst.
        assert (H : Blocked b = Returned tt :> outcome unit)
          by (apply Hclosed; assumption).
        discriminate H.
Qed.

(** ** Start-up *)

(** What comes before the loop: [setup_db], the banner, [bind]. *)
Lemma start_honeypot_run cfg incoming w :
  (db_file w = None /\ db_writable w = false /\
   start_honeypot cfg incoming w =
   (Raised (OperationalError "unable to open database file"), w)) \/
  (exists w0,
     (db_file w <> None \/ db_writable w = true) /\
     same_environment w w0 /\
     json_file w0 = json_file w /\ logs_rows w0 = logs_rows w /\
     sockets w0 = sockets w /\ clock w0 = clock w /\
     console w0 = console w ++ [Started HOST PORT] /\
     (forall db, db_file w = Some db -> db_file w0 = Some db) /\
     (db_file w = None -> db_file w0 = Some [logs_table]) /\
     start_honeypot cfg incoming w =
     (if port_free w then accept_loop cfg incoming w0
      else (Raised (OSError "Address already in use"), w0))).
Proof.
  destruct (db_file w) as [db |] eqn:Hdb.
  - right. unfold start_honeypot. unfold bind at 1.
    rewrite (setup_db_existing w db Hdb).
    unfold bind at 1. rewrite print_plain by reflexivity.
    unfold bind at 1, server_bind_listen.
    cbn [port_free set_console].
    exists (set_console w (console w ++ [Started HOST PORT])).
    split; [left; discriminate |]. split; [repeat split |].
    unfold logs_rows. cbn [json_file db_file sockets clock console set_console].
    split; [reflexivity |]. split; [reflexivity |].
    split; [reflexivity |]. split; [reflexivity |].
    split; [reflexivity |]. split; [intros db0 H; congruence |].
    split; [intros H; congruence |].
    destruct (port_free w); reflexivity.
  - destruct (db_writable w) eqn:Hw.
    + right. unfold start_honeypot. unfold bind at 1.
      rewrite (setup_db_absent w Hdb Hw).
      unfold bind at 1. rewrite print_plain by reflexivity.
    unfold bind at 1, server_bind_listen.
      cbn [port_free set_console set_db_file].
      exists (set_console (set_db_file w (Some [logs_table]))
                (console w ++ [Started HOST PORT])).
      split; [right; reflexivity |]. split; [repeat split |].
      unfold logs_rows.
      cbn [json_file db_file sockets clock console set_console set_db_file].
      rewrite Hdb.
      split; [reflexivity |]. split; [reflexivity |].
      split; [reflexivity |]. split; [reflexivity |].
      split; [reflexivity |]. split; [discriminate |].
      split; [reflexivity |].
      destruct (port_free w); reflexivity.
    + left. unfold start_honeypot. unfold bind at 1.
      rewrite (setup_db_unwritable w Hdb Hw). auto.
Qed.

(** ** Connections that can all be logged *)

Lemma loggable_same_environment cfg w w' c :
  same_environment w w' -> loggable cfg w c -> loggable cfg w' c.
Proof.
  intros (Hg & _ & _ & _ & _ & Hi & _)
         (Hp & payload & g & Hpeer & Hgeo & Hst & Hacc).
  split; [exact Hp |]. exists payload, g.
  split; [exact Hpeer |]. split; [| split; [exact Hst |]].
  - rewrite (get_geo_frame _ w w') by exact Hg. exact Hgeo.
  - intros b ts r Hm. rewrite Hi. apply (Hacc b ts r Hm).
Qed.

Lemma store_ready_appended w w' :
  same_environment w w' -> appended w w' -> store_ready w -> store_ready w'.
Proof.
  intros (_ & _ & Hd & _) (_ & _ & _ & _ & Hdb) (Hw & db & Hf & Ht).
  destruct (Hdb db Hf) as (db' & Hf' & Ht').
  split; [congruence |]. exists db'. auto.
Qed.

(** The event of a turn is in both sinks when it can be written to both,
    whatever the terminal shows. *)
Lemma serve_one_stored cfg c w payload g b :
  processed cfg (fst (conn_addr c)) ->
  conn_peer c = PeerSends payload ->
  fst (get_geo (fst (conn_addr c)) w) = Returned g ->
  is_suspicious (payload_text payload) = Some b ->
  json_writable w = true -> store_ready w -> storable g = true ->
  accepted w (conn_addr c) (payload_text payload) g b ->
  exists w' r,
    serve_one cfg c w = (Returned tt, w') /\
    json_file w' =
      json_file w ++
      [entry_of (clock w) (conn_addr c) (payload_text payload) g b] /\
    logs_rows w' = logs_rows w ++ [r] /\
    row_matches r
      (entry_of (clock w) (conn_addr c) (payload_text payload) g b).
Proof.
  intros Hp Hpeer Hg Hsus Hj Hs Hst Hacc.
  destruct (displayable w g (payload_text payload) b) eqn:Hshow.
  - destruct (serve_one_logged cfg c w payload g b Hp Hpeer Hg Hsus Hj Hs
                Hst Hacc Hshow)
      as (w' & r & s' & H1 & H2 & H3 & H4 & _).
    exists w', r. auto.
  - destruct (serve_one_hidden cfg c w payload g b Hp Hpeer Hg Hsus Hj Hs
                Hst Hacc Hshow)
      as (w' & r & s' & ns & H1 & H2 & H3 & H4 & _).
    exists w', r. auto.
Qed.

(** Connections that can all be logged are all served, and the loop comes
    back to [accept], which waits or fails. *)
Lemma accept_loop_all_logged cfg conns :
  forall w,
    json_writable w = true -> store_ready w ->
    Forall (loggable cfg w) conns ->
    exists w',
      accept_loop cfg conns w =
      (match accept_fault w with
       | Some e => Raised e
       | None => Blocked InAccept
       end, w') /\
      map entry_addr (json_file w')
      = map entry_addr (json_file w) ++ map conn_addr conns /\
      map row_addr (logs_rows w')
      = map row_addr (logs_rows w) ++ map conn_addr conns.
Proof.
  induction conns as [| c rest IH]; intros w Hj Hs Hall.
  - exists w. rewrite accept_loop_nil. simpl. rewrite !app_nil_r. auto.
  - inversion Hall as [| ? ? Hc Hrest]; subst.
    destruct Hc as (Hp & payload & g & Hpeer & Hgeo & Hst & Hacc).
    destruct (is_suspicious_total (payload_text payload)) as (b & Hsus).
    destruct (serve_one_stored cfg c w payload g b Hp Hpeer Hgeo Hsus Hj Hs
                Hst (Hacc b))
      as (w1 & r & H1 & H2 & H3 & H4).
    destruct (serve_one_advances cfg c w) as (s1' & He & Ha & _).
    rewrite H1 in He, Ha. cbn [snd] in He, Ha.
    destruct (IH w1) as (w' & Hrun & Hjs & Hrs).
    + destruct He as (_ & He & _). congruence.
    + eapply store_ready_appended; eauto.
    + eapply Forall_impl; [| exact Hrest].
      intros c'. apply loggable_same_environment. exact He.
    + exists w'. rewrite accept_loop_step, H1.
      assert (Hf : accept_fault w1 = accept_fault w)
        by (destruct He as (_ & _ & _ & _ & _ & _ & Hf); exact Hf).
      rewrite Hf in Hrun.
      split; [exact Hrun |].
      rewrite Hjs, Hrs, H2, H3, !map_app, <- !app_assoc. simpl.
      destruct H4 as (Hip & Hport & _).
      unfold row_addr. rewrite Hip, Hport. simpl.
      unfold entry_addr at 2. simpl.
      destruct (conn_addr c). split; reflexivity.
Qed.

(** ** A store without its table *)

Lemma log_event_without_file addr data g suspicious w :
  json_writable w = true -> db_writable w = true -> db_file w = None ->
  log_event addr data g suspicious w =
  (Raised (OperationalError "no such table: logs"),
   set_db_file
     (set_json_file (set_clock w (clock w + 1))
        (json_file w ++ [entry_of (clock w) addr data g suspicious]))
     (Some [])).
Proof.
  intros Hj Hd Hf.
  unfold log_event, bind, datetime_now, append_json_line, sqlite3_connect,
    execute_insert_logs.
  repeat (simpl; rewrite ?Hj, ?Hd, ?Hf). reflexivity.
Qed.

Lemma log_event_without_table addr data g suspicious w db :
  json_writable w = true -> db_writable w = true ->
  db_file w = Some db -> has_table "logs" db = false ->
  log_event addr data g suspicious w =
  (Raised (OperationalError "no such table: logs"),
   set_json_file (set_clock w (clock w + 1))
     (json_file w ++ [entry_of (clock w) addr data g suspicious])).
Proof.
  intros Hj Hd Hf Ht.
  unfold log_event, bind, datetime_now, append_json_line, sqlite3_connect,
    execute_insert_logs.
  repeat (simpl; rewrite ?Hj, ?Hd, ?Hf, ?Ht). reflexivity.
Qed.

End Server.

(* ================================================================== *)
(** * Laws of the verdict *)
(* ================================================================== *)

Module VerdictLaws.
Import Classifier Keywords Verdicts TextFacts.

(** X1.  [is_suspicious] always returns, and its verdict is [True] exactly
    when one of the seventeen keywords of the patterns occurs somewhere in
    the text, spelled in any mix of cases that [re.IGNORECASE] accepts:
    the four regular expressions amount to a substring test. *)
Theorem verdict_is_keyword_occurrence (data : text) :
  exists b,
    is_suspicious data = Some b /\ (b = true <-> KeywordOccurs data).
Proof.
  destruct (is_suspicious_total data) as [b Hb]. exists b.
  split; [exact Hb |]. rewrite <- verdict_true_iff, Hb. split.
  - intros ->. reflexivity.
  - intros H. injection H as ->. reflexivity.
Qed.

Lemma verdict_is_keyword_occurrence_witness :
  List.length keywords = 17%nat /\
  exists b,
    is_suspicious (of_string "please fetch it with WgEt, now") = Some b /\
    (b = true <-> KeywordOccurs (of_string "please fetch it with WgEt, now")).
Proof.
  split; [reflexivity |].
  exact (verdict_is_keyword_occurrence
           (of_string "please fetch it with WgEt, now")).
Defined.

(** X2.  A suspicious text stays suspicious whatever is put before and
    after it: no prefix and no suffix can hide a keyword from
    [is_suspicious]. *)
Theorem padding_cannot_hide (data : text) :
  is_suspicious data = Some true ->
  forall pre post, is_suspicious (pre ++ data ++ post) = Some true.
Proof.
  intros H pre post. apply verdict_true_iff. apply verdict_true_iff in H.
  destruct H as (kw & w & Hin & Hsp & Hocc).
  exists kw, w. split; [exact Hin |]. split; [exact Hsp |].
  apply Occurs_app. exact Hocc.
Qed.

Lemma padding_cannot_hide_witness :
  is_suspicious (of_string "nc") = Some true /\
  is_suspicious (of_string "announcement") = Some true.
Proof.
  assert (H : is_suspicious (of_string "nc") = Some true)
    by (vm_compute; reflexivity).
  split; [exact H |].
  exact (padding_cannot_hide (of_string "nc") H
           (of_string "annou") (of_string "ement")).
Defined.

(** X3.  The verdict does not depend on the case of the ASCII letters of
    the text: upper-casing or lower-casing them leaves it unchanged. *)
Theorem verdict_ignores_ascii_case (data : text) :
  is_suspicious (map ascii_upper data) = is_suspicious data /\
  is_suspicious (map ascii_lower data) = is_suspicious data.
Proof.
  split; apply verdict_ext.
  - apply KeywordOccurs_upper.
  - apply KeywordOccurs_lower.
Qed.

(** X4.  Trimming does not change the verdict: the [strip()] of line 114
    removes white space only, and no keyword contains any, so classifying
    the trimmed text is classifying the decoded one. *)
Theorem verdict_ignores_trimming (s : text) :
  is_suspicious (strip s) = is_suspicious s.
Proof. apply verdict_ext. apply KeywordOccurs_strip. Qed.

End VerdictLaws.

(* ================================================================== *)
(** * What is read from the client *)
(* ================================================================== *)

Module Reading.
Import Run Sinks Classifier Handler Bounds Decoding TextFacts.
#[local] Arguments firstn : simpl never.
#[local] Arguments skipn : simpl never.

Lemma firstn_exact {A} (n : nat) (l extra : list A) :
  List.length l = n -> firstn n (l ++ extra) = l.
Proof.
  intros <-. rewrite firstn_app, Nat.sub_diag, firstn_all.
  rewrite firstn_O. apply app_nil_r.
Qed.

Lemma payload_text_exact (pad extra : bytes) :
  List.length pad = 2048%nat ->
  payload_text (pad ++ extra) = payload_text pad.
Proof.
  intros H. unfold payload_text.
  rewrite (firstn_exact 2048 pad extra H).
  rewrite <- (app_nil_r pad) at 2.
  rewrite (firstn_exact 2048 pad [] H). reflexivity.
Qed.




(** X6.  Whatever bytes the peer sends, the read succeeds and the text it
    yields has at most 2048 characters, no more than the bytes sent, and
    every character is a Unicode scalar value (no surrogate, nothing above
    U+10FFFF): the text can always be written out again. *)
Theorem read_text_bounded (fd : nat) (W : world) (s : socket)
    (payload : bytes) :
  nth_error (sockets W) fd = Some s ->
  sock_closed s = false ->
  sock_peer s = PeerSends payload ->
  exists t,
    fst (read_data fd W) = Returned t /\
    (List.length t <= 2048)%nat /\
    (List.length t <= List.length payload)%nat /\
    Forall (fun c => is_scalar c = true) t.
Proof.
  intros Hs Hc Hp. exists (payload_text payload).
  split; [apply (read_data_sends fd W s payload); assumption |].
  split; [apply payload_text_length |]. split.
  - unfold payload_text.
    eapply Nat.le_trans; [apply strip_length |].
    eapply Nat.le_trans; [apply decode_ignore_length |].
    rewrite length_firstn. apply Nat.le_min_r.
  - unfold payload_text. apply strip_Forall. apply decode_ignore_scalar.
Qed.

Lemma read_text_bounded_witness :
  exists t,
    fst (read_data 0
           (set_sockets (sample_world sample_service)
              [new_socket (sample_connection "203.0.113.5"
                             (PeerSends garbled_hi))]))
    = Returned t /\
    (List.length t <= 2048)%nat /\
    (List.length t <= List.length garbled_hi)%nat /\
    Forall (fun c => is_scalar c = true) t.
Proof.
  exact (read_text_bounded 0
           (set_sockets (sample_world sample_service)
              [new_socket (sample_connection "203.0.113.5"
                             (PeerSends garbled_hi))])
           (new_socket (sample_connection "203.0.113.5"
                          (PeerSends garbled_hi)))
           garbled_hi eq_refl eq_refl eq_refl).
Defined.

Lemma utf8_decode_ascii (errors : error_handler) (s : bytes) :
  Forall (fun b => Byte.to_N b < 0x80) s ->
  utf8_decode errors s = Some (map Byte.to_N s).
Proof.
  induction 1 as [| b s Hb _ IH]; [reflexivity |].
  cbn [utf8_decode map]. apply N.ltb_lt in Hb. rewrite Hb, IH. reflexivity.
Qed.

(** X7.  When the bytes that [recv] finds waiting are all ASCII, the text
    read from the socket is the first 2048 of them, one character per
    byte, with the surrounding white space trimmed: the decoder drops
    nothing.  This is the text that a processed connection leaves in the
    JSON log.  Bytes that arrive later are not read. *)
Theorem ascii_payload_verbatim (arrived : bytes) :
  Forall (fun b => Byte.to_N b < 0x80) arrived ->
  (forall fd W s,
     nth_error (sockets W) fd = Some s ->
     sock_closed s = false ->
     sock_peer s = PeerSends arrived ->
     fst (read_data fd W)
     = Returned (strip (map Byte.to_N (firstn 2048 arrived)))) /\
  (forall cfg c w g,
     processed cfg (fst (conn_addr c)) ->
     conn_peer c = PeerSends arrived ->
     fst (get_geo (fst (conn_addr c)) w) = Returned g ->
     json_writable w = true ->
     exists b w',
       serve_one cfg c w = (Returned tt, w') /\
       json_file w' =
         json_file w ++
         [entry_of (clock w) (conn_addr c)
            (strip (map Byte.to_N (firstn 2048 arrived))) g b]).
Proof.
  intros H.
  assert (Ht : payload_text arrived
               = strip (map Byte.to_N (firstn 2048 arrived))).
  { unfold payload_text, decode_ignore.
    rewrite utf8_decode_ascii; [reflexivity |].
    rewrite <- (firstn_skipn 2048 arrived) in H.
    apply Forall_app in H. apply H. }
  split.
  - intros fd W s Hs Hc Hpeer. rewrite <- Ht.
    apply (read_data_sends fd W s arrived); assumption.
  - intros cfg c w g Hp Hpeer Hg Hj.
    destruct (serve_one_recorded cfg c w arrived g Hp Hpeer Hg Hj)
      as (b & w' & s' & _ & H1 & H2 & _).
    exists b, w'. rewrite <- Ht. auto.
Qed.

Lemma ascii_payload_verbatim_witness :
  fst (read_data 0
         (set_sockets (sample_world sample_service)
            [new_socket
               (sample_connection "203.0.113.5"
                  (PeerSends (encode_ascii "  SELECT * FROM users  ")))]))
  = Returned (of_string "SELECT * FROM users") /\
  exists b w',
    serve_one shipped_config
      (sample_connection "203.0.113.5"
         (PeerSends (encode_ascii "  SELECT * FROM users  ")))
      (sample_world sample_service) = (Returned tt, w') /\
    json_file w' =
      [entry_of 0 ("203.0.113.5", 51234) (of_string "SELECT * FROM users")
         france b].
Proof.
  assert (H : Forall (fun b => Byte.to_N b < 0x80)
                (encode_ascii "  SELECT * FROM users  ")).
  { repeat constructor. }
  destruct (ascii_payload_verbatim _ H) as [Hread Hlog].
  split.
  - rewrite (Hread 0%nat
               (set_sockets (sample_world sample_service)
                  [new_socket
                     (sample_connection "203.0.113.5"
                        (PeerSends
                           (encode_ascii "  SELECT * FROM users  ")))])
               (new_socket
                  (sample_connection "203.0.113.5"
                     (PeerSends (encode_ascii "  SELECT * FROM users  "))))
               eq_refl eq_refl eq_refl).
    vm_compute. reflexivity.
  - assert (Hp : processed shipped_config "203.0.113.5")
      by (split; intros []).
    destruct (Hlog shipped_config
                (sample_connection "203.0.113.5"
                   (PeerSends (encode_ascii "  SELECT * FROM users  ")))
                (sample_world sample_service) france Hp eq_refl eq_refl
                eq_refl)
      as (b & w' & H1 & H2).
    exists b, w'. split; [exact H1 |]. rewrite H2. vm_compute. reflexivity.
Defined.

End Reading.

(* ================================================================== *)
(** * The fake response *)
(* ================================================================== *)

Module FakeResponse.
Import Run Sinks Classifier Handler Frames Server.
#[local] Arguments firstn : simpl never.
#[local] Arguments skipn : simpl never.

(** X8.  [send_fake_response] never raises and never blocks, whatever the
    state of the socket, and touches nothing but that socket: on an open,
    writable socket the fake prompt is appended to what was sent; on a
    closed or broken one the error is swallowed and the world is left as
    it was. *)
Theorem send_fake_response_contained (fd : nat) (w : world) :
  exists w',
    send_fake_response fd w = (Returned tt, w') /\
    json_file w' = json_file w /\ db_file w' = db_file w /\
    console w' = console w /\ clock w' = clock w /\
    List.length (sockets w') = List.length (sockets w) /\
    (forall i, i <> fd -> nth_error (sockets w') i = nth_error (sockets w) i) /\
    (forall s,
       nth_error (sockets w) fd = Some s ->
       sock_closed s = false -> sock_writable s = true ->
       exists s',
         nth_error (sockets w') fd = Some s' /\
         sock_sent s' = sock_sent s ++ [encode_ascii fake] /\
         sock_closed s' = false /\ sock_peer s' = sock_peer s) /\
    (forall s,
       nth_error (sockets w) fd = Some s ->
       sock_closed s = true \/ sock_writable s = false -> w' = w) /\
    (nth_error (sockets w) fd = None -> w' = w).
Proof.
  rewrite send_fake_response_run.
  destruct (nth_error (sockets w) fd) as [s |] eqn:Hs.
  - destruct (sock_closed s || negb (sock_writable s)) eqn:Hb.
    + exists w. repeat split; auto.
      intros s0 Hs0 Hc Hw. injection Hs0 as <-.
      rewrite Hc, Hw in Hb. discriminate Hb.
    + eexists. split; [reflexivity |]. cbn [json_file db_file console clock
        sockets set_sockets].
      repeat split; auto.
      * apply update_nth_length.
      * intros i Hi. apply nth_error_update_nth_other. exact Hi.
      * intros s0 Hs0 _ _. injection Hs0 as <-. eexists.
        split; [eapply nth_error_update_nth_same; exact Hs |].
        repeat split.
      * intros s0 Hs0 Hor. injection Hs0 as <-.
        apply orb_false_iff in Hb. destruct Hb as [Hc Hw].
        apply negb_false_iff in Hw.
        destruct Hor as [H | H]; congruence.
      * discriminate.
  - exists w. repeat split; auto. discriminate.
Qed.

Lemma send_fake_response_contained_witness :
  (exists w',
     send_fake_response 0
       (set_sockets (sample_world sample_service)
          [new_socket (sample_connection "203.0.113.5" PeerSilent)])
     = (Returned tt, w') /\
     map sock_sent (sockets w') = [[encode_ascii fake]]) /\
  send_fake_response 0
    (set_sockets (sample_world sample_service)
       [new_socket (deaf_connection "203.0.113.5" [])])
  = (Returned tt,
     set_sockets (sample_world sample_service)
       [new_socket (deaf_connection "203.0.113.5" [])]).
Proof.
  split.
  - destruct (send_fake_response_contained 0
                (set_sockets (sample_world sample_service)
                   [new_socket (sample_connection "203.0.113.5" PeerSilent)]))
      as (w' & Hrun & _ & _ & _ & _ & Hlen & _ & Hsend & _).
    exists w'. split; [exact Hrun |].
    destruct (Hsend _ eq_refl eq_refl eq_refl) as (s' & Hs' & Hsent & _).
    destruct (sockets w') as [| s0 [| s1 l]]; try discriminate Hlen.
    injection Hs' as ->. cbn [map]. rewrite Hsent. reflexivity.
  - destruct (send_fake_response_contained 0
                (set_sockets (sample_world sample_service)
                   [new_socket (deaf_connection "203.0.113.5" [])]))
      as (w' & Hrun & _ & _ & _ & _ & _ & _ & _ & Hsame & _).
    rewrite Hrun. rewrite (Hsame _ eq_refl (or_intror eq_refl)). reflexivity.
Defined.

(** X9.  When the fake response cannot be delivered the turn goes on as
    if it had been.  For an event that can be written to both sinks (the
    JSON log is writable, the table is there, the values of the lookup
    can be bound and SQLite takes the row) and whose notices the terminal
    can show: the event is logged as suspicious in both sinks, the four
    notices of a suspicious event are printed and no [ERROR] notice,
    nothing reaches the peer and the socket is closed. *)
Theorem undelivered_reply_is_silent (cfg : config) (c : connection)
    (w : world) (payload : bytes) (g : geo) :
  processed cfg (fst (conn_addr c)) ->
  conn_peer c = PeerSends payload ->
  conn_writable c = false ->
  is_suspicious (payload_text payload) = Some true ->
  fst (get_geo (fst (conn_addr c)) w) = Returned g ->
  json_writable w = true -> store_ready w -> storable g = true ->
  accepted w (conn_addr c) (payload_text payload) g true ->
  displayable w g (payload_text payload) true = true ->
  exists w' r s',
    serve_one cfg c w = (Returned tt, w') /\
    json_file w' =
      json_file w ++
      [entry_of (clock w) (conn_addr c) (payload_text payload) g true] /\
    logs_rows w' = logs_rows w ++ [r] /\
    row_suspicious r = 1%Z /\
    console w' =
      console w ++ [NewNotice (conn_addr c); LocationNotice g;
                    DataNotice (payload_text payload); SuspiciousNotice] /\
    client_socket w w' = Some s' /\
    sock_sent s' = [] /\ sock_closed s' = true.
Proof.
  intros Hp Hs Hw Hb Hg Hj Hd Hst Hacc Hshow.
  destruct (serve_one_logged cfg c w payload g true Hp Hs Hg Hb Hj Hd Hst
              Hacc Hshow)
    as (w' & r & s' & H1 & H2 & H3 & H4 & H5 & H6 & H7 & H8).
  exists w', r, s'. rewrite Hw in H8.
  repeat split; try assumption.
  destruct H4 as (_ & _ & H4 & _). exact H4.
Qed.

Lemma undelivered_reply_is_silent_witness :
  exists w' s',
    serve_one shipped_config (deaf_connection "203.0.113.5" select_users)
      (sample_world sample_service) = (Returned tt, w') /\
    map entry_suspicious (json_file w') = [true] /\
    map row_suspicious (logs_rows w') = [1%Z] /\
    console w' =
      [NewNotice ("203.0.113.5", 51234); LocationNotice france;
       DataNotice (of_string "SELECT * FROM users"); SuspiciousNotice] /\
    client_socket (sample_world sample_service) w' = Some s' /\
    sock_sent s' = [] /\ sock_closed s' = true.
Proof.
  assert (Hp : processed shipped_config "203.0.113.5")
    by (split; intros []).
  assert (Hst : store_ready (sample_world sample_service)).
  { split; [reflexivity |]. exists [logs_table]. split; reflexivity. }
  assert (Hb : is_suspicious (payload_text select_users) = Some true)
    by (vm_compute; reflexivity).
  destruct (undelivered_reply_is_silent shipped_config
              (deaf_connection "203.0.113.5" select_users)
              (sample_world sample_service) select_users france
              Hp eq_refl eq_refl Hb eq_refl eq_refl Hst eq_refl
              (fun ts r _ => eq_refl) eq_refl)
    as (w' & r & s' & H1 & H2 & H3 & H4 & H5 & H6 & H7 & H8).
  exists w', s'. rewrite H2, H3, H5.
  change (logs_rows (sample_world sample_service)) with (@nil row).
  cbn [map app]. rewrite H4.
  split; [exact H1 |]. split; [reflexivity |]. split; [reflexivity |].
  split; [vm_compute; reflexivity |]. repeat split; assumption.
Defined.

(** X10.  The fake response is the only thing the server ever sends, and
    it is sent only after the event has been stored: if anything has been
    sent to the client when a turn of the loop ends, it is the fake
    prompt, once; the turn returned, the address is on neither list, and
    one entry marked suspicious, with the client's address, has been
    appended to the JSON log together with its row in the table (the
    row has the values of the entry, the three values of the lookup as
    a TEXT column stores them). *)
Theorem reply_implies_logged (cfg : config) (c : connection) (w : world)
    (s' : socket) :
  client_socket w (snd (serve_one cfg c w)) = Some s' ->
  sock_sent s' <> [] ->
  fst (serve_one cfg c w) = Returned tt /\
  processed cfg (fst (conn_addr c)) /\
  conn_writable c = true /\
  sock_sent s' = [encode_ascii fake] /\
  exists e r,
    json_file (snd (serve_one cfg c w)) = json_file w ++ [e] /\
    logs_rows (snd (serve_one cfg c w)) = logs_rows w ++ [r] /\
    row_matches r e /\
    entry_suspicious e = true /\ entry_addr e = conn_addr c.
Proof.
  intros Hs Hsent.
  destruct (serve_one_summary cfg c w)
    as (o & w' & s0 & Hrun & _ & _ & Hs0 & _ & Hcases).
  rewrite Hrun in *. cbn [fst snd] in *.
  rewrite Hs0 in Hs. injection Hs as ->.
  destruct Hcases as [(_ & _ & H) | [(e & _ & _ & _ & _ & H) | H]];
    try (rewrite H in Hsent; contradiction).
  destruct H as (e & r & Ho & Hp & Hj & Hr & Hm & Ha & _ & Hsend).
  destruct (displayable w (entry_geo e) (entry_data e) (entry_suspicious e)
            && entry_suspicious e && conn_writable c) eqn:Hb;
    [| rewrite Hsend in Hsent; contradiction].
  apply andb_true_iff in Hb. destruct Hb as [Hb1 Hb2].
  apply andb_true_iff in Hb1. destruct Hb1 as [_ Hb1].
  split; [exact Ho |]. split; [exact Hp |]. split; [exact Hb2 |].
  split; [exact Hsend |]. exists e, r.
  split; [exact Hj |]. split; [exact Hr |]. split; [exact Hm |].
  split; [exact Hb1 | exact Ha].
Qed.

Lemma reply_implies_logged_witness :
  exists e r,
    json_file
      (snd (serve_one shipped_config
              (sample_connection "203.0.113.5" (PeerSends select_users))
              (sample_world sample_service))) = [e] /\
    logs_rows
      (snd (serve_one shipped_config
              (sample_connection "203.0.113.5" (PeerSends select_users))
              (sample_world sample_service))) = [r] /\
    row_matches r e /\
    entry_suspicious e = true /\ entry_addr e = ("203.0.113.5", 51234).
Proof.
  assert (Hs : exists s',
             client_socket (sample_world sample_service)
               (snd (serve_one shipped_config
                       (sample_connection "203.0.113.5"
                          (PeerSends select_users))
                       (sample_world sample_service))) = Some s' /\
             sock_sent s' <> []).
  { eexists. split; [vm_compute; reflexivity | discriminate]. }
  destruct Hs as (s' & Hs & Hne).
  destruct (reply_implies_logged shipped_config
              (sample_connection "203.0.113.5" (PeerSends select_users))
              (sample_world sample_service) s' Hs Hne)
    as (_ & _ & _ & _ & e & r & H).
  exists e, r. exact H.
Defined.

End FakeResponse.

(* ================================================================== *)
(** * The life of the server *)
(* ================================================================== *)

Module Lifecycle.
Import Run Sinks Classifier Handler Frames Server TextFacts.
#[local] Arguments firstn : simpl never.
#[local] Arguments skipn : simpl never.

(** X11.  The accept loop never returns.  It ends up waiting, in [accept]
    when every queued connection has been served, in a read or in a
    lookup otherwise; or [accept] fails, which nothing catches, and its
    error ends the loop: the loop raises nothing else.  It opens one
    socket for each connection it accepts and has closed every one of
    them but, when it is stuck in a turn, the last: the socket of the
    turn that blocks is the only one left open. *)
Theorem loop_closes_what_it_opens (cfg : config) (incoming : list connection)
    (w : world) :
  exists o w' ss,
    accept_loop cfg incoming w = (o, w') /\
    (forall u, o <> Returned u) /\
    (forall e, o = Raised e -> accept_fault w = Some e) /\
    (o = Blocked InAccept -> accept_fault w = None) /\
    sockets w' = sockets w ++ ss /\
    (List.length ss <= List.length incoming)%nat /\
    Forall (fun s => sock_closed s = true) (removelast ss) /\
    (at_accept o <->
     List.length ss = List.length incoming /\
     Forall (fun s => sock_closed s = true) ss).
Proof. apply accept_loop_sockets. Qed.

Lemma loop_closes_what_it_opens_witness :
  (exists w' ss,
     accept_loop shipped_config
       [sample_connection "203.0.113.5" (PeerSends select_users);
        sample_connection "203.0.113.6" PeerSilent;
        sample_connection "203.0.113.7" (PeerSends select_users)]
       (sample_world sample_service) = (Blocked InRecv, w') /\
     sockets w' = ss /\ map sock_closed ss = [true; false]) /\
  (exists w' ss,
     accept_loop shipped_config
       [sample_connection "203.0.113.5" (PeerSends select_users);
        sample_connection "203.0.113.7" (PeerSends select_users)]
       (accept_failing_world sample_service)
     = (Raised (OSError "[Errno 24] Too many open files"), w') /\
     sockets w' = ss /\ map sock_closed ss = [true; true]).
Proof.
  split.
  - destruct (loop_closes_what_it_opens shipped_config
                [sample_connection "203.0.113.5" (PeerSends select_users);
                 sample_connection "203.0.113.6" PeerSilent;
                 sample_connection "203.0.113.7" (PeerSends select_users)]
                (sample_world sample_service))
      as (o & w' & ss & Hrun & _ & _ & _ & Hss & _).
    exists w', ss.
    remember (accept_loop _ _ _) as run eqn:Hr in Hrun.
    vm_compute in Hr. subst run. injection Hrun as <- <-.
    vm_compute in Hss. subst ss. repeat split.
  - destruct (loop_closes_what_it_opens shipped_config
                [sample_connection "203.0.113.5" (PeerSends select_users);
                 sample_connection "203.0.113.7" (PeerSends select_users)]
                (accept_failing_world sample_service))
      as (o & w' & ss & Hrun & _ & Hfault & _ & Hss & _).
    exists w', ss.
    remember (accept_loop _ _ _) as run eqn:Hr in Hrun.
    vm_compute in Hr. subst run. injection Hrun as <- <-.
    vm_compute in Hss. subst ss. repeat split.
Defined.

(** X12.  How [start_honeypot] can end.  It never returns.  It raises in
    three cases only.  Two come before the first [accept]: the SQLite
    file is missing and cannot be created (nothing has been printed
    yet), or the port cannot be bound (the [STARTED] banner has been
    printed and the table created by then).  The third is a failure of
    [accept] itself, which is called outside the [try] of the loop: its
    error ends the server.  Otherwise it waits for ever, in [accept], in
    a read or in a lookup; in both cases the banner is the first thing it
    printed. *)
Theorem start_honeypot_outcomes (cfg : config) (incoming : list connection)
    (w : world) :
  (db_file w = None -> db_writable w = false ->
   start_honeypot cfg incoming w =
   (Raised (OperationalError "unable to open database file"), w)) /\
  (db_file w <> None \/ db_writable w = true ->
   port_free w = false ->
   exists w0,
     start_honeypot cfg incoming w =
     (Raised (OSError "Address already in use"), w0) /\
     console w0 = console w ++ [Started HOST PORT] /\
     sockets w0 = sockets w /\ json_file w0 = json_file w /\
     (db_file w = None -> db_file w0 = Some [logs_table]) /\
     (forall db, db_file w = Some db -> db_file w0 = Some db)) /\
  (db_file w <> None \/ db_writable w = true ->
   port_free w = true ->
   exists o w' ns,
     start_honeypot cfg incoming w = (o, w') /\
     console w' = console w ++ Started HOST PORT :: ns /\
     ((exists b, o = Blocked b) \/
      (exists e, o = Raised e /\ accept_fault w = Some e))).
Proof.
  destruct (start_honeypot_run cfg incoming w)
    as [(Hdb & Hw & Hrun) |
        (w0 & Hok & Henv & Hj & Hr & Hs & Hc & Hcon & Hkeep & Hnew & Hrun)].
  - split; [intros _ _; exact Hrun |].
    split; intros [Hne | Ht] _; try (elim Hne; exact Hdb);
      rewrite Hw in Ht; discriminate Ht.
  - split; [| split].
    + intros Hdb Hw. destruct Hok as [Hne | Ht].
      * elim Hne. exact Hdb.
      * rewrite Hw in Ht. discriminate Ht.
    + intros _ Hp. rewrite Hp in Hrun. exists w0.
      repeat split; assumption.
    + intros _ Hp. rewrite Hp in Hrun.
      assert (Hf : accept_fault w0 = accept_fault w)
        by (destruct Henv as (_ & _ & _ & _ & _ & _ & Hf); exact Hf).
      destruct (accept_loop_advances cfg incoming w0)
        as (_ & (_ & _ & (ns & Hns) & _) & _).
      destruct (accept_loop_ends cfg incoming w0)
        as [(b & w' & Hloop) | (e & w' & He & Hloop)];
        rewrite Hloop in Hns; cbn [snd] in Hns.
      * exists (Blocked b), w', ns. split; [rewrite Hrun; exact Hloop |].
        split; [rewrite Hns, Hcon, <- app_assoc; reflexivity |].
        left. exists b. reflexivity.
      * exists (Raised e), w', ns. split; [rewrite Hrun; exact Hloop |].
        split; [rewrite Hns, Hcon, <- app_assoc; reflexivity |].
        right. exists e. split; [reflexivity | congruence].
Qed.

Lemma start_honeypot_outcomes_witness :
  start_honeypot shipped_config
    [sample_connection "203.0.113.5" (PeerSends select_users)]
    (no_disk_world sample_service)
  = (Raised (OperationalError "unable to open database file"),
     no_disk_world sample_service) /\
  (exists w0,
     start_honeypot shipped_config
       [sample_connection "203.0.113.5" (PeerSends select_users)]
       (port_taken_world sample_service)
     = (Raised (OSError "Address already in use"), w0) /\
     console w0 = [Started HOST PORT] /\
     db_file w0 = Some [logs_table]) /\
  (exists b w' ns,
     start_honeypot shipped_config
       [sample_connection "203.0.113.5" (PeerSends select_users)]
       (fresh_world sample_service) = (Blocked b, w') /\
     console w' = Started HOST PORT :: ns) /\
  (exists w' ns,
     start_honeypot shipped_config
       [sample_connection "203.0.113.5" (PeerSends select_users)]
       (accept_failing_world sample_service)
     = (Raised (OSError "[Errno 24] Too many open files"), w') /\
     console w' = Started HOST PORT :: ns).
Proof.
  split; [| split; [| split]].
  - exact (proj1 (start_honeypot_outcomes shipped_config
                   [sample_connection "203.0.113.5" (PeerSends select_users)]
                   (no_disk_world sample_service)) eq_refl eq_refl).
  - destruct (proj1 (proj2 (start_honeypot_outcomes shipped_config
                   [sample_connection "203.0.113.5" (PeerSends select_users)]
                   (port_taken_world sample_service)))
                (or_intror eq_refl) eq_refl)
      as (w0 & H1 & H2 & _ & _ & H3 & _).
    exists w0. split; [exact H1 |]. split; [exact H2 | exact (H3 eq_refl)].
  - destruct (proj2 (proj2 (start_honeypot_outcomes shipped_config
                   [sample_connection "203.0.113.5" (PeerSends select_users)]
                   (fresh_world sample_service)))
                (or_intror eq_refl) eq_refl)
      as (o & w' & ns & H1 & H2 & [(b & ->) | (e & _ & He)]).
    + exists b, w', ns. split; assumption.
    + discriminate He.
  - destruct (proj2 (proj2 (start_honeypot_outcomes shipped_config
                   [sample_connection "203.0.113.5" (PeerSends select_users)]
                   (accept_failing_world sample_service)))
                (or_intror eq_refl) eq_refl)
      as (o & w' & ns & H1 & H2 & _).
    exists w', ns. split; [| exact H2].
    remember (start_honeypot _ _ _) as run eqn:Hr in H1.
    vm_compute in Hr. subst run. injection H1 as <- <-. reflexivity.
Defined.


(** X14.  The two sinks stay in step.  What a run of the server adds to
    the JSON log is at most one entry for each connection queued, with the
    addresses of the connections in their order of arrival; what it adds
    to the table is one row for each entry of a sub-sequence of those
    entries, in the same order, each row carrying the values of its
    entry (the three values of the lookup as a TEXT column stores
    them).  So the table never holds an event that the JSON log lacks. *)
Theorem rows_follow_lines (cfg : config) (incoming : list connection)
    (w : world) :
  exists es rs es',
    json_file (snd (start_honeypot cfg incoming w)) = json_file w ++ es /\
    logs_rows (snd (start_honeypot cfg incoming w)) = logs_rows w ++ rs /\
    Subseq es' es /\ Forall2 row_matches rs es' /\
    (List.length es <= List.length incoming)%nat /\
    Subseq (map entry_addr es) (map conn_addr incoming).
Proof.
  assert (Hnone : forall w0,
             json_file w0 = json_file w -> logs_rows w0 = logs_rows w ->
             exists es rs es',
               json_file w0 = json_file w ++ es /\
               logs_rows w0 = logs_rows w ++ rs /\
               Subseq es' es /\ Forall2 row_matches rs es' /\
               (List.length es <= List.length incoming)%nat /\
               Subseq (map entry_addr es) (map conn_addr incoming)).
  { intros w0 Hj Hr. exists [], [], [].
    rewrite !app_nil_r. split; [exact Hj |]. split; [exact Hr |].
    split; [constructor |]. split; [constructor |].
    split; [apply Nat.le_0_l | apply Subseq_nil]. }
  destruct (start_honeypot_run cfg incoming w)
    as [(Hdb & Hw & Hrun) |
        (w0 & Hok & Henv & Hj & Hr & Hs & Hc & Hcon & Hkeep & Hnew & Hrun)].
  - rewrite Hrun. apply Hnone; reflexivity.
  - rewrite Hrun. destruct (port_free w); [| apply Hnone; assumption].
    destruct (accept_loop_sinks cfg incoming w0)
      as (es & rs & es' & H1 & H2 & H3).
    exists es, rs, es'. rewrite H1, H2, Hj, Hr.
    split; [reflexivity |]. split; [reflexivity | exact H3].
Qed.

(** X15.  Started where its files can be written, the port is free and
    [accept] does not fail, with connections that are all on neither
    list, send something and get an answer from the lookup service whose
    values can be bound to the INSERT and whose row SQLite takes, the
    server logs every one of them, in both sinks, in their order of
    arrival, and then waits for the next connection.  This holds whatever
    the terminal can show. *)
Theorem loggable_connections_all_logged (cfg : config)
    (conns : list connection) (w : world) :
  json_writable w = true -> db_writable w = true -> port_free w = true ->
  accept_fault w = None ->
  db_file w = None \/ store_ready w ->
  Forall (loggable cfg w) conns ->
  exists w',
    start_honeypot cfg conns w = (Blocked InAccept, w') /\
    map entry_addr (json_file w')
    = map entry_addr (json_file w) ++ map conn_addr conns /\
    map row_addr (logs_rows w')
    = map row_addr (logs_rows w) ++ map conn_addr conns.
Proof.
  intros Hjw Hdw Hp Hacc Hstore Hall.
  destruct (start_honeypot_run cfg conns w)
    as [(Hdb & Hw & Hrun) |
        (w0 & Hok & Henv & Hj & Hr & Hs & Hc & Hcon & Hkeep & Hnew & Hrun)].
  - rewrite Hdw in Hw. discriminate Hw.
  - rewrite Hp in Hrun.
    assert (Hjw0 : json_writable w0 = true).
    { destruct Henv as (_ & H & _). rewrite H. exact Hjw. }
    assert (Hst0 : store_ready w0).
    { split.
      - destruct Henv as (_ & _ & H & _). rewrite H. exact Hdw.
      - destruct Hstore as [Hnone | (_ & db & Hdb & Ht)].
        + exists [logs_table]. split; [apply Hnew; exact Hnone | reflexivity].
        + exists db. split; [apply Hkeep; exact Hdb | exact Ht]. }
    assert (Hall0 : Forall (loggable cfg w0) conns).
    { eapply Forall_impl; [| exact Hall].
      intros c. apply loggable_same_environment. exact Henv. }
    destruct (accept_loop_all_logged cfg conns w0 Hjw0 Hst0 Hall0)
      as (w' & H1 & H2 & H3).
    assert (Hf : accept_fault w0 = None)
      by (destruct Henv as (_ & _ & _ & _ & _ & _ & Hf); congruence).
    rewrite Hf in H1.
    exists w'. rewrite Hrun, H2, H3, Hj, Hr. repeat split. exact H1.
Qed.

Lemma loggable_connections_all_logged_witness :
  exists w',
    start_honeypot shipped_config
      [sample_connection "203.0.113.5" (PeerSends select_users);
       sample_connection "203.0.113.6" (PeerSends garbled_hi);
       sample_connection "203.0.113.5" (PeerSends [])]
      (fresh_world sample_service) = (Blocked InAccept, w') /\
    map entry_addr (json_file w')
    = [("203.0.113.5", 51234); ("203.0.113.6", 51234);
       ("203.0.113.5", 51234)] /\
    map row_addr (logs_rows w')
    = [("203.0.113.5", 51234); ("203.0.113.6", 51234);
       ("203.0.113.5", 51234)].
Proof.
  assert (Hl : forall ip payload,
             loggable shipped_config (fresh_world sample_service)
               (sample_connection ip (PeerSends payload))).
  { intros ip payload. split; [split; intros [] |].
    exists payload, france. repeat split. }
  exact (loggable_connections_all_logged shipped_config
           [sample_connection "203.0.113.5" (PeerSends select_users);
            sample_connection "203.0.113.6" (PeerSends garbled_hi);
            sample_connection "203.0.113.5" (PeerSends [])]
           (fresh_world sample_service)
           eq_refl eq_refl eq_refl eq_refl (or_introl eq_refl)
           (Forall_cons _ (Hl _ _)
              (Forall_cons _ (Hl _ _)
                 (Forall_cons _ (Hl _ _) (Forall_nil _))))).
Defined.

Lemma rows_of_without_table db :
  has_table "logs" db = false -> rows_of "logs" db = [].
Proof.
  unfold has_table, rows_of. intros H.
  destruct (find (fun t => String.eqb (table_name t) "logs") db)
    as [t |] eqn:Hf; [| reflexivity].
  apply find_some in Hf. destruct Hf as [Hin Ht].
  assert (Hex : existsb (fun t => String.eqb (table_name t) "logs") db = true)
    by (apply existsb_exists; exists t; split; assumption).
  rewrite H in Hex. discriminate Hex.
Qed.

(** X16.  A store without its table is never repaired.  When the SQLite
    file is missing, or is there without the table [logs], [log_event]
    writes the JSON line and then fails with [no such table: logs]; the
    file is there afterwards (the connection created it), still without
    the table, and [setup_db], which only tests for the file, returns
    without creating anything.  The state is kept by both functions, so
    from then on every event reaches the JSON log only. *)
Theorem missing_table_is_never_created (addr : address) (data : text)
    (g : geo) (suspicious : bool) (w : world) :
  json_writable w = true -> db_writable w = true ->
  db_file w = None \/
  (exists db, db_file w = Some db /\ has_table "logs" db = false) ->
  exists w' db',
    log_event addr data g suspicious w =
    (Raised (OperationalError "no such table: logs"), w') /\
    json_file w' =
      json_file w ++ [entry_of (clock w) addr data g suspicious] /\
    db_file w' = Some db' /\ has_table "logs" db' = false /\
    logs_rows w' = [] /\
    json_writable w' = true /\ db_writable w' = true /\
    setup_db w' = (Returned tt, w').
Proof.
  intros Hj Hd [Hnone | (db & Hdb & Ht)].
  - rewrite (log_event_without_file addr data g suspicious w Hj Hd Hnone).
    eexists. exists []. split; [reflexivity |].
    repeat split; try assumption.
  - rewrite (log_event_without_table addr data g suspicious w db Hj Hd Hdb Ht).
    eexists. exists db. split; [reflexivity |].
    cbn [json_file db_file set_json_file set_clock json_writable db_writable].
    split; [reflexivity |]. split; [exact Hdb |]. split; [exact Ht |].
    split; [| split; [exact Hj | split; [exact Hd |]]].
    + unfold logs_rows. cbn [db_file set_json_file set_clock].
      rewrite Hdb. apply rows_of_without_table. exact Ht.
    + eapply setup_db_existing. cbn [db_file set_json_file set_clock].
      exact Hdb.
Qed.

Lemma missing_table_is_never_created_witness :
  exists w' w'',
    log_event ("203.0.113.5", 51234) (of_string "ls") france false
      (fresh_world sample_service)
    = (Raised (OperationalError "no such table: logs"), w') /\
    setup_db w' = (Returned tt, w') /\
    log_event ("203.0.113.5", 51234) (of_string "sh") france true w'
    = (Raised (OperationalError "no such table: logs"), w'') /\
    List.length (json_file w'') = 2%nat /\ logs_rows w'' = [].
Proof.
  destruct (missing_table_is_never_created ("203.0.113.5", 51234)
              (of_string "ls") france false (fresh_world sample_service)
              eq_refl eq_refl (or_introl eq_refl))
    as (w' & db' & H1 & H2 & H3 & H4 & H5 & H6 & H7 & H8).
  destruct (missing_table_is_never_created ("203.0.113.5", 51234)
              (of_string "sh") france true w' H6 H7
              (or_intror (ex_intro _ db' (conj H3 H4))))
    as (w'' & db'' & G1 & G2 & G3 & G4 & G5 & _).
  exists w', w''. split; [exact H1 |]. split; [exact H8 |].
  split; [exact G1 |]. split; [| exact G5].
  rewrite G2, H2. reflexivity.
Defined.

(** X17.  A turn of the loop gets stuck in two situations only: the
    address is on neither list and either the peer sends nothing (the
    read waits) or the peer has sent something and the lookup service
    does not answer (the request waits).  A turn that is stuck has
    written nothing to either sink, has sent nothing, and its socket is
    still open. *)
Theorem stuck_turn_leaves_no_trace (cfg : config) (c : connection)
    (w w' : world) (b : blocking_call) :
  serve_one cfg c w = (Blocked b, w') ->
  processed cfg (fst (conn_addr c)) /\
  ((b = InRecv /\ conn_peer c = PeerSilent) \/
   (b = InRequest /\
    (exists payload, conn_peer c = PeerSends payload) /\
    geo_service w (geo_url (fst (conn_addr c))) = ServerSilent)) /\
  json_file w' = json_file w /\ db_file w' = db_file w /\
  exists s',
    client_socket w w' = Some s' /\
    sock_closed s' = false /\ sock_sent s' = [].
Proof.
  intros Hrun.
  destruct (filtered_or_processed cfg (fst (conn_addr c))) as [Hf | Hp].
  { destruct (serve_one_filtered cfg c w Hf) as (w1 & s1 & H1 & _).
    rewrite H1 in Hrun. discriminate Hrun. }
  split; [exact Hp |].
  destruct (serve_one_cases cfg c w Hp)
    as [(Hpeer & H1) | [(payload & w1 & Hpeer & Hgeo & H1) |
                       (w1 & s1 & H1 & _)]].
  - rewrite H1 in Hrun. injection Hrun as <- <-.
    split; [left; split; [reflexivity | exact Hpeer] |].
    split; [reflexivity |]. split; [reflexivity |].
    exists (new_socket c). unfold client_socket. cbn [sockets set_sockets].
    rewrite nth_error_app2 by apply Nat.le_refl.
    rewrite Nat.sub_diag. repeat split.
  - destruct (serve_one_lookup_blocks cfg c w payload Hp Hpeer Hgeo)
      as (w2 & s2 & G1 & G2 & G3 & _ & G4 & G5 & G6).
    rewrite G1 in Hrun. injection Hrun as <- <-.
    split; [right; split; [reflexivity |];
            split; [exists payload; exact Hpeer | exact Hgeo] |].
    split; [exact G2 |]. split; [exact G3 |].
    exists s2. repeat split; assumption.
  - rewrite H1 in Hrun. discriminate Hrun.
Qed.

Lemma stuck_turn_leaves_no_trace_witness :
  exists w',
    serve_one shipped_config (sample_connection "203.0.113.5" PeerSilent)
      (sample_world sample_service) = (Blocked InRecv, w') /\
    json_file w' = [] /\ db_file w' = Some [logs_table] /\
    map sock_closed (sockets w') = [false].
Proof.
  eexists. split; [vm_compute; reflexivity |].
  destruct (stuck_turn_leaves_no_trace shipped_config
              (sample_connection "203.0.113.5" PeerSilent)
              (sample_world sample_service) _ InRecv eq_refl)
    as (_ & _ & Hj & Hd & _).
  split; [exact Hj |]. split; [exact Hd | reflexivity].
Defined.

End Lifecycle.

(* ================================================================== *)
(** * The shape of the log *)
(* ================================================================== *)

Module LogShape.
Import Run Sinks Classifier Handler Frames Server TextFacts Bounds.
#[local] Arguments firstn : simpl never.
#[local] Arguments skipn : simpl never.

Lemma entry_of_shaped ts addr payload g b :
  is_suspicious (payload_text payload) = Some b ->
  shaped (entry_of ts addr (payload_text payload) g b).
Proof.
  intros Hb. unfold shaped. cbn [entry_of entry_data entry_suspicious].
  split; [apply payload_text_length |].
  split; [unfold payload_text; apply strip_Forall, decode_ignore_scalar |].
  destruct (strip_spec (decode_ignore (firstn 2048 payload)))
    as (l & r & _ & _ & _ & Hs & He).
  split; [exact Hs |]. split; [exact He | exact Hb].
Qed.

Lemma serve_one_entries cfg c w :
  exists es,
    json_file (snd (serve_one cfg c w)) = json_file w ++ es /\
    Forall shaped es.
Proof.
  assert (Hnone : forall w', json_file w' = json_file w ->
             exists es, json_file w' = json_file w ++ es /\ Forall shaped es).
  { intros w' H. exists []. rewrite app_nil_r. split; [exact H | constructor]. }
  destruct (filtered_or_processed cfg (fst (conn_addr c))) as [Hf | Hp].
  { destruct (serve_one_filtered cfg c w Hf) as (w' & s' & H1 & H2 & _).
    rewrite H1. apply Hnone. exact H2. }
  destruct (conn_peer c) as [payload | |] eqn:Hpeer.
  - destruct (fst (get_geo (fst (conn_addr c)) w)) as [g | e | bc] eqn:Hg.
    + destruct (is_suspicious_total (payload_text payload)) as (b & Hsus).
      assert (Hone : forall w',
                 json_file w' =
                 json_file w ++
                 [entry_of (clock w) (conn_addr c) (payload_text payload) g b] ->
                 exists es,
                   json_file w' = json_file w ++ es /\ Forall shaped es).
      { intros w' H. eexists. split; [exact H |].
        constructor; [apply entry_of_shaped; exact Hsus | constructor]. }
      destruct (json_writable w) eqn:Hj.
      * destruct (serve_one_recorded cfg c w payload g Hp Hpeer Hg Hj)
          as (b' & w' & s' & Hsus' & H1 & H2 & _).
        assert (b' = b) by congruence. subst b'.
        rewrite H1. apply Hone. exact H2.
      * destruct (serve_one_json_fails cfg c w payload g Hp Hpeer Hg Hj)
          as (w' & e & s' & H1 & H2 & _).
        rewrite H1. apply Hnone. exact H2.
    + exfalso. apply (get_geo_never_raises _ _ _ Hg).
    + rewrite get_geo_run in Hg.
      destruct (geo_service w (geo_url (fst (conn_addr c))))
        as [status [[] |] | |] eqn:Hs; try discriminate.
      destruct (serve_one_lookup_blocks cfg c w payload Hp Hpeer Hs)
        as (w' & s' & H1 & H2 & _).
      rewrite H1. apply Hnone. exact H2.
  - destruct (serve_one_reset cfg c w Hp Hpeer) as (w' & s' & H1 & H2 & _).
    rewrite H1. apply Hnone. exact H2.
  - rewrite (serve_one_silent cfg c w Hp Hpeer). apply Hnone. reflexivity.
Qed.

Lemma accept_loop_entries cfg incoming :
  forall w, exists es,
    json_file (snd (accept_loop cfg incoming w)) = json_file w ++ es /\
    Forall shaped es.
Proof.
  induction incoming as [| c rest IH]; intros w.
  - exists []. rewrite accept_loop_nil, app_nil_r.
    split; [reflexivity | constructor].
  - rewrite accept_loop_step.
    destruct (serve_one_entries cfg c w) as (es1 & H1 & F1).
    destruct (serve_one cfg c w) as [[u | e | b] w1]; cbn [snd] in *;
      try (exists es1; split; assumption).
    destruct (IH w1) as (es & H & F).
    exists (es1 ++ es). rewrite H, H1, app_assoc.
    split; [reflexivity | apply Forall_app; split; assumption].
Qed.

(** X18.  Every entry that a run of the server adds to the JSON log has
    the same shape: its text has at most 2048 characters, all of them
    Unicode scalar values, with no white space at either end, and its
    [suspicious] field is the verdict of [is_suspicious] on that very
    text. *)
Theorem logged_entries_shaped (cfg : config) (incoming : list connection)
    (w : world) :
  exists es,
    json_file (snd (start_honeypot cfg incoming w)) = json_file w ++ es /\
    Forall shaped es.
Proof.
  destruct (start_honeypot_run cfg incoming w)
    as [(Hdb & Hw & Hrun) |
        (w0 & Hok & Henv & Hj & Hr & Hs & Hc & Hcon & Hkeep & Hnew & Hrun)].
  - rewrite Hrun. exists []. rewrite app_nil_r.
    split; [reflexivity | constructor].
  - rewrite Hrun. destruct (port_free w).
    + destruct (accept_loop_entries cfg incoming w0) as (es & H & F).
      exists es. rewrite H, Hj. split; [reflexivity | exact F].
    + exists []. rewrite app_nil_r. split; [exact Hj | constructor].
Qed.

End LogShape.
